(** * MirBFT client windows and serial processor: a shallow embedding

    The development follows the Go sources [client_windows.go] (the
    per-client request windows, the global ready list and the WAL replay)
    and [processor.go] (the serial action processor).

    Modelling conventions.
    - [uint64] values are integers in [Z]; every Go addition that can wrap
      is written with [wrap64].
    - Go pointers to [clientReqNo] and [readyEntry] objects are locations
      (indices) into two append-only heaps, so that the sharing between a
      window's list, its map and the ready list is kept.
    - A [*clientRequest] is always reached through the [digests] map of its
      [clientReqNo] and entries of that map are never replaced, so the
      pointer [strongRequest] is the key of the entry it points to.
    - A Go [panic] is the outcome [Panic]; a loop that never leaves is the
      outcome [Diverge]. *)

From Stdlib Require Import ZArith Lia Sorted.
From stdpp Require Import base option list gmap sets strings fin_maps.

Local Open Scope Z_scope.

(** ** Machine integers *)

Definition MaxUint64 : Z := 18446744073709551615.

Definition wrap64 (z : Z) : Z := z mod 18446744073709551616.

(** ** Outcomes of a call *)

Inductive result (A : Type) : Type :=
| Ok (a : A)
| Panic (msg : string)
| Diverge.
Arguments Ok {A} a.
Arguments Panic {A} msg%_string.
Arguments Diverge {A}.

#[global] Instance result_ret : MRet result := λ A a, Ok a.
#[global] Instance result_bind : MBind result := λ A B f r,
  match r with
  | Ok a => f a
  | Panic msg => Panic msg
  | Diverge => Diverge
  end.

Definition is_Ok {A} (r : result A) : Prop := ∃ a, r = Ok a.

(** ** Protocol buffers used by the client windows *)

Record NetworkState_Config := {
  Nodes : list Z;
  NumberOfBuckets : Z;
  CheckpointInterval : Z;
  MaxEpochLength : Z;
}.

Record Request := {
  req_ClientId : Z;
  req_ReqNo : Z;
  req_Data : string;
}.

Record RequestAck := {
  ack_ClientId : Z;
  ack_ReqNo : Z;
  ack_Digest : string;
}.

Record FetchRequest := {
  fetch_ClientId : Z;
  fetch_ReqNo : Z;
  fetch_Digest : string;
}.

Record ForwardRequest := {
  fwd_Request : Request;
  fwd_Digest : string;
}.

Inductive Msg :=
| Msg_RequestAck (ack : RequestAck)
| Msg_FetchRequest (fetch : FetchRequest)
| Msg_ForwardRequest (fwd : ForwardRequest)
| Msg_Other (tag : string).

Record NetworkState_Client := {
  client_Id : Z;
  BucketLowWatermarks : list Z;
}.

Record NetworkState := {
  ns_Config : NetworkState_Config;
  ns_Clients : list NetworkState_Client;
}.

Record CEntry := {
  ce_SeqNo : Z;
  ce_NetworkState : NetworkState;
}.

Record QEntry := {
  qe_SeqNo : Z;
  qe_Epoch : Z;
  qe_Digest : string;
  qe_Requests : list ForwardRequest;
}.

Record PEntry := {
  pe_SeqNo : Z;
  pe_Epoch : Z;
  pe_Digest : string;
}.

Inductive Persistent :=
| Persistent_CEntry (c : CEntry)
| Persistent_QEntry (q : QEntry)
| Persistent_PEntry (p : PEntry)
| Persistent_Other.

Record StateEvent_InitialParameters := {
  param_Id : Z;
}.

(** ** Quorum arithmetic *)

(** Modelled from the spec: the number [f] of tolerated faults, which the
    sources under study use through [someCorrectQuorum] and
    [intersectionQuorum] without defining them.  The spec derives
    [n = |nodes|] and [f = (n-1)/3]; Go's integer division truncates. *)
Definition faults (cfg : NetworkState_Config) : Z :=
  Z.quot (Z.of_nat (length (Nodes cfg)) - 1) 3.

(** Modelled from the spec: [someCorrectQuorum(cfg) = f+1]; the function is
    called by [clientWindow.ack] and [clientWindow.allocate] but is not
    defined in the sources under study. *)
Definition someCorrectQuorum (cfg : NetworkState_Config) : Z := faults cfg + 1.

(** Modelled from the spec: [intersectionQuorum(cfg) = 2f+1]; the function
    is called by [clientWindow.ack] and [clientWindow.allocate] but is not
    defined in the sources under study. *)
Definition intersectionQuorum (cfg : NetworkState_Config) : Z := 2 * faults cfg + 1.

(** ** Client requests, request numbers and windows *)

Record clientRequest := {
  digest : string;
  data : option Request;
  agreements : gset Z;
}.

Record clientReqNo := {
  clientID : Z;
  reqNo : Z;
  digests : gmap string clientRequest;
  committed : option Z;
  strongRequest : option string;
}.

Record clientWaiter := {
  waiter_lowWatermark : Z;
  waiter_highWatermark : Z;
}.

Record clientWindow := {
  cw_clientID : Z;
  nextReadyMark : Z;
  lowWatermark : Z;
  highWatermark : Z;
  reqNoList : list nat;
  reqNoMap : gmap Z nat;
  cw_clientWaiter : clientWaiter;
  cw_networkConfig : NetworkState_Config;
}.

(** The heap of [clientReqNo] objects: location [p] holds [h !! p]. *)
Abbreviation crnHeap := (list clientReqNo) (only parsing).

Definition deref {A} (h : list A) (p : nat) : result A :=
  match h !! p with
  | Some x => Ok x
  | None => Panic "invalid memory address or nil pointer dereference"
  end.

(** Following a [*clientRequest], given as the key of its digest. *)
Definition request_deref (crn : clientReqNo) (k : string) : result clientRequest :=
  match digests crn !! k with
  | Some cr => Ok cr
  | None => Panic "invalid memory address or nil pointer dereference"
  end.

(** The request a [strongRequest] pointer points to. *)
Definition strongRequest_target (crn : clientReqNo) : option clientRequest :=
  k ← strongRequest crn; digests crn !! k.

Definition set_strongRequest (crn : clientReqNo) (s : option string) : clientReqNo :=
  {| clientID := clientID crn; reqNo := reqNo crn; digests := digests crn;
     committed := committed crn; strongRequest := s |}.

Definition set_digests (crn : clientReqNo) (d : gmap string clientRequest) : clientReqNo :=
  {| clientID := clientID crn; reqNo := reqNo crn; digests := d;
     committed := committed crn; strongRequest := strongRequest crn |}.

Definition set_committed (crn : clientReqNo) (c : option Z) : clientReqNo :=
  {| clientID := clientID crn; reqNo := reqNo crn; digests := digests crn;
     committed := c; strongRequest := strongRequest crn |}.

Definition set_nextReadyMark (cw : clientWindow) (n : Z) : clientWindow :=
  {| cw_clientID := cw_clientID cw; nextReadyMark := n;
     lowWatermark := lowWatermark cw; highWatermark := highWatermark cw;
     reqNoList := reqNoList cw; reqNoMap := reqNoMap cw;
     cw_clientWaiter := cw_clientWaiter cw;
     cw_networkConfig := cw_networkConfig cw |}.

(** [&clientReqNo{clientID: ..., reqNo: ..., digests: map[..]..{}}] *)
Definition freshClientReqNo (cid rn : Z) : clientReqNo :=
  {| clientID := cid; reqNo := rn; digests := ∅; committed := None;
     strongRequest := None |}.

(** [el := cw.reqNoList.PushBack(&clientReqNo{...}); cw.reqNoMap[reqNo] = el],
    the body shared by the loops of [newClientWindow] and
    [clientWindow.garbageCollect]. *)
Definition pushReqNo (st : clientWindow * crnHeap) (rn : Z) : clientWindow * crnHeap :=
  let '(cw, h) := st in
  let p := length h in
  ({| cw_clientID := cw_clientID cw; nextReadyMark := nextReadyMark cw;
      lowWatermark := lowWatermark cw; highWatermark := highWatermark cw;
      reqNoList := reqNoList cw ++ [p]; reqNoMap := <[rn := p]> (reqNoMap cw);
      cw_clientWaiter := cw_clientWaiter cw;
      cw_networkConfig := cw_networkConfig cw |},
   h ++ [freshClientReqNo (cw_clientID cw) rn]).

(** [newClientWindow]: the loop [for i := low; i <= high; i++] never leaves
    when [high] is the largest [uint64]. *)
Definition newClientWindow (cid low high : Z) (cfg : NetworkState_Config)
    (h : crnHeap) : result (clientWindow * crnHeap) :=
  let cw := {| cw_clientID := cid; nextReadyMark := low;
               lowWatermark := low; highWatermark := high;
               reqNoList := []; reqNoMap := ∅;
               cw_clientWaiter := {| waiter_lowWatermark := low;
                                     waiter_highWatermark := high |};
               cw_networkConfig := cfg |} in
  if decide (high = MaxUint64) then Diverge
  else Ok (foldl pushReqNo (cw, h) (seqZ low (high - low + 1))).

(** The test [c == nil || *c > seqNo] of both garbage collections. *)
Definition uncommittedAfter (c : option Z) (seqNo : Z) : bool :=
  match c with
  | None => true
  | Some v => bool_decide (v > seqNo)
  end.

(** The first loop of [clientWindow.garbageCollect], over the elements
    [els] still in the list; it returns what is left of the list, the ready
    mark, the map and the number of removed elements. *)
Fixpoint gc_front (maxSeqNo : Z) (h : crnHeap) (els : list nat)
    (next : Z) (m : gmap Z nat) (removed : Z)
    : result (list nat * Z * gmap Z nat * Z) :=
  match els with
  | [] => Ok ([], next, m, removed)
  | p :: rest =>
    crn ← deref h p;
    if uncommittedAfter (committed crn) maxSeqNo then Ok (els, next, m, removed)
    else
      gc_front maxSeqNo h rest
        (if decide (reqNo crn >= next) then reqNo crn else next)
        (delete (reqNo crn) m)
        (wrap64 (removed + 1))
  end.

Definition cw_garbageCollect (maxSeqNo : Z) (cw : clientWindow) (h : crnHeap)
    : result (clientWindow * crnHeap) :=
  '(els, next, m, removed) ←
    gc_front maxSeqNo h (reqNoList cw) (nextReadyMark cw) (reqNoMap cw) 0;
  if decide (removed = MaxUint64) then Diverge
  else
    let cw1 := {| cw_clientID := cw_clientID cw; nextReadyMark := next;
                  lowWatermark := lowWatermark cw;
                  highWatermark := highWatermark cw;
                  reqNoList := els; reqNoMap := m;
                  cw_clientWaiter := cw_clientWaiter cw;
                  cw_networkConfig := cw_networkConfig cw |} in
    let '(cw2, h2) :=
      foldl (λ st i, pushReqNo st (wrap64 (i + highWatermark cw)))
            (cw1, h) (seqZ 1 removed) in
    let low' := wrap64 (lowWatermark cw2 + removed) in
    let high' := wrap64 (highWatermark cw2 + removed) in
    Ok ({| cw_clientID := cw_clientID cw2; nextReadyMark := nextReadyMark cw2;
           lowWatermark := low'; highWatermark := high';
           reqNoList := reqNoList cw2; reqNoMap := reqNoMap cw2;
           cw_clientWaiter := {| waiter_lowWatermark := low';
                                 waiter_highWatermark := high' |};
           cw_networkConfig := cw_networkConfig cw2 |}, h2).

(** The lookup-or-create of [crn.digests[string(digest)]] shared by [ack]
    and [allocate]. *)
Definition getOrCreateRequest (crn : clientReqNo) (dg : string) : clientRequest :=
  match digests crn !! dg with
  | Some cr => cr
  | None => {| digest := dg; data := None; agreements := ∅ |}
  end.

(** The three results of [clientWindow.ack]: the [*clientRequest] (as the
    key of its digest), the [*clientReqNo] and the newly correct request. *)
Record ackResult := {
  ack_cr : string;
  ack_crn : nat;
  ack_newlyCorrectReq : option Request;
}.

Definition cw_ack (source reqno : Z) (dg : string) (cw : clientWindow)
    (h : crnHeap) : result (ackResult * crnHeap) :=
  if decide (reqno > highWatermark cw) then Panic "unexpected: %d > %d"
  else if decide (reqno < lowWatermark cw) then Panic "unexpected: %d < %d"
  else
    match reqNoMap cw !! reqno with
    | None => Panic "dev sanity check"
    | Some p =>
      crn ← deref h p;
      let cr := getOrCreateRequest crn dg in
      let cr' := {| digest := digest cr; data := data cr;
                    agreements := {[source]} ∪ agreements cr |} in
      let crn1 := set_digests crn (<[dg := cr']> (digests crn)) in
      let newlyCorrectReq :=
        if decide (Z.of_nat (size (agreements cr'))
                   = someCorrectQuorum (cw_networkConfig cw))
        then data cr' else None in
      let crn2 :=
        if decide (Z.of_nat (size (agreements cr'))
                   = intersectionQuorum (cw_networkConfig cw))
        then set_strongRequest crn1 (Some dg) else crn1 in
      Ok ({| ack_cr := dg; ack_crn := p;
             ack_newlyCorrectReq := newlyCorrectReq |}, <[p := crn2]> h)
    end.

Definition cw_allocate (requestData : Request) (dg : string) (cw : clientWindow)
    (h : crnHeap) : result (nat * option Request * crnHeap) :=
  let reqno := req_ReqNo requestData in
  if decide (reqno > highWatermark cw) then Panic "unexpected: %d > %d"
  else if decide (reqno < lowWatermark cw) then Panic "unexpected: %d < %d"
  else
    match reqNoMap cw !! reqno with
    | None => Panic "dev sanity check"
    | Some p =>
      crn ← deref h p;
      let cr := getOrCreateRequest crn dg in
      let cr' := {| digest := digest cr; data := Some requestData;
                    agreements := agreements cr |} in
      let crn1 := set_digests crn (<[dg := cr']> (digests crn)) in
      let newlyCorrectReq :=
        if decide (Z.of_nat (size (agreements cr'))
                   >= someCorrectQuorum (cw_networkConfig cw))
        then Some requestData else None in
      let crn2 :=
        if decide (Z.of_nat (size (agreements cr'))
                   = intersectionQuorum (cw_networkConfig cw))
        then set_strongRequest crn1 (Some dg) else crn1 in
      Ok (p, newlyCorrectReq, <[p := crn2]> h)
    end.

Definition cw_inWatermarks (reqno : Z) (cw : clientWindow) : bool :=
  bool_decide (reqno <= highWatermark cw) && bool_decide (reqno >= lowWatermark cw).

(** [clientWindow.request] returns the pointer stored in the map; a missing
    key gives a nil [*list.Element], whose [.Value] panics. *)
Definition cw_request (reqno : Z) (cw : clientWindow) : result nat :=
  if decide (reqno > highWatermark cw) then Panic "unexpected: %d > %d"
  else if decide (reqno < lowWatermark cw) then Panic "unexpected: %d < %d"
  else
    match reqNoMap cw !! reqno with
    | None => Panic "invalid memory address or nil pointer dereference"
    | Some p => Ok p
    end.

(** ** The ready list, actions and the set of client windows *)

Inductive applyable := past | current | future.

Record readyEntry := {
  re_next : option nat;
  re_clientReqNo : nat;
}.

Record Send := {
  Targets : list Z;
  send_Msg : Msg;
}.

Inductive HashData :=
| uint64ToBytes (x : Z)
| rawBytes (b : string).

Record HashResult_VerifyRequest := {
  vr_Source : Z;
  vr_Request : Request;
  vr_ExpectedDigest : string;
}.

Record HashRequest := {
  hash_Data : list HashData;
  hash_Origin : HashResult_VerifyRequest;
}.

Record Actions := {
  act_Send : list Send;
  act_Hash : list HashRequest;
}.

(** [&Actions{}] *)
Definition emptyActions : Actions := {| act_Send := []; act_Hash := [] |}.

(** Modelled from the spec: the helper [Actions.send(targets, msg)] is not in
    the sources under study.  Following the spec's targeted send
    ([Unicast[(target, Msg)]]) and the [Send{Targets, Msg}] entries that
    [transmitSerially] reads, it appends one entry and returns the actions. *)
Definition send (a : Actions) (targets : list Z) (msg : Msg) : Actions :=
  {| act_Send := act_Send a ++ [{| Targets := targets; send_Msg := msg |}];
     act_Hash := act_Hash a |}.

Record clientWindows := {
  windows : gmap Z clientWindow;
  clients : list Z;
  networkConfig : option NetworkState_Config;
  msgBuffers : gmap Z (list Msg);
  readyHead : nat;
  readyTail : nat;
  correctList : list ForwardRequest;
  myConfig : StateEvent_InitialParameters;
  (* the objects the pointers above and below refer to *)
  crns : list clientReqNo;
  readyEntries : list readyEntry;
}.

Definition set_windows (st : clientWindows) (w : gmap Z clientWindow) : clientWindows :=
  {| windows := w; clients := clients st; networkConfig := networkConfig st;
     msgBuffers := msgBuffers st; readyHead := readyHead st;
     readyTail := readyTail st; correctList := correctList st;
     myConfig := myConfig st; crns := crns st;
     readyEntries := readyEntries st |}.

Definition set_crns (st : clientWindows) (h : list clientReqNo) : clientWindows :=
  {| windows := windows st; clients := clients st;
     networkConfig := networkConfig st; msgBuffers := msgBuffers st;
     readyHead := readyHead st; readyTail := readyTail st;
     correctList := correctList st; myConfig := myConfig st; crns := h;
     readyEntries := readyEntries st |}.

Definition set_ready (st : clientWindows) (tl : nat) (es : list readyEntry) : clientWindows :=
  {| windows := windows st; clients := clients st;
     networkConfig := networkConfig st; msgBuffers := msgBuffers st;
     readyHead := readyHead st; readyTail := tl;
     correctList := correctList st; myConfig := myConfig st; crns := crns st;
     readyEntries := es |}.

Definition set_correctList (st : clientWindows) (l : list ForwardRequest) : clientWindows :=
  {| windows := windows st; clients := clients st;
     networkConfig := networkConfig st; msgBuffers := msgBuffers st;
     readyHead := readyHead st; readyTail := readyTail st;
     correctList := l; myConfig := myConfig st; crns := crns st;
     readyEntries := readyEntries st |}.

Definition set_msgBuffers (st : clientWindows) (b : gmap Z (list Msg)) : clientWindows :=
  {| windows := windows st; clients := clients st;
     networkConfig := networkConfig st; msgBuffers := b;
     readyHead := readyHead st; readyTail := readyTail st;
     correctList := correctList st; myConfig := myConfig st; crns := crns st;
     readyEntries := readyEntries st |}.

Definition set_clients (st : clientWindows) (w : gmap Z clientWindow) (cl : list Z) : clientWindows :=
  {| windows := w; clients := cl; networkConfig := networkConfig st;
     msgBuffers := msgBuffers st; readyHead := readyHead st;
     readyTail := readyTail st; correctList := correctList st;
     myConfig := myConfig st; crns := crns st;
     readyEntries := readyEntries st |}.

Definition set_networkConfig (st : clientWindows) (c : option NetworkState_Config) : clientWindows :=
  {| windows := windows st; clients := clients st; networkConfig := c;
     msgBuffers := msgBuffers st; readyHead := readyHead st;
     readyTail := readyTail st; correctList := correctList st;
     myConfig := myConfig st; crns := crns st;
     readyEntries := readyEntries st |}.

(** A [*clientWindow] is the key under which [cws.windows] holds the
    window; a key that is not in the map is the nil pointer. *)
Definition window_deref (st : clientWindows) (cid : Z) : result clientWindow :=
  match windows st !! cid with
  | Some cw => Ok cw
  | None => Panic "invalid memory address or nil pointer dereference"
  end.

Definition cws_clientWindow (st : clientWindows) (cid : Z) : option clientWindow :=
  windows st !! cid.

(** The watermark test shared by the [RequestAck] and [ForwardRequest]
    cases of [filter]. *)
Definition classify (st : clientWindows) (cid reqno : Z) : applyable :=
  match cws_clientWindow st cid with
  | None => future
  | Some cw =>
    if decide (lowWatermark cw > reqno) then past
    else if decide (highWatermark cw < reqno) then future
    else current
  end.

Definition cws_filter (st : clientWindows) (msg : Msg) : result applyable :=
  match msg with
  | Msg_RequestAck ack => Ok (classify st (ack_ClientId ack) (ack_ReqNo ack))
  | Msg_FetchRequest _ => Ok current
  | Msg_ForwardRequest fwd =>
    Ok (classify st (req_ClientId (fwd_Request fwd)) (req_ReqNo (fwd_Request fwd)))
  | Msg_Other _ =>
    Panic "unexpected bad client window message type %T, this indicates a bug"
  end.

(** [cws.readyTail.next = newReadyEntry; cws.readyTail = newReadyEntry] *)
Definition appendReady (p : nat) (st : clientWindows) : result clientWindows :=
  tl ← deref (readyEntries st) (readyTail st);
  let q := length (readyEntries st) in
  let es := <[readyTail st := {| re_next := Some q;
                                 re_clientReqNo := re_clientReqNo tl |}]>
              (readyEntries st) in
  Ok (set_ready st q (es ++ [{| re_next := None; re_clientReqNo := p |}])).

(** The loop of [advanceReady] from [i] on. *)
Fixpoint advanceReady_loop (fuel : nat) (i : Z) (cw : clientWindow)
    (st : clientWindows) : result (clientWindow * clientWindows) :=
  match fuel with
  | O => Diverge
  | S fuel' =>
    if decide (i <= highWatermark cw) then
      match reqNoMap cw !! i with
      | None => Panic "dev sanity test: no mapping from reqNo %d"
      | Some p =>
        crn ← deref (crns st) p;
        match strongRequest crn with
        | None => Ok (cw, st)
        | Some k =>
          cr ← request_deref crn k;
          match data cr with
          | None => Ok (cw, st)
          | Some _ =>
            st' ← appendReady p st;
            advanceReady_loop fuel' (wrap64 (i + 1))
              (set_nextReadyMark cw (wrap64 (i + 1))) st'
          end
        end
      end
    else Ok (cw, st)
  end.

(** [advanceReady]: every iteration that goes on has found its [i] in
    [reqNoMap], and the first [2^64] values of [i] are distinct, so a map
    that fits in memory bounds the number of iterations by its size. *)
Definition cws_advanceReady (cid : Z) (st : clientWindows) : result clientWindows :=
  cw ← window_deref st cid;
  '(cw', st') ← advanceReady_loop (S (size (reqNoMap cw))) (nextReadyMark cw) cw st;
  Ok (set_windows st' (<[cid := cw']> (windows st'))).

Definition cws_checkReady (cid : Z) (p : nat) (st : clientWindows) : result clientWindows :=
  cw ← window_deref st cid;
  ocrn ← deref (crns st) p;
  if decide (reqNo ocrn ≠ nextReadyMark cw) then Ok st
  else
    match strongRequest ocrn with
    | None => Ok st
    | Some k =>
      cr ← request_deref ocrn k;
      match data cr with
      | None => Ok st
      | Some _ => cws_advanceReady cid st
      end
    end.

Definition pushCorrect (newlyCorrectReq : option Request) (dg : string)
    (st : clientWindows) : clientWindows :=
  match newlyCorrectReq with
  | Some r => set_correctList st
                (correctList st ++ [{| fwd_Request := r; fwd_Digest := dg |}])
  | None => st
  end.

Definition cws_ack (source : Z) (ack : RequestAck) (st : clientWindows)
    : result (string * clientWindows) :=
  match windows st !! ack_ClientId ack with
  | None => Panic "dev sanity test"
  | Some cw =>
    '(r, h) ← cw_ack source (ack_ReqNo ack) (ack_Digest ack) cw (crns st);
    let st1 := pushCorrect (ack_newlyCorrectReq r) (ack_Digest ack) (set_crns st h) in
    st2 ← cws_checkReady (ack_ClientId ack) (ack_crn r) st1;
    Ok (ack_cr r, st2)
  end.

Definition cws_allocate (requestData : Request) (dg : string) (st : clientWindows)
    : result clientWindows :=
  match windows st !! req_ClientId requestData with
  | None => Panic "dev sanity test"
  | Some cw =>
    '(p, newlyCorrectReq, h) ← cw_allocate requestData dg cw (crns st);
    let st1 := pushCorrect newlyCorrectReq dg (set_crns st h) in
    cws_checkReady (req_ClientId requestData) p st1
  end.

Definition cws_replyFetchRequest (source cid reqno : Z) (dg : string)
    (st : clientWindows) : result Actions :=
  match cws_clientWindow st cid with
  | None => Ok emptyActions
  | Some cw =>
    if negb (cw_inWatermarks reqno cw) then Ok emptyActions
    else
      p ← cw_request reqno cw;
      creq ← deref (crns st) p;
      match digests creq !! dg with
      | None => Ok emptyActions
      | Some d =>
        match data d with
        | None => Ok emptyActions
        | Some rq =>
          Ok (send emptyActions [source]
                (Msg_ForwardRequest {| fwd_Request := rq; fwd_Digest := dg |}))
        end
      end
  end.

Definition cws_applyForwardRequest (source : Z) (msg : ForwardRequest)
    (st : clientWindows) : result (Actions * clientWindows) :=
  match cws_clientWindow st (req_ClientId (fwd_Request msg)) with
  | None => Ok (emptyActions, st)
  | Some cw =>
    p ← cw_request (req_ReqNo (fwd_Request msg)) cw;
    cr ← deref (crns st) p;
    match digests cr !! fwd_Digest msg with
    | None => Ok (emptyActions, st)
    | Some req =>
      match data req with
      | Some _ => Ok (emptyActions, st)
      | None =>
        let req' := {| digest := digest req; data := data req;
                       agreements := {[source]} ∪ agreements req |} in
        let cr' := set_digests cr (<[fwd_Digest msg := req']> (digests cr)) in
        Ok ({| act_Send := [];
               act_Hash :=
                 [{| hash_Data :=
                       [uint64ToBytes (req_ClientId (fwd_Request msg));
                        uint64ToBytes (req_ReqNo (fwd_Request msg));
                        rawBytes (req_Data (fwd_Request msg))];
                     hash_Origin :=
                       {| vr_Source := source;
                          vr_Request := fwd_Request msg;
                          vr_ExpectedDigest := fwd_Digest msg |} |}] |},
            set_crns st (<[p := cr']> (crns st)))
      end
    end
  end.

Definition cws_applyMsg (source : Z) (msg : Msg) (st : clientWindows)
    : result (Actions * clientWindows) :=
  match msg with
  | Msg_RequestAck ack =>
    '(_, st') ← cws_ack source ack st; Ok (emptyActions, st')
  | Msg_FetchRequest m =>
    a ← cws_replyFetchRequest source (fetch_ClientId m) (fetch_ReqNo m)
          (fetch_Digest m) st;
    Ok (a, st)
  | Msg_ForwardRequest fwd =>
    if decide (source = param_Id (myConfig st)) then Ok (emptyActions, st)
    else cws_applyForwardRequest source fwd st
  | Msg_Other _ =>
    Panic "unexpected bad client window message type %T, this indicates a bug"
  end.

(** A [for ... range] loop whose body may panic. *)
Fixpoint foldM {A B} (f : A → B → result A) (a : A) (l : list B) : result A :=
  match l with
  | [] => Ok a
  | b :: l' => a' ← f a b; foldM f a' l'
  end.

(** The loop of [clientWindows.garbageCollect] over the ready list, with
    [el] the entry it stands on.  A removed entry is replaced by a copy of
    its successor, written into the [next] field of [el]. *)
Fixpoint gcReady_loop (fuel : nat) (seqNo : Z) (el : nat) (st : clientWindows)
    : result clientWindows :=
  match fuel with
  | O => Diverge
  | S fuel' =>
    e ← deref (readyEntries st) el;
    match re_next e with
    | None => Ok st
    | Some nx =>
      nextEl ← deref (readyEntries st) nx;
      crn ← deref (crns st) (re_clientReqNo nextEl);
      if uncommittedAfter (committed crn) seqNo
      then gcReady_loop fuel' seqNo nx st
      else
        match re_next nextEl with
        | None => Ok st
        | Some nn =>
          nnEl ← deref (readyEntries st) nn;
          let q := length (readyEntries st) in
          let es := <[el := {| re_next := Some q;
                               re_clientReqNo := re_clientReqNo e |}]>
                      (readyEntries st) in
          gcReady_loop fuel' seqNo el
            (set_ready st (readyTail st)
               (es ++ [{| re_next := re_next nnEl;
                          re_clientReqNo := re_clientReqNo nnEl |}]))
        end
    end
  end.

(** Modelled from the spec: the per-peer [msgBuffer] is not in the sources
    under study.  The spec has it store the messages classified [future];
    re-draining re-filters the buffer, [past] messages are discarded and a
    message that became [current] is handed out. *)
Fixpoint msgBuffer_next (flt : Msg → result applyable) (buf : list Msg)
    : result (option Msg * list Msg) :=
  match buf with
  | [] => Ok (None, [])
  | m :: rest =>
    a ← flt m;
    match a with
    | past => msgBuffer_next flt rest
    | current => Ok (Some m, rest)
    | future => '(r, rest') ← msgBuffer_next flt rest; Ok (r, m :: rest')
    end
  end.

(** Modelled from the spec: [msgBuffer.store] keeps a [future] message. *)
Definition msgBuffer_store (buf : list Msg) (msg : Msg) : list Msg := buf ++ [msg].

(** The inner [for] loop of [clientWindows.garbageCollect] for one node:
    every message handed out leaves the buffer, so the length of the buffer
    bounds the iterations. *)
Fixpoint drain_loop (fuel : nat) (nodeID : Z) (st : clientWindows)
    : result clientWindows :=
  match fuel with
  | O => Diverge
  | S fuel' =>
    match msgBuffers st !! nodeID with
    | None => Panic "invalid memory address or nil pointer dereference"
    | Some buf =>
      '(r, buf') ← msgBuffer_next (cws_filter st) buf;
      let st1 := set_msgBuffers st (<[nodeID := buf']> (msgBuffers st)) in
      match r with
      | None => Ok st1
      | Some msg =>
        '(_, st2) ← cws_applyMsg nodeID msg st1;
        drain_loop fuel' nodeID st2
      end
    end
  end.

Definition drainMsgBuffer (st : clientWindows) (nodeID : Z) : result clientWindows :=
  drain_loop (S (length (default [] (msgBuffers st !! nodeID)))) nodeID st.

Definition gcWindow (seqNo : Z) (st : clientWindows) (id : Z) : result clientWindows :=
  cw ← window_deref st id;
  '(cw', h) ← cw_garbageCollect seqNo cw (crns st);
  Ok (set_windows (set_crns st h) (<[id := cw']> (windows st))).

(** The first two loops of [clientWindows.garbageCollect]: the windows,
    then the ready list. *)
Definition gcReadyList (seqNo : Z) (st : clientWindows) : result clientWindows :=
  st1 ← foldM (gcWindow seqNo) st (clients st);
  gcReady_loop (S (length (readyEntries st1))) seqNo (readyHead st1) st1.

Definition cws_garbageCollect (seqNo : Z) (st : clientWindows) : result clientWindows :=
  st2 ← gcReadyList seqNo st;
  match networkConfig st2 with
  | None => Panic "invalid memory address or nil pointer dereference"
  | Some cfg => foldM drainMsgBuffer st2 (Nodes cfg)
  end.

(** [sort.Slice(cws.clients, less)] on [uint64] keys. *)
Fixpoint insertSorted (x : Z) (l : list Z) : list Z :=
  match l with
  | [] => [x]
  | y :: l' => if decide (x <= y) then x :: l else y :: insertSorted x l'
  end.

Definition sortClients (l : list Z) : list Z := foldr insertSorted [] l.

Definition cws_insert (cid : Z) (cw : clientWindow) (st : clientWindows) : clientWindows :=
  set_clients st (<[cid := cw]> (windows st)) (sortClients (clients st ++ [cid])).

Definition cws_step (source : Z) (msg : Msg) (st : clientWindows)
    : result (Actions * clientWindows) :=
  a ← cws_filter st msg;
  match a with
  | past => Ok (emptyActions, st)
  | future =>
    match msgBuffers st !! source with
    | None => Panic "invalid memory address or nil pointer dereference"
    | Some buf =>
      Ok (emptyActions,
          set_msgBuffers st (<[source := msgBuffer_store buf msg]> (msgBuffers st)))
    end
  | current => cws_applyMsg source msg st
  end.

(** ** Replay of the persisted log: [newClientWindows] *)

Definition clientWindowWidth : Z := 100.

(** [lowWatermark := client.BucketLowWatermarks[0]] and the loop taking the
    minimum. *)
Definition minBucketLowWatermark (blws : list Z) : result Z :=
  match blws with
  | [] => Panic "index out of range [0] with length 0"
  | b :: _ => Ok (foldl (λ low blw, if decide (blw < low) then blw else low) b blws)
  end.

Definition replayClient (cfg : NetworkState_Config) (st : clientWindows)
    (client : NetworkState_Client) : result clientWindows :=
  low ← minBucketLowWatermark (BucketLowWatermarks client);
  '(cw, h) ← newClientWindow (client_Id client) low
                (wrap64 (low + clientWindowWidth)) cfg (crns st);
  Ok (cws_insert (client_Id client) cw (set_crns st h)).

(** The body of the loop over a batch in the [PEntry] case:
    [cws.windows[id].allocate(...)] on the window found in the map (nil when
    the client is unknown), then
    [clientReqNo.strongRequest = clientReqNo.digests[string(request.Digest)]]. *)
Definition replayRequest (st : clientWindows) (request : ForwardRequest)
    : result clientWindows :=
  cw ← window_deref st (req_ClientId (fwd_Request request));
  '(p, _, h) ← cw_allocate (fwd_Request request) (fwd_Digest request) cw (crns st);
  crn ← deref h p;
  let target := digests crn !! fwd_Digest request ≫= λ _, Some (fwd_Digest request) in
  Ok (set_crns st (<[p := set_strongRequest crn target]> h)).

Definition replayEntry (acc : clientWindows * gmap string (list ForwardRequest))
    (entry : Persistent) : result (clientWindows * gmap string (list ForwardRequest)) :=
  let '(st, batches) := acc in
  match entry with
  | Persistent_CEntry c =>
    match networkConfig st with
    | None =>
      let cfg := ns_Config (ce_NetworkState c) in
      st' ← foldM (replayClient cfg) (set_networkConfig st (Some cfg))
                   (ns_Clients (ce_NetworkState c));
      Ok (st', batches)
    | Some _ => Ok (st, batches)
    end
  | Persistent_QEntry q => Ok (st, <[qe_Digest q := qe_Requests q]> batches)
  | Persistent_PEntry p =>
    match batches !! pe_Digest p with
    | None => Panic "dev sanity test"
    | Some batch => st' ← foldM replayRequest st batch; Ok (st', batches)
    end
  | Persistent_Other => Ok (st, batches)
  end.

(** The anchor of the ready list: [committed] is the largest sequence
    number, the other fields are Go's zero values. *)
Definition readyAnchor : clientReqNo :=
  {| clientID := 0; reqNo := 0; digests := ∅; committed := Some MaxUint64;
     strongRequest := None |}.

Definition initialClientWindows (cfg : StateEvent_InitialParameters) : clientWindows :=
  {| windows := ∅; clients := []; networkConfig := None; msgBuffers := ∅;
     readyHead := 0%nat; readyTail := 0%nat; correctList := [];
     myConfig := cfg; crns := [readyAnchor];
     readyEntries := [{| re_next := None; re_clientReqNo := 0%nat |}] |}.

Definition advanceAll (st : clientWindows) : result clientWindows :=
  foldM (λ st cid, cws_advanceReady cid st) st (clients st).

Definition replayLog (persisted : list Persistent) (cfg : StateEvent_InitialParameters)
    : result (clientWindows * gmap string (list ForwardRequest)) :=
  foldM replayEntry (initialClientWindows cfg, ∅) persisted.

Definition newClientWindows (persisted : list Persistent)
    (cfg : StateEvent_InitialParameters) : result clientWindows :=
  '(st1, _) ← replayLog persisted cfg;
  st2 ← advanceAll st1;
  match networkConfig st2 with
  | None => Panic "invalid memory address or nil pointer dereference"
  | Some nc =>
    Ok (set_msgBuffers st2 (foldl (λ b id, <[id := []]> b) (msgBuffers st2) (Nodes nc)))
  end.

(** ** Reading the ready list *)

(** The [clientReqNo] pointers of the entries reached from [p] by [next];
    [None] when the chain leaves the heap or is longer than [fuel]. *)
Fixpoint chainFrom (fuel : nat) (es : list readyEntry) (p : nat) : option (list nat) :=
  match fuel with
  | O => None
  | S fuel' =>
    match es !! p with
    | None => None
    | Some e =>
      match re_next e with
      | None => Some [re_clientReqNo e]
      | Some q => cons (re_clientReqNo e) <$> chainFrom fuel' es q
      end
    end
  end.

Definition readyList (st : clientWindows) : option (list nat) :=
  chainFrom (length (readyEntries st)) (readyEntries st) (readyHead st).

(** ** The serial processor ([processor.go]) *)

Module Processor.

(** The processor's view of the protocol buffers: a forwarded request
    carries the acknowledgement and the payload; other messages are
    opaque to it. *)
Record ForwardRequest := {
  fr_RequestAck : RequestAck;
  fr_RequestData : string;
}.

Inductive Msg :=
| Msg_ForwardRequest (fr : ForwardRequest)
| Msg_Protocol (payload : string).

Record Send := {
  Targets : list Z;
  send_Msg : Msg;
}.

Record Forward := {
  fw_RequestAck : RequestAck;
  fw_Targets : list Z;
}.

Record HashRequest := {
  Data : list string;
}.

Record Commit := {
  commit_QEntry : QEntry;
  Checkpoint : bool;
}.

Record Actions := {
  StoreRequests : list ForwardRequest;
  Persist : list Persistent;
  Sends : list Send;
  ForwardRequests : list Forward;
  Hash : list HashRequest;
  Commits : list Commit;
}.

Record HashResult := {
  hr_Request : HashRequest;
  hr_Digest : string;
}.

Record CheckpointResult := {
  cr_Commit : Commit;
  cr_Value : string;
}.

Record ActionResults := {
  Digests : list HashResult;
  Checkpoints : list CheckpointResult;
}.

(** The calls the processor makes on its collaborators, in order. *)
Inductive Event :=
| RequestStore_Store (ack : RequestAck) (data : string)
| RequestStore_Sync
| RequestStore_Get (ack : RequestAck)
| WAL_Append (entry : Persistent)
| WAL_Sync
| Link_Send (dest : Z) (msg : Msg)
| Node_Step (source : Z) (msg : Msg)
| Log_Apply (q : QEntry)
| Log_Snap.

(** The collaborators are interfaces: what a call returns is a function
    of the calls made so far.  An error is [Some] of its text, Go's [nil]
    error is [None]. *)
Record Processor := {
  Store_returns : list Event → RequestAck → string → option string;
  RequestStore_Sync_returns : list Event → option string;
  Get_returns : list Event → RequestAck → string * option string;
  Append_returns : list Event → Persistent → option string;
  WAL_Sync_returns : list Event → option string;
  Snap_returns : list Event → string;
  Hasher_sum : list string → string;
  Node_Config_ID : Z;
}.

(** A computation that calls collaborators: from the calls made so far
    to the calls made when it ends, and its outcome. *)
Definition run (A : Type) : Type := list Event → list Event * result A.

Definition ret {A} (a : A) : run A := λ tr, (tr, Ok a).

Definition bind {A B} (m : run A) (f : A → run B) : run B := λ tr,
  match m tr with
  | (tr', Ok a) => f a tr'
  | (tr', Panic msg) => (tr', Panic msg)
  | (tr', Diverge) => (tr', Diverge)
  end.

Definition panic {A} (msg : string) : run A := λ tr, (tr, Panic msg).

Definition call {A} (e : Event) (returns : list Event → A) : run A :=
  λ tr, (tr ++ [e], Ok (returns tr)).

Notation "x <- m ;; k" := (bind m (λ x, k))
  (at level 100, m at next level, right associativity).
Notation "m ;;; k" := (bind m (λ _, k))
  (at level 100, right associativity).

(** [for _, x := range l { body }] *)
Fixpoint forEach {A} (l : list A) (body : A → run unit) : run unit :=
  match l with
  | [] => ret tt
  | x :: l' => body x ;;; forEach l' body
  end.

Definition persistSerially (sp : Processor) (actions : Actions) : run unit :=
  forEach (StoreRequests actions) (λ r,
    _ <- call (RequestStore_Store (fr_RequestAck r) (fr_RequestData r))
              (λ tr, Store_returns sp tr (fr_RequestAck r) (fr_RequestData r)) ;;
    ret tt) ;;;
  err <- call RequestStore_Sync (RequestStore_Sync_returns sp) ;;
  match err with
  | Some _ => panic "could not sync request store, unsafe to continue: %s"
  | None =>
    forEach (Persist actions) (λ p,
      err <- call (WAL_Append p) (λ tr, Append_returns sp tr p) ;;
      match err with
      | Some _ => panic "could not persist entry, not safe to continue: %s"
      | None => ret tt
      end) ;;;
    err <- call WAL_Sync (WAL_Sync_returns sp) ;;
    match err with
    | Some _ => panic "could not sync WAL, not safe to continue: %s"
    | None => ret tt
    end
  end.

(** The inner loop over the targets of a message. *)
Definition transmit (sp : Processor) (targets : list Z) (msg : Msg) : run unit :=
  forEach targets (λ replica,
    if decide (replica = Node_Config_ID sp)
    then call (Node_Step replica msg) (λ _, tt)
    else call (Link_Send replica msg) (λ _, tt)).

Definition transmitSerially (sp : Processor) (actions : Actions) : run unit :=
  forEach (Sends actions) (λ s, transmit sp (Targets s) (send_Msg s)) ;;;
  forEach (ForwardRequests actions) (λ r,
    got <- call (RequestStore_Get (fw_RequestAck r))
                (λ tr, Get_returns sp tr (fw_RequestAck r)) ;;
    match got.2 with
    | Some _ => panic "could not store request, unsafe to continue: %s"
    | None =>
      transmit sp (fw_Targets r)
        (Msg_ForwardRequest {| fr_RequestAck := fw_RequestAck r;
                               fr_RequestData := got.1 |})
    end).

(** The loop over the commits, accumulating the checkpoint results. *)
Fixpoint applyCommits (sp : Processor) (commits : list Commit)
    (acc : list CheckpointResult) : run (list CheckpointResult) :=
  match commits with
  | [] => ret acc
  | commit :: rest =>
    _ <- call (Log_Apply (commit_QEntry commit)) (λ _, tt) ;;
    if Checkpoint commit then
      value <- call Log_Snap (Snap_returns sp) ;;
      applyCommits sp rest (acc ++ [{| cr_Commit := commit; cr_Value := value |}])
    else applyCommits sp rest acc
  end.

Definition applySerially (sp : Processor) (actions : Actions) : run ActionResults :=
  let digests :=
    map (λ req, {| hr_Request := req; hr_Digest := Hasher_sum sp (Data req) |})
        (Hash actions) in
  checkpoints <- applyCommits sp (Commits actions) [] ;;
  ret {| Digests := digests; Checkpoints := checkpoints |}.

Definition ProcessSerially (actions : Actions) (sp : Processor) : run ActionResults :=
  persistSerially sp actions ;;;
  transmitSerially sp actions ;;;
  applySerially sp actions.

(** The kinds of calls the ordering claims speak about. *)
Definition isPersistence (e : Event) : bool :=
  match e with
  | RequestStore_Store _ _ | RequestStore_Sync | WAL_Append _ | WAL_Sync => true
  | _ => false
  end.

Definition isTransmission (e : Event) : bool :=
  match e with
  | Link_Send _ _ | Node_Step _ _ => true
  | _ => false
  end.

Definition isCommitApplication (e : Event) : bool :=
  match e with
  | Log_Apply _ | Log_Snap => true
  | _ => false
  end.

(** The calls a complete persistence phase makes. *)
Definition persistenceCalls (actions : Actions) : list Event :=
  map (λ r, RequestStore_Store (fr_RequestAck r) (fr_RequestData r))
      (StoreRequests actions)
  ++ [RequestStore_Sync]
  ++ map WAL_Append (Persist actions)
  ++ [WAL_Sync].

End Processor.

(** ** Statements about the message filter *)

(** What it means for the outcome [r] of the filter to follow the
    watermarks of the window of client [cid] at request number [reqno]. *)
Definition classifiedByWatermarks (st : clientWindows) (cid reqno : Z)
    (r : result applyable) : Prop :=
  (cws_clientWindow st cid = None → r = Ok future) ∧
  (∀ cw, cws_clientWindow st cid = Some cw →
     (reqno < lowWatermark cw → r = Ok past) ∧
     (lowWatermark cw <= reqno → highWatermark cw < reqno → r = Ok future) ∧
     (lowWatermark cw <= reqno <= highWatermark cw → r = Ok current)).

(** ** Example inputs *)

Definition exampleConfig : NetworkState_Config :=
  {| Nodes := [0; 1; 2; 3]; NumberOfBuckets := 1; CheckpointInterval := 5;
     MaxEpochLength := 10 |}.

Definition exampleParams : StateEvent_InitialParameters := {| param_Id := 0 |}.

Definition exampleFetch : FetchRequest :=
  {| fetch_ClientId := 5; fetch_ReqNo := 1; fetch_Digest := "d" |}.

(** A request store whose [Store] always fails while every other call
    succeeds. *)
Definition failingStore : Processor.Processor :=
  {| Processor.Store_returns := λ _ _ _, Some "disk full"%string;
     Processor.RequestStore_Sync_returns := λ _, None;
     Processor.Get_returns := λ _ _, (""%string, None);
     Processor.Append_returns := λ _ _, None;
     Processor.WAL_Sync_returns := λ _, None;
     Processor.Snap_returns := λ _, ""%string;
     Processor.Hasher_sum := λ _, ""%string;
     Processor.Node_Config_ID := 0 |}.

Definition exampleAck : RequestAck :=
  {| ack_ClientId := 7; ack_ReqNo := 0; ack_Digest := "d" |}.

Definition oneStoreRequest : Processor.Actions :=
  {| Processor.StoreRequests :=
       [{| Processor.fr_RequestAck := exampleAck;
           Processor.fr_RequestData := "abc" |}];
     Processor.Persist := [];
     Processor.Sends :=
       [{| Processor.Targets := [1];
           Processor.send_Msg := Processor.Msg_Protocol "preprepare" |}];
     Processor.ForwardRequests := [];
     Processor.Hash := [];
     Processor.Commits := [] |}.

(** ** Statements about the calls of the serial processor *)

(** The computation [m] only adds calls that satisfy [P] to the calls made
    before it. *)
Definition emits {A} (P : Processor.Event → Prop) (m : Processor.run A) : Prop :=
  ∀ tr, ∃ t r, m tr = (tr ++ t, r) ∧ Forall P t.

Definition transmissionPhaseCall (e : Processor.Event) : Prop :=
  Processor.isPersistence e = false ∧ Processor.isCommitApplication e = false.

(** ** Statements about acknowledgements and fetches *)

(** The agreement set recorded in heap [h] at location [p] for digest
    [dg]; empty when the digest is not recorded. *)
Definition agreementsOf (h : crnHeap) (p : nat) (dg : string) : gset Z :=
  match h !! p with
  | Some crn =>
    match digests crn !! dg with
    | Some cr => agreements cr
    | None => ∅
    end
  | None => ∅
  end.

(** The request payload recorded in heap [h] at [p] for digest [dg]. *)
Definition dataOf (h : crnHeap) (p : nat) (dg : string) : option Request :=
  crn ← h !! p; cr ← digests crn !! dg; data cr.

(** The words of the claim on [ack]: a set has just reached [q] members
    when it has [q] members after the call and had fewer before it. *)
Definition justReached (before after : gset Z) (q : Z) : Prop :=
  Z.of_nat (size after) = q ∧ Z.of_nat (size before) < q.

(** Client [cid] has a window, [reqno] is within its watermarks, digest
    [dg] is recorded for it and its payload [rq] is known. *)
Definition knownRequest (st : clientWindows) (cid reqno : Z) (dg : string)
    (rq : Request) : Prop :=
  ∃ cw p crn cr,
    cws_clientWindow st cid = Some cw
    ∧ lowWatermark cw <= reqno <= highWatermark cw
    ∧ reqNoMap cw !! reqno = Some p
    ∧ crns st !! p = Some crn
    ∧ digests crn !! dg = Some cr
    ∧ data cr = Some rq.

(** The window of [cid], when there is one, maps [reqno] to a live
    [clientReqNo] whenever [reqno] is within its watermarks. *)
Definition windowCovers (st : clientWindows) (cid reqno : Z) : Prop :=
  ∀ cw, cws_clientWindow st cid = Some cw →
    lowWatermark cw <= reqno <= highWatermark cw →
    ∃ p crn, reqNoMap cw !! reqno = Some p ∧ crns st !! p = Some crn.

Definition from_Ok {A} (d : A) (r : result A) : A :=
  match r with
  | Ok a => a
  | _ => d
  end.

Definition exampleRequest : Request :=
  {| req_ClientId := 7; req_ReqNo := 0; req_Data := "abc" |}.

(** The window of client 7 over the request numbers 0, 1, 2. *)
Definition exampleWindow : result (clientWindow * crnHeap) :=
  newClientWindow 7 0 2 exampleConfig [].

(** The payload of request 0 is known and nodes 1 and 2 have acknowledged
    its digest: with four nodes, [f+1 = 2] agreements. *)
Definition ackedByTwo : result (clientWindow * crnHeap) :=
  '(cw, h0) ← exampleWindow;
  '(_, _, h1) ← cw_allocate exampleRequest "d" cw h0;
  '(_, h2) ← cw_ack 1 0 "d" cw h1;
  '(_, h3) ← cw_ack 2 0 "d" cw h2;
  Ok (cw, h3).

(** The state [ackedByTwo] written out. *)
Definition ackedByTwoWindow : clientWindow :=
  {| cw_clientID := 7; nextReadyMark := 0; lowWatermark := 0; highWatermark := 2;
     reqNoList := [0; 1; 2]%nat;
     reqNoMap := <[2 := 2%nat]> (<[1 := 1%nat]> (<[0 := 0%nat]> ∅));
     cw_clientWaiter := {| waiter_lowWatermark := 0; waiter_highWatermark := 2 |};
     cw_networkConfig := exampleConfig |}.

Definition ackedByTwoReqNo : clientReqNo :=
  {| clientID := 7; reqNo := 0;
     digests := <["d"%string := {| digest := "d"; data := Some exampleRequest;
                                   agreements := {[2]} ∪ ({[1]} ∪ ∅) |}]> ∅;
     committed := None; strongRequest := None |}.

Definition ackedByTwoHeap : crnHeap :=
  [ackedByTwoReqNo; freshClientReqNo 7 1; freshClientReqNo 7 2].

(** ** The window invariant *)

(** Request number [r] is mapped to location [p], which holds the
    [clientReqNo] of [r]. *)
Definition liveAt (cw : clientWindow) (h : crnHeap) (p : nat) (r : Z) : Prop :=
  reqNoMap cw !! r = Some p ∧ ∃ crn, h !! p = Some crn ∧ reqNo crn = r.

(** The domain of [reqNoMap] is exactly the interval of the watermarks. *)
Definition domainIsWindow (cw : clientWindow) : Prop :=
  ∀ r, is_Some (reqNoMap cw !! r) ↔ lowWatermark cw <= r <= highWatermark cw.

(** The watermarks are [uint64] values, the list holds the request numbers
    from the low to the high watermark in order, and the map has exactly
    them. *)
Record windowInv (cw : clientWindow) (h : crnHeap) : Prop := {
  inv_uint64 : 0 <= lowWatermark cw <= MaxUint64 ∧ 0 <= highWatermark cw <= MaxUint64;
  inv_length : Z.of_nat (length (reqNoList cw))
               = Z.max 0 (highWatermark cw - lowWatermark cw + 1);
  inv_list : ∀ i p, reqNoList cw !! i = Some p →
               liveAt cw h p (lowWatermark cw + Z.of_nat i);
  inv_dom : domainIsWindow cw;
}.

(** The number of elements at the front of the list that
    [clientWindow.garbageCollect] removes: those committed at or before
    [maxSeqNo], up to the first that is not. *)
Fixpoint collectable (maxSeqNo : Z) (h : crnHeap) (els : list nat) : nat :=
  match els with
  | [] => 0
  | p :: rest =>
    match h !! p with
    | Some crn =>
      if uncommittedAfter (committed crn) maxSeqNo then 0
      else S (collectable maxSeqNo h rest)
    | None => 0
    end
  end.

(** Modelled from the spec: when a sequence commits, the spec has the
    "client reqnos marked [committed = seqno]"; the code that writes the
    field is outside the sources under study. *)
Definition markCommitted (p : nat) (seqNo : Z) (h : crnHeap) : crnHeap :=
  alter (λ crn, set_committed crn (Some seqNo)) p h.

(** The example window after request number 0 committed at sequence
    number 1, before it was ever seen as ready. *)
Definition committedUnseen : result (clientWindow * crnHeap) :=
  '(cw, h) ← exampleWindow; Ok (cw, markCommitted 0 1 h).

(** A window over the two largest request numbers but one; its first
    request number committed and was collected, then the next one
    committed. *)
Definition windowAtMax : result (clientWindow * crnHeap) :=
  '(cw, h) ← newClientWindow 7 (MaxUint64 - 2) (MaxUint64 - 1) exampleConfig [];
  '(cw1, h1) ← cw_garbageCollect 1 cw (markCommitted 0 1 h);
  Ok (cw1, markCommitted 1 2 h1).

(** Every location of heap [h] is a location of [h'] and holds a
    [clientReqNo] for the same request number there. *)
Definition sameReqNos (h h' : crnHeap) : Prop :=
  ∀ p crn, h !! p = Some crn → ∃ crn', h' !! p = Some crn' ∧ reqNo crn' = reqNo crn.

(** Go's zero value of a window, for reading the outcome of an example
    run. *)
Definition zeroWindow : clientWindow :=
  {| cw_clientID := 0; nextReadyMark := 0; lowWatermark := 0; highWatermark := 0;
     reqNoList := []; reqNoMap := ∅;
     cw_clientWaiter := {| waiter_lowWatermark := 0; waiter_highWatermark := 0 |};
     cw_networkConfig := exampleConfig |}.

Definition windowOf (r : result (clientWindow * crnHeap)) : clientWindow :=
  (from_Ok (zeroWindow, []) r).1.

Definition heapOf (r : result (clientWindow * crnHeap)) : crnHeap :=
  (from_Ok (zeroWindow, []) r).2.

(** Garbage collection up to sequence number [maxSeqNo] of the window an
    example run ends with. *)
Definition thenCollect (maxSeqNo : Z) (r : result (clientWindow * crnHeap))
    : result (clientWindow * crnHeap) :=
  '(cw, h) ← r; cw_garbageCollect maxSeqNo cw h.

(** ** Statements about the ready list *)

(** [chain es p ns]: following [next] from entry [p] visits exactly the
    entries [ns], the last of which has no successor. *)
Inductive chain (es : list readyEntry) : nat → list nat → Prop :=
| chain_last p e :
    es !! p = Some e → re_next e = None → chain es p [p]
| chain_cons p e q ns :
    es !! p = Some e → re_next e = Some q → chain es q ns → chain es p (p :: ns).

(** The [clientReqNo] pointers held by the entries [ns]. *)
Definition entryReqNos (es : list readyEntry) (ns : list nat) : list nat :=
  omap (λ n, re_clientReqNo <$> es !! n) ns.

(** The ready list of [st] consists of the entries [ns], from [readyHead]
    to [readyTail]. *)
Definition readyChain (st : clientWindows) (ns : list nat) : Prop :=
  chain (readyEntries st) (readyHead st) ns ∧ last ns = Some (readyTail st).

(** A [strongRequest] pointer points into the [digests] of its own
    [clientReqNo]; Go pointers cannot dangle. *)
Definition strongPointersValid (h : crnHeap) : Prop :=
  ∀ p crn k, h !! p = Some crn → strongRequest crn = Some k →
    is_Some (digests crn !! k).

(** The request at [crn] can be handed to the ordering: its strong request
    is set and the payload of the strong request is known. *)
Definition isReady (crn : clientReqNo) : bool :=
  match strongRequest_target crn with
  | Some cr => bool_decide (is_Some (data cr))
  | None => false
  end.

(** Request number [r] of window [cw] is ready in heap [h]. *)
Definition readyAt (cw : clientWindow) (h : crnHeap) (r : Z) : Prop :=
  ∃ p crn, reqNoMap cw !! r = Some p ∧ h !! p = Some crn ∧ isReady crn = true.

(** What the sweep of [clientWindows.garbageCollect] leaves of the
    pointers that follow the entry it stands on: the pointers that satisfy
    [keep], and the last one whatever it is. *)
Fixpoint sweep (keep : nat → bool) (l : list nat) : list nat :=
  match l with
  | [] => []
  | c :: rest =>
    match rest with
    | [] => [c]
    | _ :: _ => if keep c then c :: sweep keep rest else sweep keep rest
    end
  end.

(** The [clientReqNo] at [c] is not committed at or before [seqNo]. *)
Definition keptByCollect (h : crnHeap) (seqNo : Z) (c : nat) : bool :=
  match h !! c with
  | Some crn => uncommittedAfter (committed crn) seqNo
  | None => false
  end.

(** ** Statements about the collection of all windows *)

(** Client [cid] has a window that satisfies the invariant and whose high
    watermark does not wrap around when it is collected up to [seqNo]. *)
Definition collectsSafely (seqNo : Z) (st : clientWindows) (cid : Z) : Prop :=
  ∃ cw, windows st !! cid = Some cw
        ∧ windowInv cw (crns st)
        ∧ highWatermark cw + Z.of_nat (collectable seqNo (crns st) (reqNoList cw))
          <= MaxUint64.

(** The first loop of [clientWindows.garbageCollect], over the windows. *)
Definition collectWindows (seqNo : Z) (st : clientWindows) : result clientWindows :=
  foldM (gcWindow seqNo) st (clients st).

(** No message buffered in [st] for a node of the configuration is
    classified [current] by the windows of [st1]. *)
Definition nothingToReapply (st st1 : clientWindows) : Prop :=
  ∃ cfg, networkConfig st = Some cfg
         ∧ ∀ n, n ∈ Nodes cfg →
             ∃ buf, msgBuffers st !! n = Some buf
                    ∧ ∀ m, m ∈ buf →
                        cws_filter st1 m = Ok future ∨ cws_filter st1 m = Ok past.

(** ** Statements about the replay of the log *)

(** Every request number of the window below the ready mark is ready. *)
Definition releasedBelowMark (cw : clientWindow) (h : crnHeap) : Prop :=
  ∀ r, lowWatermark cw <= r < nextReadyMark cw → readyAt cw h r.

(** The ready mark is past the high watermark or on a request number that
    is not ready: [advanceReady] has nothing to release. *)
Definition markBlocked (cw : clientWindow) (h : crnHeap) : Prop :=
  nextReadyMark cw <= highWatermark cw → ¬ readyAt cw h (nextReadyMark cw).

(** The state of the client windows is well formed: every window satisfies
    the window invariant with its ready mark not below the low watermark
    and its high watermark below the largest [uint64], and the request
    numbers below the mark are ready; no pointer dangles; the ready list
    runs from [readyHead] to [readyTail]; every listed client has a
    window. *)
Record cwsInv (st : clientWindows) : Prop := {
  inv_windows : ∀ cid cw, windows st !! cid = Some cw →
      windowInv cw (crns st)
      ∧ lowWatermark cw <= nextReadyMark cw
      ∧ highWatermark cw < MaxUint64
      ∧ releasedBelowMark cw (crns st);
  inv_strong : strongPointersValid (crns st);
  inv_ready : ∃ ns, readyChain st ns
      ∧ ∀ c, c ∈ entryReqNos (readyEntries st) ns → is_Some (crns st !! c);
  inv_clients : ∀ cid, cid ∈ clients st → is_Some (windows st !! cid);
}.

(** The bucket low watermarks of the persisted clients are [uint64]
    values. *)
Definition persistedUint64 (entry : Persistent) : Prop :=
  match entry with
  | Persistent_CEntry c =>
    ∀ client blw, client ∈ ns_Clients (ce_NetworkState c) →
      blw ∈ BucketLowWatermarks client → 0 <= blw <= MaxUint64
  | _ => True
  end.

(** The requests of the last [QEntry] of [log] with digest [d]: what the
    replay has buffered for [d] when it has read [log]. *)
Fixpoint bufferedBatch (log : list Persistent) (d : string)
    (found : option (list ForwardRequest)) : option (list ForwardRequest) :=
  match log with
  | [] => found
  | Persistent_QEntry q :: rest =>
    bufferedBatch rest d (if decide (qe_Digest q = d) then Some (qe_Requests q) else found)
  | _ :: rest => bufferedBatch rest d found
  end.

(** A log of one checkpoint with client 7, a batch with the example
    request and the prepare of that batch. *)
Definition exampleLog : list Persistent :=
  [Persistent_CEntry
     {| ce_SeqNo := 0;
        ce_NetworkState :=
          {| ns_Config := exampleConfig;
             ns_Clients := [{| client_Id := 7; BucketLowWatermarks := [0] |}] |} |};
   Persistent_QEntry
     {| qe_SeqNo := 1; qe_Epoch := 0; qe_Digest := "batch";
        qe_Requests := [{| fwd_Request := exampleRequest; fwd_Digest := "d" |}] |};
   Persistent_PEntry {| pe_SeqNo := 1; pe_Epoch := 0; pe_Digest := "batch" |}].

(** The state after the replay of the example log, and that state when the
    replayed request has committed at sequence number 3. *)
Definition stateOf (r : result clientWindows) : clientWindows :=
  from_Ok (initialClientWindows exampleParams) r.

Definition exampleReplayed : clientWindows :=
  stateOf (newClientWindows exampleLog exampleParams).

Definition exampleCommitted : clientWindows :=
  set_crns exampleReplayed (markCommitted 1 3 (crns exampleReplayed)).

(** The state after the replay of the example log and before the ready
    marks are advanced. *)
Definition exampleBeforeAdvance : clientWindows :=
  (from_Ok (initialClientWindows exampleParams, ∅) (replayLog exampleLog exampleParams)).1.

(** The window of client 7 in a state. *)
Definition windowOf7 (st : clientWindows) : clientWindow :=
  default zeroWindow (windows st !! 7).

(** ** Statements about the requests of a window *)

(** Request number [r] of window [cw] has committed, at sequence number
    [c], in heap [h]. *)
Definition committedAt (cw : clientWindow) (h : crnHeap) (r c : Z) : Prop :=
  ∃ p crn, reqNoMap cw !! r = Some p ∧ h !! p = Some crn ∧ committed crn = Some c.

(** Request number [r] of window [cw] is still to be collected after
    sequence number [seqNo]: it has not committed, or committed later. *)
Definition pendingAfter (cw : clientWindow) (h : crnHeap) (seqNo r : Z) : Prop :=
  ∃ p crn, reqNoMap cw !! r = Some p ∧ h !! p = Some crn
           ∧ uncommittedAfter (committed crn) seqNo = true.

(** ** [clientWindow.status] *)

Record ClientWindowStatus := {
  LowWatermark : Z;
  HighWatermark : Z;
  Allocated : list Z;
}.

(** The entry of [Allocated] for one request number: 2 when it has
    committed, 1 when some digest is recorded for it, 0 otherwise. *)
Definition allocatedCode (crn : clientReqNo) : Z :=
  match committed crn with
  | Some _ => 2
  | None => if decide (0 < size (digests crn))%nat then 1 else 0
  end.

(** [clientWindow.status]: the slice [allocated] has one cell for every
    element of [reqNoList], written in the order of the list. *)
Definition cw_status (cw : clientWindow) (h : crnHeap) : result ClientWindowStatus :=
  allocated ← foldM (λ acc p, crn ← deref h p; Ok (acc ++ [allocatedCode crn]))
                    [] (reqNoList cw);
  Ok {| LowWatermark := lowWatermark cw; HighWatermark := highWatermark cw;
        Allocated := allocated |}.

(** ** Statements about the handling of messages *)

(** What every handled message keeps of the well-formedness of the client
    windows: every window satisfies the window invariant, with its ready
    mark not below the low watermark and its high watermark below the
    largest [uint64]; no [strongRequest] pointer dangles; the ready list
    runs from [readyHead] to [readyTail]. *)
Record cwsSafe (st : clientWindows) : Prop := {
  safe_windows : ∀ cid cw, windows st !! cid = Some cw →
      windowInv cw (crns st)
      ∧ lowWatermark cw <= nextReadyMark cw
      ∧ highWatermark cw < MaxUint64;
  safe_strong : strongPointersValid (crns st);
  safe_ready : ∃ ns, readyChain st ns;
}.

(** The messages the client windows handle. *)
Definition handled (msg : Msg) : Prop :=
  match msg with
  | Msg_Other _ => False
  | _ => True
  end.

(** An acknowledgement of node 1 for request number 5 of client 7. *)
Definition exampleAck5 : RequestAck :=
  {| ack_ClientId := 7; ack_ReqNo := 5; ack_Digest := "e" |}.

(** The state after the replay of the example log and that
    acknowledgement, and a forwarded request for the acknowledged digest. *)
Definition exampleAcked5 : clientWindows :=
  (from_Ok (""%string, exampleReplayed) (cws_ack 1 exampleAck5 exampleReplayed)).2.

Definition exampleForward5 : ForwardRequest :=
  {| fwd_Request := {| req_ClientId := 7; req_ReqNo := 5; req_Data := "xyz" |};
     fwd_Digest := "e" |}.

(** ** [clientWindows.clientConfigs] *)

(** [(cw.highWatermark + 1 + clientID) % uint64(len(blws))] *)
Definition firstOutOfWindowBucket (nb high cid : Z) : Z :=
  wrap64 (wrap64 (high + 1) + cid) mod nb.

(** [blws := make([]uint64, n)] and the loop [for i := range blws], which
    writes [high + 1 + i] into cell [(firstOutOfWindowBucket + i) % n]. *)
Definition initialBuckets (nb high cid : Z) : list Z :=
  foldl (λ blws i,
           <[Z.to_nat (wrap64 (firstOutOfWindowBucket nb high cid + i) mod nb)
             := wrap64 (wrap64 (high + 1) + i)]> blws)
        (replicate (Z.to_nat nb) 0) (seqZ 0 nb).

(** The body of the loop over [reqNoList]: a request number that has not
    committed lowers the cell of its bucket.  The modulus is the number of
    buckets of the configuration; Go panics on a zero divisor. *)
Definition lowerBucket (nb : Z) (h : crnHeap) (blws : list Z) (p : nat)
    : result (list Z) :=
  crn ← deref h p;
  match committed crn with
  | Some _ => Ok blws
  | None =>
    if decide (nb = 0) then Panic "integer divide by zero"
    else
      let bucket := Z.to_nat (wrap64 (reqNo crn + clientID crn) mod nb) in
      match blws !! bucket with
      | None => Panic "index out of range"
      | Some blw =>
        if decide (blw <= reqNo crn) then Ok blws
        else Ok (<[bucket := reqNo crn]> blws)
      end
  end.

(** The body of the loop of [clientConfigs] for one client.  The number
    of buckets is a signed integer of the configuration; [make] panics on a
    negative length. *)
Definition clientConfig (st : clientWindows) (cid : Z) : result NetworkState_Client :=
  match networkConfig st with
  | None => Panic "invalid memory address or nil pointer dereference"
  | Some cfg =>
    if decide (NumberOfBuckets cfg < 0) then Panic "makeslice: len out of range"
    else
      match windows st !! cid with
      | None => Panic "dev sanity test"
      | Some cw =>
        blws ← foldM (lowerBucket (NumberOfBuckets cfg) (crns st))
                     (initialBuckets (NumberOfBuckets cfg) (highWatermark cw) cid)
                     (reqNoList cw);
        Ok {| client_Id := cid; BucketLowWatermarks := blws |}
      end
  end.

Definition cws_clientConfigs (st : clientWindows) : result (list NetworkState_Client) :=
  foldM (λ acc cid, c ← clientConfig st cid; Ok (acc ++ [c])) [] (clients st).

(** Request number [r] of window [cw] has not committed in heap [h]. *)
Definition uncommittedAt (cw : clientWindow) (h : crnHeap) (r : Z) : Prop :=
  ∃ p crn, reqNoMap cw !! r = Some p ∧ h !! p = Some crn ∧ committed crn = None.

(** [v] is the low watermark of bucket [b] for client [cid] with [nb]
    buckets: the least request number of the bucket, from the low
    watermark of the window on, that has not committed; the request
    numbers above the high watermark count as not committed. *)
Definition bucketLowWatermark (cw : clientWindow) (h : crnHeap) (nb cid b v : Z) : Prop :=
  (v + cid) mod nb = b
  ∧ v <= highWatermark cw + nb
  ∧ (v <= highWatermark cw → uncommittedAt cw h v)
  ∧ (highWatermark cw < v →
     v = highWatermark cw + 1 + (b - (highWatermark cw + 1 + cid)) mod nb)
  ∧ (∀ r, lowWatermark cw <= r < v → (r + cid) mod nb = b →
       r <= highWatermark cw ∧ ∃ c, committedAt cw h r c).

(** Client [cid] has the window [cw], which satisfies the window invariant
    and holds the [clientReqNo] objects of that client, and the buckets of
    its request numbers are computed without [uint64] wrap-around. *)
Definition checkpointable (st : clientWindows) (nb cid : Z) (cw : clientWindow) : Prop :=
  windows st !! cid = Some cw
  ∧ windowInv cw (crns st)
  ∧ 0 <= cid
  ∧ highWatermark cw + cid + 2 * nb <= MaxUint64
  ∧ Forall (λ p, clientID <$> crns st !! p = Some cid) (reqNoList cw).

(** What the loop over [reqNoList] has established when it has visited the
    request numbers below [n]. *)
Definition bucketsUpTo (cw : clientWindow) (h : crnHeap) (nb cid n : Z)
    (blws : list Z) : Prop :=
  length blws = Z.to_nat nb
  ∧ ∀ b, 0 <= b < nb →
      ∃ v, blws !! Z.to_nat b = Some v
           ∧ (v + cid) mod nb = b
           ∧ v <= highWatermark cw + nb
           ∧ (v <= highWatermark cw → v < n ∧ uncommittedAt cw h v)
           ∧ (highWatermark cw < v →
              v = highWatermark cw + 1 + (b - (highWatermark cw + 1 + cid)) mod nb)
           ∧ (∀ r, lowWatermark cw <= r < n → r < v → (r + cid) mod nb = b →
                ∃ c, committedAt cw h r c).


(** ** Statements about what the serial processor delivers and when it stops *)

(** The call that hands [msg] to [replica]: a message for the node itself
    is stepped into the node, any other is sent over the link. *)
Definition delivery (sp : Processor.Processor) (msg : Processor.Msg) (replica : Z)
    : Processor.Event :=
  if decide (replica = Processor.Node_Config_ID sp)
  then Processor.Node_Step replica msg
  else Processor.Link_Send replica msg.

(** The calls that hand every message of [sends] to every one of its
    targets, in the order of the lists. *)
Definition sendCalls (sp : Processor.Processor) (sends : list Processor.Send)
    : list Processor.Event :=
  flat_map (λ s, map (delivery sp (Processor.send_Msg s)) (Processor.Targets s)) sends.

(** No call sends over the link to the node itself, and the node is
    stepped with itself as the source only. *)
Definition localDelivery (sp : Processor.Processor) (e : Processor.Event) : Prop :=
  match e with
  | Processor.Link_Send dest _ => dest ≠ Processor.Node_Config_ID sp
  | Processor.Node_Step source _ => source = Processor.Node_Config_ID sp
  | _ => True
  end.

(** A call made for one of the forwards of [actions]: the read of its
    request from the request store, or the delivery of the
    [ForwardRequest] message with its acknowledgement to one of its
    targets. *)
Definition forwardCall (actions : Processor.Actions) (e : Processor.Event) : Prop :=
  match e with
  | Processor.RequestStore_Get ack =>
    ∃ r, r ∈ Processor.ForwardRequests actions ∧ Processor.fw_RequestAck r = ack
  | Processor.Link_Send d (Processor.Msg_ForwardRequest fr)
  | Processor.Node_Step d (Processor.Msg_ForwardRequest fr) =>
    ∃ r, r ∈ Processor.ForwardRequests actions
         ∧ Processor.fw_RequestAck r = Processor.fr_RequestAck fr
         ∧ d ∈ Processor.fw_Targets r
  | _ => False
  end.

(** The calls on the application log for [commits]: every entry is
    applied, and a snapshot is taken right after a checkpoint entry. *)
Definition commitCalls (commits : list Processor.Commit) : list Processor.Event :=
  flat_map (λ c, Processor.Log_Apply (Processor.commit_QEntry c)
                 :: (if Processor.Checkpoint c then [Processor.Log_Snap] else []))
           commits.

(** The call [e], made after the calls [pre], returned an error that the
    processor reads: such are the errors of [RequestStore.Sync],
    [WAL.Append], [WAL.Sync] and [RequestStore.Get]. *)
Definition erred (sp : Processor.Processor) (pre : list Processor.Event)
    (e : Processor.Event) : Prop :=
  match e with
  | Processor.RequestStore_Sync => is_Some (Processor.RequestStore_Sync_returns sp pre)
  | Processor.WAL_Append p => is_Some (Processor.Append_returns sp pre p)
  | Processor.WAL_Sync => is_Some (Processor.WAL_Sync_returns sp pre)
  | Processor.RequestStore_Get ack => is_Some ((Processor.Get_returns sp pre ack).2)
  | _ => False
  end.

(** A call of [m] that returns such an error is the last call [m] makes,
    and [m] ends in a panic. *)
Definition stopsAtError {A} (sp : Processor.Processor) (m : Processor.run A) : Prop :=
  ∀ tr, ∃ t r,
    m tr = (tr ++ t, r)
    ∧ ∀ i e, t !! i = Some e → erred sp (tr ++ take i t) e →
        S i = length t ∧ ∃ msg, r = Panic msg.

(** ** The lists of actions ([actions.go]) *)

Module ActionLists.

Record RequestData := {
  ClientId : string;
  ReqNo : Z;
  Data : string;
  Signature : string;
}.

Record Unicast := {
  Target : Z;
  unicast_Msg : Msg;
}.

(** A batch holds requests as the protocol buffers have them. *)
Record Batch := {
  batch_Source : Z;
  SeqNo : Z;
  Epoch : Z;
  Requests : list Request;
}.

Record Request := {
  Source : Z;
  ClientRequest : RequestData;
  PurportedDigest : string;
}.

Record HashRequest := {
  hash_Data : list string;
  hash_Batch : option Batch;
}.

Record Commit := {
  commit_QEntry : QEntry;
  Checkpoint : bool;
}.

Record Actions := {
  Broadcast : list Msg;
  Unicasts : list Unicast;
  Preprocess : list Request;
  Hash : list HashRequest;
  QEntries : list QEntry;
  PEntries : list PEntry;
  Commits : list Commit;
}.

(** [Clear] writes nil into every field of its receiver; the result is
    the receiver afterwards. *)
Definition Clear (a : Actions) : Actions :=
  {| Broadcast := []; Unicasts := []; Preprocess := []; Hash := [];
     QEntries := []; PEntries := []; Commits := [] |}.

Definition IsEmpty (a : Actions) : bool :=
  Nat.eqb (length (Broadcast a)) 0
  && Nat.eqb (length (Unicasts a)) 0
  && Nat.eqb (length (Preprocess a)) 0
  && Nat.eqb (length (Commits a)) 0
  && Nat.eqb (length (Hash a)) 0
  && Nat.eqb (length (QEntries a)) 0
  && Nat.eqb (length (PEntries a)) 0.

(** [a.Append(o)]: the receiver afterwards. *)
Definition Append (a o : Actions) : Actions :=
  {| Broadcast := Broadcast a ++ Broadcast o;
     Unicasts := Unicasts a ++ Unicasts o;
     Preprocess := Preprocess a ++ Preprocess o;
     Hash := Hash a ++ Hash o;
     QEntries := QEntries a ++ QEntries o;
     PEntries := PEntries a ++ PEntries o;
     Commits := Commits a ++ Commits o |}.

End ActionLists.

(** The state after the replay of the example log when the payload of
    request number 1 of client 7 has been stored under the digest "e1" and
    the nodes 1 and 2 have acknowledged that digest. *)
Definition examplePayload1 : Request :=
  {| req_ClientId := 7; req_ReqNo := 1; req_Data := "xyz" |}.

Definition exampleAck1 : RequestAck :=
  {| ack_ClientId := 7; ack_ReqNo := 1; ack_Digest := "e1" |}.

Definition exampleStored1 : clientWindows :=
  stateOf (cws_allocate examplePayload1 "e1" exampleReplayed).

Definition exampleAckedOnce : clientWindows :=
  (from_Ok (""%string, exampleStored1) (cws_ack 1 exampleAck1 exampleStored1)).2.

Definition exampleAckedTwice : clientWindows :=
  (from_Ok (""%string, exampleAckedOnce) (cws_ack 2 exampleAck1 exampleAckedOnce)).2.

(** ** Statements about the clients after the replay *)

(** The listed clients are exactly the clients that have a window. *)
Definition clientsHaveWindows (st : clientWindows) : Prop :=
  ∀ cid, cid ∈ clients st ↔ is_Some (windows st !! cid).

(** The state after the replay of the example log when the nodes 1, 2 and
    3 have acknowledged the digest "e1" for request number 1 of client 7,
    whose payload is not known. *)
Definition exampleStrongOnce : clientWindows :=
  (from_Ok (""%string, exampleReplayed) (cws_ack 1 exampleAck1 exampleReplayed)).2.

Definition exampleStrongTwice : clientWindows :=
  (from_Ok (""%string, exampleStrongOnce) (cws_ack 2 exampleAck1 exampleStrongOnce)).2.

Definition exampleStrong1 : clientWindows :=
  (from_Ok (""%string, exampleStrongTwice) (cws_ack 3 exampleAck1 exampleStrongTwice)).2.

(** ** The ready list after a collection *)

(** The state after the replay of the example log when request number 1 of
    client 7 has been released as well: its payload is stored and the
    nodes 1, 2 and 3 have acknowledged its digest. *)
Definition exampleReleased1 : clientWindows :=
  (from_Ok (""%string, exampleAckedTwice) (cws_ack 3 exampleAck1 exampleAckedTwice)).2.

(** That state when request number 0 has committed at sequence number 3,
    and the state after the collection up to sequence number 5. *)
Definition exampleReleasedCommitted : clientWindows :=
  set_crns exampleReleased1 (markCommitted 1 3 (crns exampleReleased1)).

Definition exampleCollected : clientWindows :=
  stateOf (cws_garbageCollect 5 exampleReleasedCommitted).

(** After the collection the payload of request number 2 is stored under
    the digest "e2" and the nodes 1 and 2 acknowledge that digest. *)
Definition examplePayload2 : Request :=
  {| req_ClientId := 7; req_ReqNo := 2; req_Data := "uvw" |}.

Definition exampleAck2 : RequestAck :=
  {| ack_ClientId := 7; ack_ReqNo := 2; ack_Digest := "e2" |}.

Definition exampleStored2 : clientWindows :=
  stateOf (cws_allocate examplePayload2 "e2" exampleCollected).

Definition exampleAcked2Once : clientWindows :=
  (from_Ok (""%string, exampleStored2) (cws_ack 1 exampleAck2 exampleStored2)).2.

Definition exampleAcked2Twice : clientWindows :=
  (from_Ok (""%string, exampleAcked2Once) (cws_ack 2 exampleAck2 exampleAcked2Once)).2.

(** The state in which the acknowledgement of node 3 calls [checkReady]:
    the window's [ack] has recorded the acknowledgement. *)
Definition exampleStrong2 : clientWindows :=
  match cw_ack 3 2 "e2" (windowOf7 exampleAcked2Twice) (crns exampleAcked2Twice) with
  | Ok (r, h) => pushCorrect (ack_newlyCorrectReq r) "e2" (set_crns exampleAcked2Twice h)
  | _ => exampleAcked2Twice
  end.

(** The state after the acknowledgement of node 3. *)
Definition exampleReleased2 : clientWindows :=
  (from_Ok (""%string, exampleAcked2Twice) (cws_ack 3 exampleAck2 exampleAcked2Twice)).2.

(** * Properties of the embedding *)

(** ** The message filter *)

Lemma classify_byWatermarks st cid reqno :
  classifiedByWatermarks st cid reqno (Ok (classify st cid reqno)).
Proof.
  unfold classifiedByWatermarks, classify.
  split.
  - intros ->. reflexivity.
  - intros cw ->. repeat split; intros; repeat case_decide; try lia; reflexivity.
Qed.

(** C4, as stated, fails: a [FetchRequest] naming a client that has no
    window is classified [current], not [future]. *)
Lemma cws_filter_fetch_unknown_client :
  cws_clientWindow (initialClientWindows exampleParams) (fetch_ClientId exampleFetch) = None
  ∧ ¬ classifiedByWatermarks (initialClientWindows exampleParams)
        (fetch_ClientId exampleFetch) (fetch_ReqNo exampleFetch)
        (cws_filter (initialClientWindows exampleParams) (Msg_FetchRequest exampleFetch)).
Proof.
  split; [reflexivity |].
  intros [Hnone _]. specialize (Hnone eq_refl). discriminate Hnone.
Qed.

(** C4 (amended): [filter] classifies a [RequestAck] and a [ForwardRequest]
    by the watermarks of the target client: [past] below the low watermark,
    otherwise [future] above the high watermark or when the client is
    unknown, otherwise [current]; a [FetchRequest] is always [current]. *)
Theorem cws_filter_classification :
  (∀ st ack,
     classifiedByWatermarks st (ack_ClientId ack) (ack_ReqNo ack)
       (cws_filter st (Msg_RequestAck ack)))
  ∧ (∀ st fwd,
     classifiedByWatermarks st (req_ClientId (fwd_Request fwd))
       (req_ReqNo (fwd_Request fwd)) (cws_filter st (Msg_ForwardRequest fwd)))
  ∧ (∀ st fetch, cws_filter st (Msg_FetchRequest fetch) = Ok current).
Proof.
  split; [| split].
  - intros st ack. apply classify_byWatermarks.
  - intros st fwd. apply classify_byWatermarks.
  - reflexivity.
Qed.

(** ** The serial processor *)

Section ProcessorCalls.
Import Processor.

Lemma emits_ret {A} P (a : A) : emits P (ret a).
Proof. intros tr. exists [], (Ok a). rewrite app_nil_r. split; [reflexivity | constructor]. Qed.

Lemma emits_panic {A} P msg : emits P (@panic A msg).
Proof. intros tr. exists [], (Panic msg). rewrite app_nil_r. split; [reflexivity | constructor]. Qed.

Lemma emits_call {A} (P : Event → Prop) e (returns : list Event → A) :
  P e → emits P (call e returns).
Proof.
  intros He tr. exists [e], (Ok (returns tr)). split; [reflexivity |].
  constructor; [exact He | constructor].
Qed.

Lemma emits_bind {A B} P (m : run A) (f : A → run B) :
  emits P m → (∀ a, emits P (f a)) → emits P (bind m f).
Proof.
  intros Hm Hf tr. unfold bind.
  destruct (Hm tr) as (t & r & -> & Ht).
  destruct r as [a | msg |].
  - destruct (Hf a (tr ++ t)) as (t' & r' & -> & Ht').
    exists (t ++ t'), r'. rewrite app_assoc. split; [reflexivity |].
    apply Forall_app. split; assumption.
  - exists t, (Panic msg). split; [reflexivity | assumption].
  - exists t, Diverge. split; [reflexivity | assumption].
Qed.

Lemma emits_forEach {A} P (l : list A) (body : A → run unit) :
  (∀ x, emits P (body x)) → emits P (forEach l body).
Proof.
  intros Hbody. induction l as [| x l IH]; simpl.
  - apply emits_ret.
  - apply emits_bind; [apply Hbody | intros _; exact IH].
Qed.

Lemma emits_transmit P sp targets msg :
  (∀ e, isTransmission e = true → P e) → emits P (transmit sp targets msg).
Proof.
  intros HP. apply emits_forEach. intros replica.
  case_decide; apply emits_call; apply HP; reflexivity.
Qed.

Lemma emits_transmitSerially sp actions :
  emits transmissionPhaseCall (transmitSerially sp actions).
Proof.
  assert (Ht : ∀ e, isTransmission e = true → transmissionPhaseCall e).
  { intros e He. destruct e; try discriminate He; split; reflexivity. }
  unfold transmitSerially. apply emits_bind.
  - apply emits_forEach. intros s. apply emits_transmit, Ht.
  - intros _. apply emits_forEach. intros r. apply emits_bind.
    + apply emits_call. split; reflexivity.
    + intros got. destruct (got.2); [apply emits_panic | apply emits_transmit, Ht].
Qed.

Lemma emits_applyCommits sp commits acc :
  emits (λ e, isCommitApplication e = true) (applyCommits sp commits acc).
Proof.
  revert acc. induction commits as [| c rest IH]; intros acc; simpl.
  - apply emits_ret.
  - apply emits_bind; [apply emits_call; reflexivity |].
    intros _. destruct (Checkpoint c); [| apply IH].
    apply emits_bind; [apply emits_call; reflexivity | intros v; apply IH].
Qed.

Lemma emits_applySerially sp actions :
  emits (λ e, isCommitApplication e = true) (applySerially sp actions).
Proof.
  unfold applySerially. apply emits_bind; [apply emits_applyCommits |].
  intros cps. apply emits_ret.
Qed.

(** The stores never stop the processor, whatever [Store] returns. *)
Lemma storeRequests_calls sp (l : list ForwardRequest) tr :
  forEach l (λ r,
    bind (call (RequestStore_Store (fr_RequestAck r) (fr_RequestData r))
               (λ tr, Store_returns sp tr (fr_RequestAck r) (fr_RequestData r)))
         (λ _, ret tt)) tr
  = (tr ++ map (λ r, RequestStore_Store (fr_RequestAck r) (fr_RequestData r)) l, Ok tt).
Proof.
  revert tr. induction l as [| r l IH]; intros tr; simpl.
  - rewrite app_nil_r. reflexivity.
  - unfold bind at 1. simpl. rewrite IH, <- app_assoc. reflexivity.
Qed.

Lemma appends_calls sp (l : list Persistent) tr :
  ∃ t r,
    forEach l (λ p,
      bind (call (WAL_Append p) (λ tr, Append_returns sp tr p))
           (λ err, match err with
                   | Some _ => panic "could not persist entry, not safe to continue: %s"
                   | None => ret tt
                   end)) tr = (tr ++ t, r)
    ∧ Forall (λ e, isPersistence e = true) t
    ∧ (is_Ok r → t = map WAL_Append l).
Proof.
  revert tr. induction l as [| p l IH]; intros tr; simpl.
  - exists [], (Ok tt). rewrite app_nil_r. repeat split; constructor.
  - unfold bind at 1. unfold bind at 1. simpl.
    destruct (Append_returns sp tr p) as [err |].
    + exists [WAL_Append p], (Panic "could not persist entry, not safe to continue: %s").
      split; [reflexivity |]. split; [repeat constructor |].
      intros [a Ha]. discriminate Ha.
    + simpl. destruct (IH (tr ++ [WAL_Append p])) as (t & r & -> & Ht & Hok).
      exists (WAL_Append p :: t), r. rewrite <- app_assoc. split; [reflexivity |].
      split; [constructor; [reflexivity | exact Ht] |].
      intros Hr. rewrite (Hok Hr). reflexivity.
Qed.

Lemma persistSerially_calls sp actions tr :
  ∃ t r, persistSerially sp actions tr = (tr ++ t, r)
    ∧ Forall (λ e, isPersistence e = true) t
    ∧ (is_Ok r → t = persistenceCalls actions).
Proof.
  unfold persistSerially, persistenceCalls.
  unfold bind at 1. rewrite storeRequests_calls.
  set (stores := map _ (StoreRequests actions)).
  assert (Hstores : Forall (λ e, isPersistence e = true) stores).
  { apply Forall_forall. intros e He. apply list_elem_of_fmap in He as (r & -> & _). reflexivity. }
  unfold bind at 1. simpl.
  destruct (RequestStore_Sync_returns sp (tr ++ stores)) as [err |].
  - eexists (stores ++ [RequestStore_Sync]), _. rewrite app_assoc.
    split; [reflexivity |]. split.
    + apply Forall_app. split; [exact Hstores | repeat constructor].
    + intros [a Ha]. discriminate Ha.
  - unfold bind at 1.
    destruct (appends_calls sp (Persist actions) ((tr ++ stores) ++ [RequestStore_Sync]))
      as (t & r & -> & Ht & Hok).
    destruct r as [[] | msg |].
    + specialize (Hok (ex_intro _ tt eq_refl)). subst t.
      unfold bind at 1. simpl.
      destruct (WAL_Sync_returns sp _) as [err |].
      * eexists _, _. split.
        { unfold panic. rewrite <- !app_assoc. reflexivity. }
        split.
        { apply Forall_app. split; [exact Hstores |].
          constructor; [reflexivity |]. apply Forall_app. split; [exact Ht | repeat constructor]. }
        intros [a Ha]. discriminate Ha.
      * eexists _, _. split.
        { unfold ret. rewrite <- !app_assoc. reflexivity. }
        split.
        { apply Forall_app. split; [exact Hstores |].
          constructor; [reflexivity |]. apply Forall_app. split; [exact Ht | repeat constructor]. }
        intros _. reflexivity.
    + eexists _, _. split.
      { rewrite <- !app_assoc. reflexivity. }
      split.
      { apply Forall_app. split; [exact Hstores |]. constructor; [reflexivity | exact Ht]. }
      intros [a Ha]. discriminate Ha.
    + eexists _, _. split.
      { rewrite <- !app_assoc. reflexivity. }
      split.
      { apply Forall_app. split; [exact Hstores |]. constructor; [reflexivity | exact Ht]. }
      intros [a Ha]. discriminate Ha.
Qed.

End ProcessorCalls.

(** C7, the failing input: [Store] returns an error, the processor goes on
    to sync, and to send the message to node 1, and ends without a panic. *)
Theorem ProcessSerially_ignores_store_error :
  Processor.ProcessSerially oneStoreRequest failingStore []
  = ([Processor.RequestStore_Store exampleAck "abc";
      Processor.RequestStore_Sync;
      Processor.WAL_Sync;
      Processor.Link_Send 1 (Processor.Msg_Protocol "preprepare")],
     Ok {| Processor.Digests := []; Processor.Checkpoints := [] |}).
Proof. reflexivity. Qed.

(** The sibling calls do stop the processor: an error of
    [RequestStore.Sync] is a panic. *)
Lemma persistSerially_sync_error_panics sp actions tr err :
  Processor.RequestStore_Sync_returns sp
    (tr ++ map (λ r, Processor.RequestStore_Store (Processor.fr_RequestAck r)
                       (Processor.fr_RequestData r))
               (Processor.StoreRequests actions)) = Some err →
  ∃ tr', Processor.persistSerially sp actions tr
         = (tr', Panic "could not sync request store, unsafe to continue: %s").
Proof.
  intros Herr. unfold Processor.persistSerially.
  unfold Processor.bind at 1. rewrite storeRequests_calls.
  unfold Processor.bind at 1. simpl. rewrite Herr. eexists. reflexivity.
Qed.

Lemma phases_ordered (t1 t2 t3 : list Processor.Event) i j e1 e2 :
  Forall (λ e, Processor.isPersistence e = true) t1 →
  Forall transmissionPhaseCall t2 →
  Forall (λ e, Processor.isCommitApplication e = true) t3 →
  (t1 ++ t2 ++ t3) !! i = Some e1 → (t1 ++ t2 ++ t3) !! j = Some e2 →
  (Processor.isPersistence e1 = true → Processor.isTransmission e2 = true → (i < j)%nat)
  ∧ (Processor.isTransmission e1 = true → Processor.isCommitApplication e2 = true → (i < j)%nat).
Proof.
  intros F1 F2 F3 Hi Hj.
  rewrite Forall_forall in F1, F2, F3.
  assert (Hcase : ∀ k e, (t1 ++ t2 ++ t3) !! k = Some e →
            ((k < length t1)%nat ∧ Processor.isPersistence e = true)
            ∨ ((length t1 <= k < length t1 + length t2)%nat ∧ transmissionPhaseCall e)
            ∨ ((length t1 + length t2 <= k)%nat ∧ Processor.isCommitApplication e = true)).
  { intros k e Hk. apply lookup_app_Some in Hk as [Hk | [Hge Hk]].
    - left. split; [eapply lookup_lt_Some; eassumption |].
      apply F1. eapply list_elem_of_lookup_2; eassumption.
    - apply lookup_app_Some in Hk as [Hk | [Hge' Hk]].
      + right. left. split; [apply lookup_lt_Some in Hk; lia |].
        apply F2. eapply list_elem_of_lookup_2; eassumption.
      + right. right. split; [lia |].
        apply F3. eapply list_elem_of_lookup_2; eassumption. }
  destruct (Hcase i e1 Hi) as [[Hi1 P1] | [[Hi1 [P1 Q1]] | [Hi1 P1]]];
  destruct (Hcase j e2 Hj) as [[Hj1 P2] | [[Hj1 [P2 Q2]] | [Hj1 P2]]];
  split; intros A B; try lia;
  destruct e1; try discriminate; destruct e2; discriminate.
Qed.

(** C8: in [ProcessSerially] the calls come in three phases: persistence
    ([Store], [Sync], [Append], [Sync]), then transmission ([Link.Send],
    [Node.Step], and the reads of the request store), then the application
    of commits.  When any call of the later phases is made, the persistence
    phase is complete: every [Store], then [RequestStore.Sync], every
    [WAL.Append], then [WAL.Sync]; when a commit is applied, the
    transmission phase has ended without a panic.  Hence every persistence
    call precedes every send or self-step, which precedes every commit
    application. *)
Theorem ProcessSerially_phases sp actions :
  ∃ t1 t2 t3 r,
    Processor.ProcessSerially actions sp [] = (t1 ++ t2 ++ t3, r)
    ∧ Forall (λ e, Processor.isPersistence e = true) t1
    ∧ Forall transmissionPhaseCall t2
    ∧ Forall (λ e, Processor.isCommitApplication e = true) t3
    ∧ (t2 ++ t3 ≠ [] ∨ is_Ok r → t1 = Processor.persistenceCalls actions)
    ∧ (t3 ≠ [] ∨ is_Ok r →
       Processor.transmitSerially sp actions t1 = (t1 ++ t2, Ok tt))
    ∧ (∀ i j e1 e2,
        (t1 ++ t2 ++ t3) !! i = Some e1 → (t1 ++ t2 ++ t3) !! j = Some e2 →
        (Processor.isPersistence e1 = true → Processor.isTransmission e2 = true → (i < j)%nat)
        ∧ (Processor.isTransmission e1 = true → Processor.isCommitApplication e2 = true → (i < j)%nat)).
Proof.
  destruct (persistSerially_calls sp actions []) as (t1 & r1 & E1 & F1 & Hok1).
  simpl in E1.
  unfold Processor.ProcessSerially. unfold Processor.bind at 1. rewrite E1.
  assert (HnP : ∀ A msg, ¬ is_Ok (@Panic A msg)).
  { intros A msg [a Ha]. discriminate Ha. }
  assert (HnD : ∀ A, ¬ is_Ok (@Diverge A)).
  { intros A [a Ha]. discriminate Ha. }
  destruct r1 as [[] | msg |].
  - specialize (Hok1 (ex_intro _ tt eq_refl)).
    destruct (emits_transmitSerially sp actions t1) as (t2 & r2 & E2 & F2).
    unfold Processor.bind at 1. rewrite E2.
    destruct r2 as [[] | msg |].
    + destruct (emits_applySerially sp actions (t1 ++ t2)) as (t3 & r3 & E3 & F3).
      exists t1, t2, t3, r3. rewrite E3, <- app_assoc.
      split_and!; try first [reflexivity | assumption | exact I | apply List.Forall_nil | (intros _; assumption)].
      intros i j e1 e2. apply phases_ordered; assumption.
    + exists t1, t2, [], (Panic msg). rewrite app_nil_r.
      split_and!; try first [reflexivity | assumption | exact I | apply List.Forall_nil | (intros _; assumption)].
      * intros [Hne | Hok]; [congruence | destruct (HnP _ _ Hok)].
      * intros i j e1 e2 Hi Hj. apply (phases_ordered t1 t2 []); try assumption;
          try (constructor; fail); rewrite app_nil_r; assumption.
    + exists t1, t2, [], Diverge. rewrite app_nil_r.
      split_and!; try first [reflexivity | assumption | exact I | apply List.Forall_nil | (intros _; assumption)].
      * intros [Hne | Hok]; [congruence | destruct (HnD _ Hok)].
      * intros i j e1 e2 Hi Hj. apply (phases_ordered t1 t2 []); try assumption;
          try (constructor; fail); rewrite app_nil_r; assumption.
  - exists t1, [], [], (Panic msg). rewrite !app_nil_r.
    split_and!; try first [reflexivity | assumption | exact I | apply List.Forall_nil | (intros _; assumption)].
    + intros [Hne | Hok]; [congruence | destruct (HnP _ _ Hok)].
    + intros [Hne | Hok]; [congruence | destruct (HnP _ _ Hok)].
    + intros i j e1 e2 Hi Hj. apply (phases_ordered t1 [] []); try assumption;
        try (constructor; fail); rewrite !app_nil_r; assumption.
  - exists t1, [], [], Diverge. rewrite !app_nil_r.
    split_and!; try first [reflexivity | assumption | exact I | apply List.Forall_nil | (intros _; assumption)].
    + intros [Hne | Hok]; [congruence | destruct (HnD _ Hok)].
    + intros [Hne | Hok]; [congruence | destruct (HnD _ Hok)].
    + intros i j e1 e2 Hi Hj. apply (phases_ordered t1 [] []); try assumption;
        try (constructor; fail); rewrite !app_nil_r; assumption.
Qed.

(** ** Acknowledgements *)

Lemma ackedByTwo_eq : ackedByTwo = Ok (ackedByTwoWindow, ackedByTwoHeap).
Proof. vm_compute. reflexivity. Qed.

(** C2, as stated, fails: node 1 acknowledges a digest it has already
    acknowledged; the agreement set keeps its [f+1 = 2] members, so it has
    not just reached [f+1], and [ack] still returns the request as newly
    correct. *)
Lemma cw_ack_repeated_newly_correct :
  ∃ cw h r h',
    ackedByTwo = Ok (cw, h)
    ∧ cw_ack 1 0 "d" cw h = Ok (r, h')
    ∧ ack_newlyCorrectReq r = Some exampleRequest
    ∧ ¬ justReached (agreementsOf h (ack_crn r) "d") (agreementsOf h' (ack_crn r) "d")
          (someCorrectQuorum (cw_networkConfig cw)).
Proof.
  exists ackedByTwoWindow, ackedByTwoHeap,
    {| ack_cr := "d"; ack_crn := 0%nat; ack_newlyCorrectReq := Some exampleRequest |},
    ackedByTwoHeap.
  split; [apply ackedByTwo_eq |]. split; [vm_compute; reflexivity |].
  split; [reflexivity |].
  intros [_ Hlt]. vm_compute in Hlt. discriminate Hlt.
Qed.

(** C2 (amended): for [reqno] within the watermarks, [ack] adds [source]
    to the agreement set of the digest (creating the entry when the digest
    is new) and changes nothing else of the digests; it returns a request
    exactly when the agreement set has [f+1] members after the addition and
    the payload of the digest is known, also when [source] was a member
    before; it makes the digest the strong request when the set has [2f+1]
    members after the addition and leaves the strong request as it was
    otherwise. *)
Theorem cw_ack_spec source reqno dg cw h p crn :
  lowWatermark cw <= reqno <= highWatermark cw →
  reqNoMap cw !! reqno = Some p →
  h !! p = Some crn →
  ∃ r crn',
    cw_ack source reqno dg cw h = Ok (r, <[p := crn']> h)
    ∧ ack_crn r = p ∧ ack_cr r = dg
    ∧ agreementsOf (<[p := crn']> h) p dg = {[source]} ∪ agreementsOf h p dg
    ∧ dataOf (<[p := crn']> h) p dg = dataOf h p dg
    ∧ (∀ d, d ≠ dg → digests crn' !! d = digests crn !! d)
    ∧ (∀ rq, ack_newlyCorrectReq r = Some rq ↔
         Z.of_nat (size ({[source]} ∪ agreementsOf h p dg))
           = faults (cw_networkConfig cw) + 1
         ∧ dataOf h p dg = Some rq)
    ∧ (Z.of_nat (size ({[source]} ∪ agreementsOf h p dg))
         = 2 * faults (cw_networkConfig cw) + 1 →
       strongRequest crn' = Some dg)
    ∧ (Z.of_nat (size ({[source]} ∪ agreementsOf h p dg))
         ≠ 2 * faults (cw_networkConfig cw) + 1 →
       strongRequest crn' = strongRequest crn)
    ∧ reqNo crn' = reqNo crn ∧ committed crn' = committed crn
    ∧ clientID crn' = clientID crn.
Proof.
  intros Hwm Hmap Hp.
  assert (Hlt : (p < length h)%nat) by (eapply lookup_lt_Some; eassumption).
  unfold cw_ack.
  destruct (decide (reqno > highWatermark cw)); [lia |].
  destruct (decide (reqno < lowWatermark cw)); [lia |].
  rewrite Hmap. unfold deref. rewrite Hp. simpl.
  set (cr := getOrCreateRequest crn dg).
  assert (Hagr : agreementsOf h p dg = agreements cr).
  { unfold agreementsOf, cr, getOrCreateRequest. rewrite Hp.
    destruct (digests crn !! dg); reflexivity. }
  assert (Hdata : dataOf h p dg = data cr).
  { unfold dataOf, cr, getOrCreateRequest. rewrite Hp. simpl.
    destruct (digests crn !! dg); reflexivity. }
  rewrite Hagr, Hdata.
  unfold someCorrectQuorum, intersectionQuorum.
  eexists _, _. split; [reflexivity |]. simpl.
  split; [reflexivity |]. split; [reflexivity |].
  split.
  { unfold agreementsOf. rewrite list_lookup_insert_eq by exact Hlt.
    destruct (decide (_ = 2 * _ + 1)); simpl; rewrite lookup_insert_eq; reflexivity. }
  split.
  { unfold dataOf. rewrite list_lookup_insert_eq by exact Hlt. simpl.
    destruct (decide (_ = 2 * _ + 1)); simpl; rewrite lookup_insert_eq; reflexivity. }
  split.
  { intros d Hd.
    destruct (decide (_ = 2 * _ + 1)); simpl; rewrite lookup_insert_ne by congruence;
      reflexivity. }
  split.
  { intros rq. destruct (decide (_ = faults _ + 1)) as [Heq | Hne].
    - split; [intros ->; split; [exact Heq | reflexivity] | intros [_ ->]; reflexivity].
    - split; [discriminate | intros [Heq _]; contradiction]. }
  split.
  { intros Heq. destruct (decide (_ = 2 * _ + 1)); [reflexivity | contradiction]. }
  split.
  { intros Hne. destruct (decide (_ = 2 * _ + 1)); [contradiction | reflexivity]. }
  destruct (decide (_ = 2 * _ + 1)); repeat split; reflexivity.
Qed.

(** The repeated acknowledgement of the counterexample, through the
    theorem. *)
Lemma cw_ack_spec_witness :
  ∃ r crn',
    cw_ack 1 0 "d" ackedByTwoWindow ackedByTwoHeap
      = Ok (r, <[0%nat := crn']> ackedByTwoHeap)
    ∧ ack_newlyCorrectReq r = Some exampleRequest.
Proof.
  destruct (cw_ack_spec 1 0 "d" ackedByTwoWindow ackedByTwoHeap 0%nat ackedByTwoReqNo)
    as (r & crn' & Hack & _ & _ & _ & _ & _ & Hnew & _).
  - simpl. lia.
  - reflexivity.
  - reflexivity.
  - exists r, crn'. split; [exact Hack |].
    apply Hnew. split; vm_compute; reflexivity.
Defined.

(** ** Replies to fetch requests *)

(** C10: [replyFetchRequest] answers with exactly one send, of a
    [ForwardRequest] with the recorded payload and the requested digest,
    to the requesting source alone, when the client has a window, the
    request number is within its watermarks, the digest is recorded for it
    and its payload is known; otherwise the actions are empty. *)
Theorem cws_replyFetchRequest_spec st source cid reqno dg :
  windowCovers st cid reqno →
  (∀ rq, knownRequest st cid reqno dg rq →
     cws_replyFetchRequest source cid reqno dg st
     = Ok {| act_Send :=
               [{| Targets := [source];
                   send_Msg := Msg_ForwardRequest
                                 {| fwd_Request := rq; fwd_Digest := dg |} |}];
             act_Hash := [] |})
  ∧ ((∀ rq, ¬ knownRequest st cid reqno dg rq) →
     cws_replyFetchRequest source cid reqno dg st = Ok emptyActions).
Proof.
  intros Hcov. unfold cws_replyFetchRequest. split.
  - intros rq (cw & p & crn & cr & Hcw & Hwm & Hmap & Hp & Hdg & Hdata).
    rewrite Hcw. unfold cw_inWatermarks.
    rewrite !bool_decide_eq_true_2 by lia. simpl.
    unfold cw_request.
    destruct (decide (reqno > highWatermark cw)); [lia |].
    destruct (decide (reqno < lowWatermark cw)); [lia |].
    rewrite Hmap. simpl. unfold deref. rewrite Hp. simpl.
    rewrite Hdg, Hdata. reflexivity.
  - intros Hnone.
    destruct (cws_clientWindow st cid) as [cw |] eqn:Hcw; [| reflexivity].
    unfold cw_inWatermarks.
    destruct (decide (reqno <= highWatermark cw)) as [Hhi | Hhi];
      [| rewrite (bool_decide_eq_false_2 _ Hhi); reflexivity].
    destruct (decide (reqno >= lowWatermark cw)) as [Hlo | Hlo];
      [| rewrite (bool_decide_eq_false_2 _ Hlo), andb_false_r; reflexivity].
    rewrite !bool_decide_eq_true_2 by assumption. simpl.
    destruct (Hcov cw Hcw) as (p & crn & Hmap & Hp); [lia |].
    unfold cw_request.
    destruct (decide (reqno > highWatermark cw)); [lia |].
    destruct (decide (reqno < lowWatermark cw)); [lia |].
    rewrite Hmap. simpl. unfold deref. rewrite Hp. simpl.
    destruct (digests crn !! dg) as [cr |] eqn:Hdg; [| reflexivity].
    destruct (data cr) as [rq |] eqn:Hdata; [| reflexivity].
    exfalso. apply (Hnone rq). exists cw, p, crn, cr.
    repeat split; try assumption; lia.
Qed.

(** ** The window invariant *)

Lemma wrap64_small z : 0 <= z <= MaxUint64 → wrap64 z = z.
Proof. intros Hz. unfold wrap64, MaxUint64 in *. apply Z.mod_small. lia. Qed.

Lemma foldl_pushReqNo_spec rs cw h cw' h' :
  foldl pushReqNo (cw, h) rs = (cw', h') →
  cw_clientID cw' = cw_clientID cw
  ∧ nextReadyMark cw' = nextReadyMark cw
  ∧ lowWatermark cw' = lowWatermark cw
  ∧ highWatermark cw' = highWatermark cw
  ∧ cw_networkConfig cw' = cw_networkConfig cw
  ∧ reqNoList cw' = reqNoList cw ++ seq (length h) (length rs)
  ∧ h' = h ++ (freshClientReqNo (cw_clientID cw) <$> rs)
  ∧ (∀ r, r ∉ rs → reqNoMap cw' !! r = reqNoMap cw !! r)
  ∧ (NoDup rs → ∀ i r, rs !! i = Some r →
       reqNoMap cw' !! r = Some (length h + i)%nat).
Proof.
  revert cw' h'. induction rs as [| x rs IH] using rev_ind; intros cw' h' Hf.
  - simpl in Hf. injection Hf as <- <-. simpl.
    rewrite !app_nil_r. split_and!; try reflexivity.
    intros _ i r Hi. rewrite lookup_nil in Hi. discriminate Hi.
  - rewrite foldl_app in Hf. simpl in Hf.
    destruct (foldl pushReqNo (cw, h) rs) as [cw1 h1] eqn:Hrs.
    destruct (IH cw1 h1 eq_refl) as (Hid & Hnext & Hlo & Hhi & Hcfg & Hl & Hh & Hout & Hin).
    simpl in Hf. injection Hf as <- <-. simpl.
    rewrite Hid, Hnext, Hlo, Hhi, Hcfg, Hl, Hh.
    rewrite length_app, fmap_app, length_fmap. simpl.
    split_and!; try reflexivity.
    + rewrite (length_app rs [x]). simpl.
      rewrite Nat.add_1_r, seq_S, app_assoc. reflexivity.
    + rewrite <- app_assoc. reflexivity.
    + intros r Hr. rewrite not_elem_of_app, not_elem_of_cons in Hr.
      destruct Hr as [Hr1 [Hr2 _]].
      rewrite lookup_insert_ne by congruence. apply Hout, Hr1.
    + intros Hnd i r Hi. apply NoDup_app in Hnd as (Hnd & Hdisj & _).
      apply lookup_app_Some in Hi as [Hi | [Hge Hi]].
      * assert (r ≠ x).
        { intros ->. apply (Hdisj x); [eapply list_elem_of_lookup_2; eassumption | left]. }
        rewrite lookup_insert_ne by congruence. apply Hin; assumption.
      * destruct (i - length rs)%nat as [| k] eqn:Hk; [| destruct k; discriminate Hi].
        simpl in Hi. injection Hi as ->.
        rewrite lookup_insert_eq. f_equal. lia.
Qed.

Lemma sameReqNos_refl h : sameReqNos h h.
Proof. intros p crn Hp. exists crn. split; [exact Hp | reflexivity]. Qed.

Lemma sameReqNos_trans h1 h2 h3 :
  sameReqNos h1 h2 → sameReqNos h2 h3 → sameReqNos h1 h3.
Proof.
  intros H12 H23 p crn Hp.
  destruct (H12 p crn Hp) as (crn2 & Hp2 & E2).
  destruct (H23 p crn2 Hp2) as (crn3 & Hp3 & E3).
  exists crn3. split; [exact Hp3 | congruence].
Qed.

Lemma sameReqNos_app h l : sameReqNos h (h ++ l).
Proof.
  intros p crn Hp. exists crn. split; [| reflexivity].
  apply lookup_app_l_Some, Hp.
Qed.

Lemma sameReqNos_insert h p crn crn' :
  h !! p = Some crn → reqNo crn' = reqNo crn → sameReqNos h (<[p := crn']> h).
Proof.
  intros Hp Er q c Hq. destruct (decide (p = q)) as [<- | Hne].
  - exists crn'. split; [| congruence].
    apply list_lookup_insert_eq. eapply lookup_lt_Some; eassumption.
  - exists c. split; [| reflexivity]. rewrite list_lookup_insert_ne by exact Hne. exact Hq.
Qed.

Lemma sameReqNos_markCommitted p s h : sameReqNos h (markCommitted p s h).
Proof.
  intros q c Hq. unfold markCommitted. destruct (decide (p = q)) as [<- | Hne].
  - exists (set_committed c (Some s)). split; [| reflexivity].
    rewrite list_lookup_alter_eq, Hq. reflexivity.
  - exists c. split; [| reflexivity]. rewrite list_lookup_alter_ne by exact Hne. exact Hq.
Qed.

Lemma windowInv_mono cw h h' : windowInv cw h → sameReqNos h h' → windowInv cw h'.
Proof.
  intros [Hu Hlen Hl Hd] Hs. split; try assumption.
  intros i p Hi. destruct (Hl i p Hi) as (Hm & crn & Hp & Er).
  split; [exact Hm |]. destruct (Hs p crn Hp) as (crn' & Hp' & Er').
  exists crn'. split; [exact Hp' | congruence].
Qed.

(** Within the watermarks the map yields a live location. *)
Lemma windowInv_lookup cw h r :
  windowInv cw h → lowWatermark cw <= r <= highWatermark cw →
  ∃ p crn, reqNoMap cw !! r = Some p ∧ h !! p = Some crn ∧ reqNo crn = r.
Proof.
  intros [Hu Hlen Hl Hd] Hr.
  assert (Hi : (Z.to_nat (r - lowWatermark cw) < length (reqNoList cw))%nat) by lia.
  apply lookup_lt_is_Some in Hi as [p Hp].
  destruct (Hl _ _ Hp) as (Hm & crn & Hh & Er).
  replace (lowWatermark cw + Z.of_nat (Z.to_nat (r - lowWatermark cw))) with r in * by lia.
  exists p, crn. split_and!; assumption.
Qed.

Lemma newClientWindow_Ok cid low high cfg h :
  high ≠ MaxUint64 →
  ∃ cw h', newClientWindow cid low high cfg h = Ok (cw, h').
Proof.
  intros Hne. unfold newClientWindow.
  destruct (decide (high = MaxUint64)); [contradiction |].
  destruct (foldl pushReqNo _ _) as [cw h']. exists cw, h'. reflexivity.
Qed.

Lemma newClientWindow_inv cid low high cfg h cw h' :
  0 <= low <= MaxUint64 → 0 <= high <= MaxUint64 →
  newClientWindow cid low high cfg h = Ok (cw, h') →
  windowInv cw h'
  ∧ lowWatermark cw = low ∧ highWatermark cw = high ∧ nextReadyMark cw = low
  ∧ cw_clientID cw = cid ∧ cw_networkConfig cw = cfg
  ∧ sameReqNos h h'.
Proof.
  intros Hlow Hhigh. unfold newClientWindow.
  destruct (decide (high = MaxUint64)); [discriminate |].
  intros [= Hf]. apply foldl_pushReqNo_spec in Hf.
  simpl in Hf. destruct Hf as (Hid & Hnext & Hlo & Hhi & Hcfg & Hl & Hh & Hout & Hin).
  specialize (Hin (NoDup_seqZ _ _)).
  split_and!; try assumption; [| subst h'; apply sameReqNos_app].
  split.
  - rewrite Hlo, Hhi. split; assumption.
  - rewrite Hl, Hlo, Hhi, length_seq, length_seqZ. lia.
  - intros i p Hi. rewrite Hl in Hi. apply lookup_seq in Hi as [-> Hi].
    rewrite length_seqZ in Hi.
    assert (Hrs : seqZ low (high - low + 1) !! i = Some (low + Z.of_nat i)).
    { apply lookup_seqZ_lt. lia. }
    rewrite Hlo. split; [apply Hin, Hrs |].
    exists (freshClientReqNo cid (low + Z.of_nat i)). split; [| reflexivity].
    rewrite Hh, lookup_app_r by lia.
    replace (length h + i - length h)%nat with i by lia.
    rewrite list_lookup_fmap, Hrs. reflexivity.
  - intros r. rewrite Hlo, Hhi.
    destruct (decide (r ∈ seqZ low (high - low + 1))) as [Hr | Hr].
    + split; [intros _; apply elem_of_seqZ in Hr; lia |].
      intros _. apply list_elem_of_lookup in Hr as [i Hi].
      rewrite (Hin _ _ Hi). eexists; reflexivity.
    + rewrite (Hout r Hr), lookup_empty. split; [intros [x Hx]; discriminate Hx |].
      intros Hrange. exfalso. apply Hr, elem_of_seqZ. lia.
Qed.

(** The first loop of the window's garbage collection on a list whose
    [i]-th element holds request number [lo + i]. *)
Lemma gc_front_spec maxSeqNo h els :
  ∀ lo next m removed,
  (∀ i p, els !! i = Some p → ∃ crn, h !! p = Some crn ∧ reqNo crn = lo + Z.of_nat i) →
  0 <= removed → removed + Z.of_nat (collectable maxSeqNo h els) <= MaxUint64 →
  ∃ m',
    gc_front maxSeqNo h els next m removed
    = Ok (drop (collectable maxSeqNo h els) els,
          (if decide (collectable maxSeqNo h els = 0%nat) then next
           else Z.max next (lo + Z.of_nat (collectable maxSeqNo h els) - 1)),
          m', removed + Z.of_nat (collectable maxSeqNo h els))
    ∧ (∀ r, m' !! r =
            if decide (lo <= r < lo + Z.of_nat (collectable maxSeqNo h els))
            then None else m !! r).
Proof.
  induction els as [| p rest IH]; intros lo next m removed Hels Hrem Hlen.
  - exists m. simpl. rewrite Z.add_0_r. split; [reflexivity |].
    intros r. rewrite decide_False by lia. reflexivity.
  - destruct (Hels 0%nat p eq_refl) as (crn & Hp & Er).
    rewrite Z.add_0_r in Er.
    simpl. unfold deref. rewrite Hp. simpl.
    destruct (uncommittedAfter (committed crn) maxSeqNo) eqn:Hun.
    + exists m. simpl. rewrite Z.add_0_r. split; [reflexivity |].
      intros r. rewrite decide_False by lia. reflexivity.
    + simpl in Hlen. rewrite Hp, Hun in Hlen.
      assert (Hw : wrap64 (removed + 1) = removed + 1) by (apply wrap64_small; lia).
      rewrite Hw.
      destruct (IH (lo + 1) (if decide (reqNo crn >= next) then reqNo crn else next)
                   (delete (reqNo crn) m) (removed + 1)) as (m' & Hgc & Hm').
      * intros i q Hi. destruct (Hels (S i) q Hi) as (c & Hq & Ec).
        exists c. split; [exact Hq | lia].
      * lia.
      * lia.
      * exists m'. rewrite Hgc. split.
        { rewrite (decide_False (P := S _ = 0%nat)) by lia. rewrite Er.
          simpl drop.
          replace (removed + 1 + Z.of_nat (collectable maxSeqNo h rest))
            with (removed + Z.of_nat (S (collectable maxSeqNo h rest))) by lia.
          match goal with
          | |- Ok (_, ?a, _, _) = Ok (_, ?b, _, _) => assert (E : a = b); [| rewrite E; reflexivity]
          end.
          destruct (decide (collectable maxSeqNo h rest = 0%nat)) as [E0 | E0];
            [rewrite E0 |]; destruct (decide (lo >= next)); lia. }
        intros r. rewrite Hm', Er.
        destruct (decide (lo + 1 <= r < _)); destruct (decide (lo <= r < _)); try lia;
          try reflexivity.
        -- assert (r = lo) as -> by lia. apply lookup_delete_eq.
        -- apply lookup_delete_ne. lia.
Qed.

Lemma collectable_le maxSeqNo h els : (collectable maxSeqNo h els <= length els)%nat.
Proof.
  induction els as [| p rest IH]; simpl; [lia |].
  destruct (h !! p) as [crn |]; [| lia].
  destruct (uncommittedAfter _ _); lia.
Qed.

Lemma gc_new_reqNos high k :
  0 <= high → high + k <= MaxUint64 →
  (λ i, wrap64 (i + high)) <$> seqZ 1 k = seqZ (high + 1) k.
Proof.
  intros Hh Hk. apply list_eq. intros i.
  rewrite list_lookup_fmap.
  destruct (decide (Z.of_nat i < k)) as [Hi | Hi].
  - rewrite !lookup_seqZ_lt by exact Hi. simpl. f_equal.
    rewrite wrap64_small by lia. lia.
  - rewrite !lookup_seqZ_ge by lia. reflexivity.
Qed.

(** What [clientWindow.garbageCollect] does to a window that satisfies the
    invariant, when the high watermark does not wrap around: with [k] the
    number of collected elements, both watermarks advance by [k], the ready
    mark becomes the last collected request number when it was not beyond
    it, and the invariant holds again. *)
Lemma cw_garbageCollect_spec maxSeqNo cw h :
  windowInv cw h →
  highWatermark cw + Z.of_nat (collectable maxSeqNo h (reqNoList cw)) <= MaxUint64 →
  ∃ cw' h',
    cw_garbageCollect maxSeqNo cw h = Ok (cw', h')
    ∧ lowWatermark cw' = lowWatermark cw + Z.of_nat (collectable maxSeqNo h (reqNoList cw))
    ∧ highWatermark cw' = highWatermark cw + Z.of_nat (collectable maxSeqNo h (reqNoList cw))
    ∧ nextReadyMark cw' =
        (if decide (collectable maxSeqNo h (reqNoList cw) = 0%nat) then nextReadyMark cw
         else Z.max (nextReadyMark cw)
                (lowWatermark cw + Z.of_nat (collectable maxSeqNo h (reqNoList cw)) - 1))
    ∧ cw_clientID cw' = cw_clientID cw
    ∧ cw_networkConfig cw' = cw_networkConfig cw
    ∧ reqNoList cw' = drop (collectable maxSeqNo h (reqNoList cw)) (reqNoList cw)
                      ++ seq (length h) (collectable maxSeqNo h (reqNoList cw))
    ∧ sameReqNos h h'
    ∧ (∃ l, h' = h ++ l)
    ∧ windowInv cw' h'.
Proof.
  intros Hinv Hno. pose proof Hinv as [Hu Hlen Hl Hd].
  set (k := collectable maxSeqNo h (reqNoList cw)) in *.
  assert (Hk : (k <= length (reqNoList cw))%nat) by apply collectable_le.
  unfold cw_garbageCollect.
  destruct (gc_front_spec maxSeqNo h (reqNoList cw) (lowWatermark cw)
              (nextReadyMark cw) (reqNoMap cw) 0) as (m' & Hgc & Hm').
  { intros i p Hi. destruct (Hl i p Hi) as (_ & crn & Hp & Er). exists crn. split; assumption. }
  { lia. }
  { fold k. lia. }
  fold k in Hgc, Hm'. rewrite Z.add_0_l in Hgc. rewrite Hgc. simpl.
  destruct (decide (Z.of_nat k = MaxUint64)) as [Hbad | _].
  { exfalso. unfold MaxUint64 in *. lia. }
  rewrite <- (foldl_fmap pushReqNo _ (seqZ 1 (Z.of_nat k)) (λ i, wrap64 (i + highWatermark cw))).
  rewrite gc_new_reqNos by lia.
  destruct (foldl pushReqNo _ _) as [cw2 h2] eqn:Hf.
  apply foldl_pushReqNo_spec in Hf. simpl in Hf.
  destruct Hf as (Hid & Hnext & Hlo & Hhi & Hcfg & Hl2 & Hh2 & Hout & Hin).
  specialize (Hin (NoDup_seqZ _ _)).
  rewrite length_seqZ, Nat2Z.id in Hl2.
  rewrite Hlo, Hhi.
  assert (Hwlo : wrap64 (lowWatermark cw + Z.of_nat k) = lowWatermark cw + Z.of_nat k).
  { apply wrap64_small. lia. }
  assert (Hwhi : wrap64 (highWatermark cw + Z.of_nat k) = highWatermark cw + Z.of_nat k).
  { apply wrap64_small. lia. }
  rewrite Hwlo, Hwhi.
  eexists _, h2. split; [reflexivity |]. simpl.
  split_and!; try reflexivity; try assumption.
  { subst h2. apply sameReqNos_app. }
  { eexists. exact Hh2. }
  split; simpl.
  - lia.
  - rewrite Hl2, length_app, length_drop, length_seq. lia.
  - intros i p Hi. rewrite Hl2 in Hi. unfold liveAt. simpl.
    apply lookup_app_Some in Hi as [Hi | [Hge Hi]].
    + rewrite lookup_drop in Hi. destruct (Hl _ _ Hi) as (Hm & crn & Hp & Er).
      assert (Hlt : (k + i < length (reqNoList cw))%nat) by (eapply lookup_lt_Some; eassumption).
      split.
      * rewrite Hout.
        -- rewrite Hm'. rewrite decide_False by lia.
           rewrite <- Hm. f_equal. lia.
        -- rewrite elem_of_seqZ. lia.
      * exists crn. split; [rewrite Hh2; apply lookup_app_l_Some, Hp | lia].
    + rewrite length_drop in Hge, Hi. apply lookup_seq in Hi as [-> Hi].
      set (j := (i - (length (reqNoList cw) - k))%nat) in *.
      assert (Hrs : seqZ (highWatermark cw + 1) (Z.of_nat k) !! j
                    = Some (highWatermark cw + 1 + Z.of_nat j)).
      { apply lookup_seqZ_lt. lia. }
      assert (Er : lowWatermark cw + Z.of_nat k + Z.of_nat i
                   = highWatermark cw + 1 + Z.of_nat j) by lia.
      rewrite Er. split; [apply Hin, Hrs |].
      exists (freshClientReqNo (cw_clientID cw) (highWatermark cw + 1 + Z.of_nat j)).
      split; [| reflexivity].
      rewrite Hh2, lookup_app_r by lia.
      replace (length h + j - length h)%nat with j by lia.
      rewrite list_lookup_fmap, Hrs. reflexivity.
  - intros r. simpl.
    destruct (decide (r ∈ seqZ (highWatermark cw + 1) (Z.of_nat k))) as [Hr | Hr].
    + split; [intros _; apply elem_of_seqZ in Hr; lia |].
      intros _. apply list_elem_of_lookup in Hr as [i Hi].
      rewrite (Hin _ _ Hi). eexists; reflexivity.
    + rewrite (Hout r Hr), Hm'. rewrite elem_of_seqZ in Hr.
      destruct (decide (lowWatermark cw <= r < lowWatermark cw + Z.of_nat k)).
      * split; [intros [x Hx]; discriminate Hx | lia].
      * rewrite (Hd r). lia.
Qed.

Lemma cw_ack_sameReqNos source reqno dg cw h r h' :
  cw_ack source reqno dg cw h = Ok (r, h') → sameReqNos h h'.
Proof.
  unfold cw_ack.
  destruct (decide (reqno > highWatermark cw)); [discriminate |].
  destruct (decide (reqno < lowWatermark cw)); [discriminate |].
  destruct (reqNoMap cw !! reqno) as [p |]; [| discriminate].
  unfold deref. destruct (h !! p) as [crn |] eqn:Hp; [| discriminate].
  simpl. intros [= _ <-].
  eapply sameReqNos_insert; [exact Hp |].
  destruct (decide (_ = intersectionQuorum _)); reflexivity.
Qed.

Lemma cw_allocate_sameReqNos rq dg cw h p nc h' :
  cw_allocate rq dg cw h = Ok (p, nc, h') → sameReqNos h h'.
Proof.
  unfold cw_allocate.
  destruct (decide (req_ReqNo rq > highWatermark cw)); [discriminate |].
  destruct (decide (req_ReqNo rq < lowWatermark cw)); [discriminate |].
  destruct (reqNoMap cw !! req_ReqNo rq) as [q |]; [| discriminate].
  unfold deref. destruct (h !! q) as [crn |] eqn:Hq; [| discriminate].
  simpl. intros [= _ _ <-].
  eapply sameReqNos_insert; [exact Hq |].
  destruct (decide (_ = intersectionQuorum _)); reflexivity.
Qed.

Lemma cw_ack_Ok source reqno dg cw h :
  windowInv cw h → lowWatermark cw <= reqno <= highWatermark cw →
  is_Ok (cw_ack source reqno dg cw h).
Proof.
  intros Hinv Hr. destruct (windowInv_lookup cw h reqno Hinv Hr) as (p & crn & Hm & Hp & _).
  unfold cw_ack.
  destruct (decide (reqno > highWatermark cw)); [lia |].
  destruct (decide (reqno < lowWatermark cw)); [lia |].
  rewrite Hm. unfold deref. rewrite Hp. simpl. eexists. reflexivity.
Qed.

Lemma cw_allocate_Ok rq dg cw h :
  windowInv cw h → lowWatermark cw <= req_ReqNo rq <= highWatermark cw →
  is_Ok (cw_allocate rq dg cw h).
Proof.
  intros Hinv Hr.
  destruct (windowInv_lookup cw h _ Hinv Hr) as (p & crn & Hm & Hp & _).
  unfold cw_allocate.
  destruct (decide (req_ReqNo rq > highWatermark cw)); [lia |].
  destruct (decide (req_ReqNo rq < lowWatermark cw)); [lia |].
  rewrite Hm. unfold deref. rewrite Hp. simpl. eexists. reflexivity.
Qed.

Lemma cw_request_Ok reqno cw h :
  windowInv cw h → lowWatermark cw <= reqno <= highWatermark cw →
  is_Ok (cw_request reqno cw).
Proof.
  intros Hinv Hr. destruct (windowInv_lookup cw h reqno Hinv Hr) as (p & crn & Hm & _).
  unfold cw_request.
  destruct (decide (reqno > highWatermark cw)); [lia |].
  destruct (decide (reqno < lowWatermark cw)); [lia |].
  rewrite Hm. eexists. reflexivity.
Qed.

(** C9, as stated, fails: the window over the two largest request numbers
    satisfies the invariant; collecting its first element moves the high
    watermark past the largest [uint64], to 0, while the low watermark is
    the largest [uint64]: request number 0 is in the map and no request
    number is within the watermarks. *)
Lemma cw_garbageCollect_wraps_watermark :
  ∃ cw h cw' h',
    windowAtMax = Ok (cw, h)
    ∧ windowInv cw h
    ∧ cw_garbageCollect 2 cw h = Ok (cw', h')
    ∧ ¬ domainIsWindow cw'.
Proof.
  exists (windowOf windowAtMax), (heapOf windowAtMax),
    (windowOf (thenCollect 2 windowAtMax)), (heapOf (thenCollect 2 windowAtMax)).
  split; [vm_compute; reflexivity |].
  split.
  - destruct (newClientWindow_Ok 7 (MaxUint64 - 2) (MaxUint64 - 1) exampleConfig [])
      as (cw0 & h0 & E0); [unfold MaxUint64; lia |].
    destruct (newClientWindow_inv 7 (MaxUint64 - 2) (MaxUint64 - 1) exampleConfig []
                cw0 h0) as (Hinv0 & Hlo0 & Hhi0 & _);
      [unfold MaxUint64; lia | unfold MaxUint64; lia | exact E0 |].
    assert (Hinv0' : windowInv cw0 (markCommitted 0 1 h0)).
    { eapply windowInv_mono; [exact Hinv0 | apply sameReqNos_markCommitted]. }
    assert (Ek : collectable 1 (markCommitted 0 1 h0) (reqNoList cw0) = 1%nat).
    { revert E0. vm_compute. intros [= <- <-]. reflexivity. }
    destruct (cw_garbageCollect_spec 1 cw0 (markCommitted 0 1 h0) Hinv0')
      as (cw1 & h1 & E1 & _ & _ & _ & _ & _ & _ & _ & _ & Hinv1).
    { rewrite Ek, Hhi0. unfold MaxUint64. lia. }
    assert (Ew : windowAtMax = Ok (cw1, markCommitted 1 2 h1)).
    { unfold windowAtMax. rewrite E0. simpl. rewrite E1. reflexivity. }
    unfold windowOf, heapOf. rewrite Ew. simpl.
    eapply windowInv_mono; [exact Hinv1 | apply sameReqNos_markCommitted].
  - split; [vm_compute; reflexivity |].
    intros Hdom. specialize (Hdom 0). destruct Hdom as [Hdom _].
    assert (H0 : is_Some (reqNoMap (windowOf (thenCollect 2 windowAtMax)) !! 0)).
    { vm_compute. eexists. reflexivity. }
    specialize (Hdom H0). vm_compute in Hdom. destruct Hdom as [Hdom _].
    apply Hdom. reflexivity.
Qed.

(** C9 (amended): the domain of [reqNoMap] is exactly the interval of the
    watermarks (with the list in order and every location live) after
    [newClientWindow]; [ack] and [allocate] keep it; [garbageCollect]
    keeps it when the high watermark plus the number of collected elements
    does not exceed the largest [uint64]; and under it no call of [ack],
    [allocate] or [request] for a request number within the watermarks
    panics. *)
Theorem reqNoMap_domain_invariant :
  (∀ cid low high cfg h cw h',
     0 <= low <= MaxUint64 → 0 <= high <= MaxUint64 →
     newClientWindow cid low high cfg h = Ok (cw, h') → windowInv cw h')
  ∧ (∀ source reqno dg cw h r h',
     windowInv cw h → cw_ack source reqno dg cw h = Ok (r, h') → windowInv cw h')
  ∧ (∀ rq dg cw h p nc h',
     windowInv cw h → cw_allocate rq dg cw h = Ok (p, nc, h') → windowInv cw h')
  ∧ (∀ maxSeqNo cw h,
     windowInv cw h →
     highWatermark cw + Z.of_nat (collectable maxSeqNo h (reqNoList cw)) <= MaxUint64 →
     ∃ cw' h', cw_garbageCollect maxSeqNo cw h = Ok (cw', h') ∧ windowInv cw' h')
  ∧ (∀ cw h reqno,
     windowInv cw h → lowWatermark cw <= reqno <= highWatermark cw →
     (∀ source dg, is_Ok (cw_ack source reqno dg cw h))
     ∧ (∀ rq dg, req_ReqNo rq = reqno → is_Ok (cw_allocate rq dg cw h))
     ∧ is_Ok (cw_request reqno cw)).
Proof.
  split_and!.
  - intros cid low high cfg h cw h' Hlow Hhigh Hnew.
    apply (newClientWindow_inv _ _ _ _ _ _ _ Hlow Hhigh Hnew).
  - intros source reqno dg cw h r h' Hinv Hack.
    eapply windowInv_mono; [exact Hinv | eapply cw_ack_sameReqNos; exact Hack].
  - intros rq dg cw h p nc h' Hinv Hal.
    eapply windowInv_mono; [exact Hinv | eapply cw_allocate_sameReqNos; exact Hal].
  - intros maxSeqNo cw h Hinv Hno.
    destruct (cw_garbageCollect_spec maxSeqNo cw h Hinv Hno)
      as (cw' & h' & E & _ & _ & _ & _ & _ & _ & _ & _ & Hinv').
    exists cw', h'. split; assumption.
  - intros cw h reqno Hinv Hr. split_and!.
    + intros source dg. apply cw_ack_Ok; assumption.
    + intros rq dg <-. apply cw_allocate_Ok; assumption.
    + eapply cw_request_Ok; eassumption.
Qed.

(** The invariant of the example window, and an acknowledgement in it,
    through the theorem. *)
Lemma reqNoMap_domain_invariant_witness :
  ∃ cw h, exampleWindow = Ok (cw, h) ∧ windowInv cw h
          ∧ is_Ok (cw_ack 1 0 "d" cw h).
Proof.
  destruct reqNoMap_domain_invariant as (Hnew & _ & _ & _ & Hok).
  destruct (newClientWindow_Ok 7 0 2 exampleConfig []) as (cw & h & E);
    [unfold MaxUint64; lia |].
  exists cw, h. split; [exact E |].
  assert (Hinv : windowInv cw h).
  { apply (Hnew 7 0 2 exampleConfig [] cw h); [unfold MaxUint64; lia .. | exact E]. }
  split; [exact Hinv |].
  destruct (newClientWindow_inv 7 0 2 exampleConfig [] cw h) as (_ & Hlo & Hhi & _);
    [unfold MaxUint64; lia | unfold MaxUint64; lia | exact E |].
  apply (Hok cw h 0 Hinv). rewrite Hlo, Hhi. lia.
Defined.

(** ** The ready mark after garbage collection *)

(** When the ready mark is not beyond the last collected request number,
    [garbageCollect] leaves it on that request number, one short of the
    new low watermark. *)
Lemma cw_garbageCollect_mark_one_short maxSeqNo cw h :
  windowInv cw h →
  highWatermark cw + Z.of_nat (collectable maxSeqNo h (reqNoList cw)) <= MaxUint64 →
  (0 < collectable maxSeqNo h (reqNoList cw))%nat →
  nextReadyMark cw < lowWatermark cw + Z.of_nat (collectable maxSeqNo h (reqNoList cw)) →
  ∃ cw' h',
    cw_garbageCollect maxSeqNo cw h = Ok (cw', h')
    ∧ nextReadyMark cw' = lowWatermark cw' - 1.
Proof.
  intros Hinv Hno Hk Hlag.
  destruct (cw_garbageCollect_spec maxSeqNo cw h Hinv Hno)
    as (cw' & h' & E & Hlo & _ & Hnext & _).
  exists cw', h'. split; [exact E |].
  rewrite Hnext, Hlo. rewrite decide_False by lia. lia.
Qed.

(** C1, the failing input: request number 0 of the window over 0..2
    committed at sequence number 1 before the window ever saw it as ready,
    so the ready mark is 0.  Garbage collection up to 1 slides the window
    to 1..3 and leaves the ready mark at 0, below the low watermark. *)
Theorem cw_garbageCollect_mark_lags :
  ∃ cw h cw' h',
    committedUnseen = Ok (cw, h)
    ∧ windowInv cw h
    ∧ lowWatermark cw <= nextReadyMark cw <= highWatermark cw + 1
    ∧ cw_garbageCollect 1 cw h = Ok (cw', h')
    ∧ lowWatermark cw' = 1 ∧ highWatermark cw' = 3 ∧ nextReadyMark cw' = 0.
Proof.
  exists (windowOf committedUnseen), (heapOf committedUnseen),
    (windowOf (thenCollect 1 committedUnseen)), (heapOf (thenCollect 1 committedUnseen)).
  split; [vm_compute; reflexivity |].
  split.
  - destruct (newClientWindow_Ok 7 0 2 exampleConfig []) as (cw0 & h0 & E0);
      [unfold MaxUint64; lia |].
    destruct (newClientWindow_inv 7 0 2 exampleConfig [] cw0 h0) as (Hinv0 & _);
      [unfold MaxUint64; lia | unfold MaxUint64; lia | exact E0 |].
    assert (Ew : committedUnseen = Ok (cw0, markCommitted 0 1 h0)).
    { unfold committedUnseen, exampleWindow. rewrite E0. reflexivity. }
    unfold windowOf, heapOf. rewrite Ew. simpl.
    eapply windowInv_mono; [exact Hinv0 | apply sameReqNos_markCommitted].
  - split; [vm_compute; split; discriminate |].
    split; [vm_compute; reflexivity |].
    split_and!; vm_compute; reflexivity.
Qed.

(** ** The ready list *)

Lemma chain_head es p ns : chain es p ns → ∃ ns', ns = p :: ns'.
Proof. intros [? ? ? ? | ? ? ? ? ? ? ?]; eexists; reflexivity. Qed.

Lemma chain_functional es p ns1 :
  chain es p ns1 → ∀ ns2, chain es p ns2 → ns1 = ns2.
Proof.
  induction 1 as [p e Hp Hn | p e q ns Hp Hn Hc IH]; intros ns2 H2.
  - inversion H2; subst; [reflexivity | congruence].
  - inversion H2 as [? e' Hp' Hn' | ? e' q' ns' Hp' Hn' Hc']; subst; [congruence |].
    assert (q' = q) as -> by congruence. f_equal. apply IH, Hc'.
Qed.

Lemma chain_suffix es p ns :
  chain es p ns → ∀ x, x ∈ ns → ∃ ns', chain es x ns' ∧ (length ns' <= length ns)%nat.
Proof.
  induction 1 as [p e Hp Hn | p e q ns Hp Hn Hc IH]; intros x Hx.
  - apply list_elem_of_singleton in Hx as ->. exists [p].
    split; [econstructor; eassumption | lia].
  - apply elem_of_cons in Hx as [-> | Hx].
    + exists (p :: ns). split; [econstructor; eassumption | lia].
    + destruct (IH x Hx) as (ns' & Hc' & Hlen). exists ns'. split; [exact Hc' | simpl; lia].
Qed.

Lemma chain_NoDup es p ns : chain es p ns → NoDup ns.
Proof.
  induction 1 as [p e Hp Hn | p e q ns Hp Hn Hc IH].
  - apply NoDup_singleton.
  - apply NoDup_cons. split; [| exact IH].
    intros Hin. destruct (chain_suffix _ _ _ Hc p Hin) as (ns' & Hc' & Hlen).
    assert (E : ns' = p :: ns).
    { eapply chain_functional; [exact Hc' | econstructor; eassumption]. }
    subst ns'. simpl in Hlen. lia.
Qed.

Lemma chain_bound es p ns : chain es p ns → ∀ n, n ∈ ns → (n < length es)%nat.
Proof.
  induction 1 as [p e Hp Hn | p e q ns Hp Hn Hc IH]; intros n Hin.
  - apply list_elem_of_singleton in Hin as ->. eapply lookup_lt_Some; eassumption.
  - apply elem_of_cons in Hin as [-> | Hin]; [eapply lookup_lt_Some; eassumption | auto].
Qed.

Lemma chain_last_entry es p ns t :
  chain es p ns → last ns = Some t → ∃ e, es !! t = Some e ∧ re_next e = None.
Proof.
  induction 1 as [p e Hp Hn | p e q ns Hp Hn Hc IH]; intros Hl.
  - simpl in Hl. injection Hl as <-. exists e. split; assumption.
  - destruct (chain_head _ _ _ Hc) as (ns' & ->). apply IH. exact Hl.
Qed.

(** A chain is not affected by writes outside of it. *)
Lemma chain_frame es es' p ns :
  chain es p ns → (∀ n, n ∈ ns → es' !! n = es !! n) → chain es' p ns.
Proof.
  induction 1 as [p e Hp Hn | p e q ns Hp Hn Hc IH]; intros Hsame.
  - eapply chain_last; [rewrite Hsame; [exact Hp | left] | exact Hn].
  - eapply chain_cons; [rewrite Hsame; [exact Hp | left] | exact Hn |].
    apply IH. intros n Hin. apply Hsame. right. exact Hin.
Qed.

Lemma entryReqNos_cons es n ns :
  entryReqNos es (n :: ns)
  = match re_clientReqNo <$> es !! n with
    | Some c => c :: entryReqNos es ns
    | None => entryReqNos es ns
    end.
Proof. reflexivity. Qed.

Lemma entryReqNos_frame es es' ns :
  (∀ n, n ∈ ns → re_clientReqNo <$> es' !! n = re_clientReqNo <$> es !! n) →
  entryReqNos es' ns = entryReqNos es ns.
Proof.
  induction ns as [| n ns IH]; intros Hsame; [reflexivity |].
  rewrite !entryReqNos_cons, (Hsame n) by left.
  rewrite IH; [reflexivity |]. intros m Hm. apply Hsame. right. exact Hm.
Qed.

Lemma entryReqNos_app es ns1 ns2 :
  entryReqNos es (ns1 ++ ns2) = entryReqNos es ns1 ++ entryReqNos es ns2.
Proof. unfold entryReqNos. apply omap_app. Qed.

(** Appending to a chain at its last entry. *)
Lemma chain_append es p ns t e c :
  chain es p ns → last ns = Some t → es !! t = Some e →
  chain (<[t := {| re_next := Some (length es); re_clientReqNo := re_clientReqNo e |}]> es
           ++ [{| re_next := None; re_clientReqNo := c |}])
        p (ns ++ [length es]).
Proof.
  intros Hc Hl Ht.
  assert (Hlt : (t < length es)%nat) by (eapply lookup_lt_Some; eassumption).
  set (es' := <[t := _]> es ++ _).
  assert (Hnew : es' !! length es = Some {| re_next := None; re_clientReqNo := c |}).
  { unfold es'. rewrite lookup_app_r by (rewrite length_insert; lia).
    rewrite length_insert, Nat.sub_diag. reflexivity. }
  assert (Htl : es' !! t = Some {| re_next := Some (length es);
                                   re_clientReqNo := re_clientReqNo e |}).
  { unfold es'. rewrite lookup_app_l by (rewrite length_insert; lia).
    apply list_lookup_insert_eq. exact Hlt. }
  assert (Hother : ∀ n x, n ≠ t → es !! n = Some x → es' !! n = Some x).
  { intros n x Hne Hn. unfold es'.
    rewrite lookup_app_l by (rewrite length_insert; eapply lookup_lt_Some; eassumption).
    rewrite list_lookup_insert_ne by congruence. exact Hn. }
  destruct (chain_last_entry _ _ _ _ Hc Hl) as (e0 & Ht0 & Hnone).
  assert (e0 = e) as -> by congruence.
  clearbody es'. revert Hl.
  induction Hc as [p e1 Hp Hn | p e1 q ns Hp Hn Hc IH]; intros Hl.
  - simpl in Hl. injection Hl as ->. simpl.
    eapply chain_cons; [exact Htl | reflexivity |].
    eapply chain_last; [exact Hnew | reflexivity].
  - destruct (chain_head _ _ _ Hc) as (ns' & ->).
    assert (p ≠ t) by (intros ->; congruence).
    simpl. eapply chain_cons; [apply Hother; eassumption | exact Hn |].
    apply IH. exact Hl.
Qed.

Lemma set_ready_id st : set_ready st (readyTail st) (readyEntries st) = st.
Proof. destruct st. reflexivity. Qed.

Lemma set_nextReadyMark_id cw : set_nextReadyMark cw (nextReadyMark cw) = cw.
Proof. destruct cw. reflexivity. Qed.

Lemma windowInv_set_nextReadyMark cw h n :
  windowInv cw h → windowInv (set_nextReadyMark cw n) h.
Proof. intros [Hu Hlen Hl Hd]. split; assumption. Qed.

Lemma windowInv_size cw h :
  windowInv cw h → size (reqNoMap cw) = length (reqNoList cw).
Proof.
  intros [Hu Hlen Hl Hd].
  assert (Hdom : dom (reqNoMap cw)
                 = list_to_set (seqZ (lowWatermark cw)
                                  (highWatermark cw - lowWatermark cw + 1))).
  { apply set_eq. intros r. rewrite elem_of_dom, elem_of_list_to_set, elem_of_seqZ, (Hd r). lia. }
  rewrite <- size_dom, Hdom, size_list_to_set by apply NoDup_seqZ.
  rewrite length_seqZ. lia.
Qed.

Lemma appendReady_spec p st ns :
  readyChain st ns →
  ∃ es',
    appendReady p st = Ok (set_ready st (length (readyEntries st)) es')
    ∧ length es' = S (length (readyEntries st))
    ∧ chain es' (readyHead st) (ns ++ [length (readyEntries st)])
    ∧ entryReqNos es' (ns ++ [length (readyEntries st)])
      = entryReqNos (readyEntries st) ns ++ [p].
Proof.
  intros [Hc Hl].
  destruct (chain_last_entry _ _ _ _ Hc Hl) as (e & Ht & Hnone).
  assert (Hlt : (readyTail st < length (readyEntries st))%nat)
    by (eapply lookup_lt_Some; eassumption).
  unfold appendReady, deref. rewrite Ht. simpl.
  eexists. split; [reflexivity |].
  split; [rewrite length_app, length_insert; simpl; lia |].
  split; [apply chain_append; assumption |].
  rewrite entryReqNos_app. f_equal.
  - apply entryReqNos_frame. intros n Hn.
    assert (Hnlt : (n < length (readyEntries st))%nat) by (eapply chain_bound; eassumption).
    rewrite lookup_app_l by (rewrite length_insert; exact Hnlt).
    destruct (decide (n = readyTail st)) as [-> | Hne].
    + rewrite list_lookup_insert_eq by exact Hlt. rewrite Ht. reflexivity.
    + rewrite list_lookup_insert_ne by congruence. reflexivity.
  - unfold entryReqNos. simpl.
    rewrite lookup_app_r by (rewrite length_insert; lia).
    rewrite length_insert, Nat.sub_diag. reflexivity.
Qed.

Lemma isReady_spec crn :
  isReady crn = true ↔
  ∃ k cr rq, strongRequest crn = Some k ∧ digests crn !! k = Some cr ∧ data cr = Some rq.
Proof.
  unfold isReady, strongRequest_target.
  destruct (strongRequest crn) as [k |] eqn:Hs; simpl.
  - destruct (digests crn !! k) as [cr |] eqn:Hcr; simpl.
    + destruct (data cr) as [rq |] eqn:Hd.
      * split; [intros _; exists k, cr, rq; auto |].
        intros _. apply bool_decide_eq_true. eexists; reflexivity.
      * split; [intros H; apply bool_decide_eq_true in H as [x Hx]; discriminate Hx |].
        intros (k' & cr' & rq & E1 & E2 & E3). injection E1 as <-.
        rewrite Hcr in E2. injection E2 as <-. congruence.
    + split; [discriminate |].
      intros (k' & cr' & rq & E1 & E2 & _). injection E1 as <-. congruence.
  - split; [discriminate |]. intros (k' & cr' & rq & E1 & _). discriminate E1.
Qed.

(** The loop of [advanceReady] from [i]: it appends the entries for the
    request numbers [i], [i+1], ... that are ready, as far as they go. *)
Lemma advanceReady_loop_spec fuel :
  ∀ i cw st ns,
  windowInv cw (crns st) → strongPointersValid (crns st) → readyChain st ns →
  nextReadyMark cw = i → lowWatermark cw <= i → highWatermark cw < MaxUint64 →
  (Z.to_nat (highWatermark cw + 1 - i) < fuel)%nat →
  ∃ (k : nat) tl es' ps,
    advanceReady_loop fuel i cw st
    = Ok (set_nextReadyMark cw (i + Z.of_nat k), set_ready st tl es')
    ∧ chain es' (readyHead st) (ns ++ seq (length (readyEntries st)) k)
    ∧ last (ns ++ seq (length (readyEntries st)) k) = Some tl
    ∧ entryReqNos es' (ns ++ seq (length (readyEntries st)) k)
      = entryReqNos (readyEntries st) ns ++ ps
    ∧ Forall2 (λ p r, reqNoMap cw !! r = Some p) ps (seqZ i (Z.of_nat k))
    ∧ (∀ r, i <= r < i + Z.of_nat k → readyAt cw (crns st) r)
    ∧ (i + Z.of_nat k <= highWatermark cw → ¬ readyAt cw (crns st) (i + Z.of_nat k)).
Proof.
  induction fuel as [| fuel IH]; intros i cw st ns Hinv Hsp Hrc Hmark Hlow Hhigh Hfuel; [lia |].
  assert (Hstop : ∀ (Hnot : i <= highWatermark cw → ¬ readyAt cw (crns st) i),
    ∃ (k : nat) tl es' ps,
      Ok (cw, st) = Ok (set_nextReadyMark cw (i + Z.of_nat k), set_ready st tl es')
      ∧ chain es' (readyHead st) (ns ++ seq (length (readyEntries st)) k)
      ∧ last (ns ++ seq (length (readyEntries st)) k) = Some tl
      ∧ entryReqNos es' (ns ++ seq (length (readyEntries st)) k)
        = entryReqNos (readyEntries st) ns ++ ps
      ∧ Forall2 (λ p r, reqNoMap cw !! r = Some p) ps (seqZ i (Z.of_nat k))
      ∧ (∀ r, i <= r < i + Z.of_nat k → readyAt cw (crns st) r)
      ∧ (i + Z.of_nat k <= highWatermark cw → ¬ readyAt cw (crns st) (i + Z.of_nat k))).
  { intros Hnot. exists 0%nat, (readyTail st), (readyEntries st), [].
    simpl. rewrite Z.add_0_r, !app_nil_r, set_ready_id, <- Hmark, set_nextReadyMark_id.
    destruct Hrc as [Hc Hl].
    split_and!; try reflexivity; try assumption.
    - constructor.
    - intros r Hr. lia.
    - rewrite Hmark. exact Hnot. }
  simpl. destruct (decide (i <= highWatermark cw)) as [Hle | Hgt]; [| apply Hstop; lia].
  destruct (windowInv_lookup cw (crns st) i Hinv ltac:(lia)) as (p & crn & Hm & Hp & Er).
  rewrite Hm. unfold deref. rewrite Hp. simpl.
  assert (Hnotready : isReady crn = false → i <= highWatermark cw → ¬ readyAt cw (crns st) i).
  { intros Hf _ (p' & crn' & Hm' & Hp' & Hr').
    assert (p' = p) as -> by congruence. assert (crn' = crn) as -> by congruence.
    congruence. }
  destruct (strongRequest crn) as [k0 |] eqn:Hs.
  2:{ apply Hstop, Hnotready. unfold isReady, strongRequest_target. rewrite Hs. reflexivity. }
  destruct (Hsp p crn k0 Hp Hs) as [cr Hcr].
  unfold request_deref. rewrite Hcr. simpl.
  destruct (data cr) as [rq |] eqn:Hdata.
  2:{ apply Hstop, Hnotready. unfold isReady, strongRequest_target. rewrite Hs. simpl.
      rewrite Hcr, Hdata. apply bool_decide_eq_false. intros [x Hx]. discriminate Hx. }
  destruct (appendReady_spec p st ns Hrc) as (es1 & Happ & Hlen1 & Hc1 & He1).
  rewrite Happ. simpl.
  assert (Hw : wrap64 (i + 1) = i + 1) by (apply wrap64_small; destruct Hinv as [[? ?] _ _ _]; lia).
  rewrite Hw.
  set (q := length (readyEntries st)) in *.
  destruct (IH (i + 1) (set_nextReadyMark cw (i + 1)) (set_ready st q es1) (ns ++ [q]))
    as (k & tl & es' & ps & Hrun & Hc & Hl & He & Hps & Hready & Hnot).
  { apply windowInv_set_nextReadyMark. exact Hinv. }
  { exact Hsp. }
  { split; [exact Hc1 | apply last_snoc]. }
  { reflexivity. }
  { simpl. lia. }
  { exact Hhigh. }
  { simpl. lia. }
  simpl in Hrun, Hc, Hl, He. rewrite Hlen1 in Hc, Hl, He.
  exists (S k), tl, es', (p :: ps).
  assert (Eseq : ns ++ seq q (S k) = (ns ++ [q]) ++ seq (S q) k).
  { rewrite <- app_assoc. reflexivity. }
  rewrite Eseq.
  split_and!.
  - rewrite Hrun. do 2 f_equal. unfold set_nextReadyMark. simpl. f_equal. lia.
  - exact Hc.
  - exact Hl.
  - rewrite He, He1, <- app_assoc. reflexivity.
  - rewrite seqZ_cons by lia. constructor; [exact Hm |].
    replace (Z.pred (Z.of_nat (S k))) with (Z.of_nat k) by lia. exact Hps.
  - intros r Hr. destruct (decide (r = i)) as [-> | Hne].
    + exists p, crn. split_and!; try assumption.
      apply isReady_spec. exists k0, cr, rq. auto.
    + apply (Hready r). lia.
  - replace (i + Z.of_nat (S k)) with (i + 1 + Z.of_nat k) by lia. exact Hnot.
Qed.

Lemma cws_advanceReady_unfold st cid cw :
  windows st !! cid = Some cw →
  cws_advanceReady cid st
  = '(cw', st') ← advanceReady_loop (S (size (reqNoMap cw))) (nextReadyMark cw) cw st;
    Ok (set_windows st' (<[cid := cw']> (windows st'))).
Proof. intros Hw. unfold cws_advanceReady, window_deref. rewrite Hw. reflexivity. Qed.

(** The effect of [advanceReady] on a well-formed window and ready list. *)
Lemma cws_advanceReady_run st cid cw ns :
  windows st !! cid = Some cw →
  windowInv cw (crns st) →
  strongPointersValid (crns st) →
  readyChain st ns →
  lowWatermark cw <= nextReadyMark cw →
  highWatermark cw < MaxUint64 →
  ∃ (k : nat) tl es' ps,
    cws_advanceReady cid st
    = Ok (set_windows (set_ready st tl es')
            (<[cid := set_nextReadyMark cw (nextReadyMark cw + Z.of_nat k)]> (windows st)))
    ∧ chain es' (readyHead st) (ns ++ seq (length (readyEntries st)) k)
    ∧ last (ns ++ seq (length (readyEntries st)) k) = Some tl
    ∧ entryReqNos es' (ns ++ seq (length (readyEntries st)) k)
      = entryReqNos (readyEntries st) ns ++ ps
    ∧ Forall2 (λ p r, reqNoMap cw !! r = Some p) ps
        (seqZ (nextReadyMark cw) (Z.of_nat k))
    ∧ (∀ r, nextReadyMark cw <= r < nextReadyMark cw + Z.of_nat k →
         readyAt cw (crns st) r)
    ∧ (nextReadyMark cw + Z.of_nat k <= highWatermark cw →
       ¬ readyAt cw (crns st) (nextReadyMark cw + Z.of_nat k)).
Proof.
  intros Hw Hinv Hsp Hrc Hlow Hhigh.
  rewrite (cws_advanceReady_unfold st cid cw Hw).
  destruct (advanceReady_loop_spec (S (size (reqNoMap cw))) (nextReadyMark cw) cw st ns)
    as (k & tl & es' & ps & Hrun & Hc & Hl & He & Hps & Hready & Hnot);
    try assumption; try reflexivity.
  { rewrite (windowInv_size cw (crns st) Hinv). destruct Hinv as [Hu Hlen _ _]. lia. }
  rewrite Hrun. exists k, tl, es', ps.
  split_and!; try reflexivity; try assumption.
Qed.

(** X28: In a state whose ready list, read from [readyHead], ends at
    [readyTail], and for a window that satisfies the window invariant with
    [lowWatermark <= nextReadyMark] and [highWatermark < 2^64-1],
    [advanceReady] appends to the ready list, after the entries it
    already has, one entry for each of the request numbers
    [nextReadyMark], [nextReadyMark + 1], ... in ascending order, as long
    as the request number is within the window and ready (its strong
    request is set and the payload of the strong request is known); it
    leaves [nextReadyMark] on the first request number that is not ready,
    or past the high watermark.  So an entry is appended for a request
    number only after the entries of all the request numbers between the
    old ready mark and it. *)
Theorem cws_advanceReady_spec st cid cw ns :
  windows st !! cid = Some cw →
  windowInv cw (crns st) →
  strongPointersValid (crns st) →
  readyChain st ns →
  lowWatermark cw <= nextReadyMark cw →
  highWatermark cw < MaxUint64 →
  ∃ (k : nat) st' ps,
    cws_advanceReady cid st = Ok st'
    ∧ windows st'
      = <[cid := set_nextReadyMark cw (nextReadyMark cw + Z.of_nat k)]> (windows st)
    ∧ crns st' = crns st
    ∧ readyChain st' (ns ++ seq (length (readyEntries st)) k)
    ∧ entryReqNos (readyEntries st') (ns ++ seq (length (readyEntries st)) k)
      = entryReqNos (readyEntries st) ns ++ ps
    ∧ Forall2 (λ p r, reqNoMap cw !! r = Some p) ps
        (seqZ (nextReadyMark cw) (Z.of_nat k))
    ∧ (∀ r, nextReadyMark cw <= r < nextReadyMark cw + Z.of_nat k →
         readyAt cw (crns st) r)
    ∧ (nextReadyMark cw + Z.of_nat k <= highWatermark cw →
       ¬ readyAt cw (crns st) (nextReadyMark cw + Z.of_nat k)).
Proof.
  intros Hw Hinv Hsp Hrc Hlow Hhigh.
  destruct (cws_advanceReady_run st cid cw ns Hw Hinv Hsp Hrc Hlow Hhigh)
    as (k & tl & es' & ps & Hrun & Hc & Hl & He & Hps & Hready & Hnot).
  exists k, (set_windows (set_ready st tl es')
               (<[cid := set_nextReadyMark cw (nextReadyMark cw + Z.of_nat k)]> (windows st))),
    ps.
  split_and!; try reflexivity; try assumption.
  split; assumption.
Qed.

(** ** The sweep of the ready list *)

Lemma sweep_keep keep c l : keep c = true → sweep keep (c :: l) = c :: sweep keep l.
Proof. intros Hk. destruct l; simpl; [reflexivity | rewrite Hk; reflexivity]. Qed.

Lemma sweep_drop keep c l : keep c = false → l ≠ [] → sweep keep (c :: l) = sweep keep l.
Proof. intros Hk Hl. destruct l; [contradiction | simpl; rewrite Hk; reflexivity]. Qed.


Lemma chain_tail es el n ns :
  chain es el (el :: n :: ns) →
  ∃ e, es !! el = Some e ∧ re_next e = Some n ∧ chain es n (n :: ns).
Proof.
  intros Hc. inversion Hc as [| ? e q ns' Hp Hn Hc']; subst.
  destruct (chain_head _ _ _ Hc') as (ns'' & [= -> ->]).
  exists e. split_and!; assumption.
Qed.

Lemma chain_single es el :
  chain es el [el] → ∃ e, es !! el = Some e ∧ re_next e = None.
Proof.
  intros Hc. inversion Hc as [? e Hp Hn | ? e q ns' Hp Hn Hc']; subst.
  - exists e. split; assumption.
  - destruct (chain_head _ _ _ Hc') as (ns'' & E). discriminate E.
Qed.

Lemma gcReady_loop_spec seqNo fuel :
  ∀ el st ns,
  chain (readyEntries st) el (el :: ns) →
  (length ns < fuel)%nat →
  (∀ n e, n ∈ ns → readyEntries st !! n = Some e →
     is_Some (crns st !! re_clientReqNo e)) →
  ∃ es' ns',
    gcReady_loop fuel seqNo el st = Ok (set_ready st (readyTail st) es')
    ∧ chain es' el (el :: ns')
    ∧ entryReqNos es' ns'
      = sweep (keptByCollect (crns st) seqNo) (entryReqNos (readyEntries st) ns)
    ∧ re_clientReqNo <$> es' !! el = re_clientReqNo <$> readyEntries st !! el
    ∧ (∀ n, (n < length (readyEntries st))%nat → n ∉ el :: ns →
         es' !! n = readyEntries st !! n)
    ∧ (length (readyEntries st) <= length es')%nat.
Proof.
  induction fuel as [| fuel IH]; intros el st ns Hc Hfuel Hvalid; [lia |].
  set (es := readyEntries st) in *.
  pose proof (chain_NoDup _ _ _ Hc) as Hnd.
  pose proof (chain_bound _ _ _ Hc) as Hbound.
  destruct ns as [| n1 rest].
  { destruct (chain_single _ _ Hc) as (e & He & Hnone).
    simpl. unfold deref. fold es. rewrite He. simpl. rewrite Hnone.
    exists es, []. rewrite set_ready_id.
    split_and!; try reflexivity; try assumption;
        try (rewrite He; reflexivity); try (intros; reflexivity); try lia. }
  destruct (chain_tail _ _ _ _ Hc) as (e & He & Hnext & Hc1).
  assert (Hlt1 : (n1 < length es)%nat) by (apply Hbound; right; left).
  destruct (lookup_lt_is_Some_2 es n1 Hlt1) as [e1 He1].
  destruct (Hvalid n1 e1 ltac:(left) He1) as [crn1 Hcrn1].
  assert (Hkept : keptByCollect (crns st) seqNo (re_clientReqNo e1)
                  = uncommittedAfter (committed crn1) seqNo).
  { unfold keptByCollect. rewrite Hcrn1. reflexivity. }
  assert (EL : entryReqNos es (n1 :: rest) = re_clientReqNo e1 :: entryReqNos es rest).
  { rewrite entryReqNos_cons, He1. reflexivity. }
  set (target := sweep _ (entryReqNos es (n1 :: rest))).
  simpl gcReady_loop. unfold deref. fold es. rewrite He. simpl. rewrite Hnext.
  rewrite He1. simpl. rewrite Hcrn1. simpl.
  destruct (uncommittedAfter (committed crn1) seqNo) eqn:Hun.
  - (* the entry stays, the sweep goes on from it *)
    destruct (IH n1 st rest Hc1 ltac:(simpl in Hfuel; lia)) as (es' & ns' & Hrun & Hc' & He' & Hcrn' & Hframe & Hlen).
    { intros n x Hn. apply Hvalid. right. exact Hn. }
    fold es in Hcrn', Hframe, Hlen, He'.
    assert (Hel : es' !! el = es !! el).
    { apply Hframe; [apply Hbound; left |]. apply NoDup_cons in Hnd as [Hnotin _]. exact Hnotin. }
    exists es', (n1 :: ns'). split; [exact Hrun |]. split_and!.
    + eapply chain_cons; [rewrite Hel; exact He | exact Hnext | exact Hc'].
    + subst target. rewrite EL, sweep_keep by exact Hkept.
      rewrite <- He', entryReqNos_cons, Hcrn', He1. reflexivity.
    + rewrite Hel, He. reflexivity.
    + intros n Hn Hnotin. apply Hframe; [exact Hn |].
      intros Hin. apply Hnotin. right. exact Hin.
    + exact Hlen.
  - destruct rest as [| n2 rest2].
    + (* the last entry is never removed *)
      destruct (chain_single _ _ Hc1) as (e1' & He1' & Hnone1).
      assert (e1' = e1) as -> by congruence. rewrite Hnone1.
      exists es, [n1]. rewrite set_ready_id. subst target.
      split_and!; try reflexivity; try assumption;
        try (rewrite He; reflexivity); try (intros; reflexivity); try lia.
      rewrite EL. reflexivity.
    + (* the entry is replaced by a copy of its successor *)
      destruct (chain_tail _ _ _ _ Hc1) as (e1' & He1' & Hnext1 & Hc2).
      assert (e1' = e1) as -> by congruence. rewrite Hnext1.
      assert (Hlt2 : (n2 < length es)%nat) by (apply Hbound; right; right; left).
      destruct (lookup_lt_is_Some_2 es n2 Hlt2) as [e2 He2].
      rewrite He2. simpl.
      assert (Hltel : (el < length es)%nat) by (apply Hbound; left).
      set (q := length es).
      set (es1 := <[el := {| re_next := Some q; re_clientReqNo := re_clientReqNo e |}]> es
                  ++ [{| re_next := re_next e2; re_clientReqNo := re_clientReqNo e2 |}]).
      assert (Hes1_el : es1 !! el = Some {| re_next := Some q;
                                            re_clientReqNo := re_clientReqNo e |}).
      { unfold es1. rewrite lookup_app_l by (rewrite length_insert; exact Hltel).
        apply list_lookup_insert_eq. exact Hltel. }
      assert (Hes1_q : es1 !! q = Some {| re_next := re_next e2;
                                          re_clientReqNo := re_clientReqNo e2 |}).
      { unfold es1. rewrite lookup_app_r by (rewrite length_insert; unfold q; lia).
        rewrite length_insert. unfold q. rewrite Nat.sub_diag. reflexivity. }
      assert (Hes1_old : ∀ n, (n < length es)%nat → n ≠ el → es1 !! n = es !! n).
      { intros n Hn Hne. unfold es1.
        rewrite lookup_app_l by (rewrite length_insert; exact Hn).
        apply list_lookup_insert_ne. congruence. }
      assert (Hnd_el : el ∉ n1 :: n2 :: rest2) by (apply NoDup_cons in Hnd as [? _]; assumption).
      assert (Hrest2 : ∀ n, n ∈ rest2 → es1 !! n = es !! n).
      { intros n Hn. apply Hes1_old; [apply Hbound; do 3 right; exact Hn |].
        intros ->. apply Hnd_el. do 2 right. exact Hn. }
      assert (Hcq : chain es1 q (q :: rest2)).
      { destruct rest2 as [| n3 rest3].
        - destruct (chain_single _ _ Hc2) as (e2' & He2' & Hnone2).
          assert (e2' = e2) as -> by congruence.
          eapply chain_last; [exact Hes1_q | exact Hnone2].
        - destruct (chain_tail _ _ _ _ Hc2) as (e2' & He2' & Hnext2 & Hc3).
          assert (e2' = e2) as -> by congruence.
          eapply chain_cons; [exact Hes1_q | exact Hnext2 |].
          eapply chain_frame; [exact Hc3 | exact Hrest2]. }
      assert (Hc1' : chain es1 el (el :: q :: rest2)).
      { eapply chain_cons; [exact Hes1_el | reflexivity | exact Hcq]. }
      destruct (IH el (set_ready st (readyTail st) es1) (q :: rest2))
        as (es' & ns' & Hrun & Hc' & He' & Hcrn' & Hframe & Hlen).
      { exact Hc1'. }
      { simpl in Hfuel |- *. lia. }
      { intros n x Hn Hx. simpl in Hx |- *.
        apply elem_of_cons in Hn as [-> | Hn].
        - rewrite Hes1_q in Hx. injection Hx as <-. simpl.
          apply (Hvalid n2 e2); [right; left | exact He2].
        - rewrite (Hrest2 n Hn) in Hx. apply (Hvalid n x); [do 2 right; exact Hn | exact Hx]. }
      change (readyEntries (set_ready st (readyTail st) es1)) with es1 in *.
      change (crns (set_ready st (readyTail st) es1)) with (crns st) in *.
      exists es', ns'. split; [exact Hrun |]. split_and!.
      * exact Hc'.
      * subst target. rewrite He', EL.
        assert (E1 : entryReqNos es1 (q :: rest2) = entryReqNos es (n2 :: rest2)).
        { rewrite !entryReqNos_cons, Hes1_q, He2. simpl. f_equal.
          apply entryReqNos_frame. intros n Hn. rewrite (Hrest2 n Hn). reflexivity. }
        rewrite E1. symmetry. apply sweep_drop.
        -- exact Hkept.
        -- rewrite entryReqNos_cons, He2. discriminate.
      * rewrite Hcrn', Hes1_el. reflexivity.
      * intros n Hn Hnotin.
        rewrite Hframe.
        -- apply Hes1_old; [exact Hn |]. intros ->. apply Hnotin. left.
        -- unfold es1. rewrite length_app, length_insert. simpl. lia.
        -- intros Hin. apply elem_of_cons in Hin as [-> | Hin]; [apply Hnotin; left |].
           apply elem_of_cons in Hin as [-> | Hin]; [unfold q in Hn; lia |].
           apply Hnotin. do 3 right. exact Hin.
      * unfold es1 in Hlen. rewrite length_app, length_insert in Hlen. simpl in Hlen. lia.
Qed.

(** ** The collection of all windows and of the ready list *)

Lemma collectable_app seqNo h ext els :
  (∀ p, p ∈ els → (p < length h)%nat) →
  collectable seqNo (h ++ ext) els = collectable seqNo h els.
Proof.
  induction els as [| p els IH]; intros Hlive; [reflexivity |].
  simpl. rewrite lookup_app_l by (apply Hlive; left).
  destruct (h !! p) as [crn |]; [| reflexivity].
  destruct (uncommittedAfter _ _); [reflexivity |].
  rewrite IH; [reflexivity |]. intros q Hq. apply Hlive. right. exact Hq.
Qed.

Lemma windowInv_live cw h p :
  windowInv cw h → p ∈ reqNoList cw → (p < length h)%nat.
Proof.
  intros [_ _ Hl _] Hp. apply list_elem_of_lookup in Hp as [i Hi].
  destruct (Hl i p Hi) as (_ & crn & Hcrn & _). eapply lookup_lt_Some; eassumption.
Qed.

Lemma collectsSafely_app seqNo st st' cid ext :
  collectsSafely seqNo st cid →
  windows st' !! cid = windows st !! cid →
  crns st' = crns st ++ ext →
  collectsSafely seqNo st' cid.
Proof.
  intros (cw & Hw & Hinv & Hno) Hsame Hext. exists cw.
  rewrite Hsame, Hext. split; [exact Hw |]. split.
  - eapply windowInv_mono; [exact Hinv | apply sameReqNos_app].
  - rewrite collectable_app; [exact Hno |].
    intros p Hp. eapply windowInv_live; eassumption.
Qed.





Lemma msgBuffer_next_none flt buf :
  (∀ m, m ∈ buf → flt m = Ok future ∨ flt m = Ok past) →
  ∃ buf', msgBuffer_next flt buf = Ok (None, buf')
          ∧ ∀ m, m ∈ buf' → m ∈ buf.
Proof.
  induction buf as [| m buf IH]; intros Hno.
  - exists []. split; [reflexivity | auto].
  - destruct IH as (buf' & Hnext & Hsub); [intros x Hx; apply Hno; right; exact Hx |].
    simpl. destruct (Hno m ltac:(left)) as [-> | ->]; simpl; rewrite Hnext; simpl.
    + exists (m :: buf'). split; [reflexivity |].
      intros x Hx. apply elem_of_cons in Hx as [-> | Hx]; [left | right; auto].
    + exists buf'. split; [reflexivity |]. intros x Hx. right. auto.
Qed.

Lemma drainMsgBuffer_none st n buf :
  msgBuffers st !! n = Some buf →
  (∀ m, m ∈ buf → cws_filter st m = Ok future ∨ cws_filter st m = Ok past) →
  ∃ buf', drainMsgBuffer st n = Ok (set_msgBuffers st (<[n := buf']> (msgBuffers st)))
          ∧ ∀ m, m ∈ buf' → m ∈ buf.
Proof.
  intros Hn Hno.
  destruct (msgBuffer_next_none _ _ Hno) as (buf' & Hnext & Hsub).
  exists buf'. split; [| exact Hsub].
  unfold drainMsgBuffer. rewrite Hn. cbn [default length drain_loop].
  rewrite Hn, Hnext. reflexivity.
Qed.

(** Draining the buffers when no buffered message is [current] only
    rewrites the buffers. *)
Lemma drainMsgBuffers_none nodes :
  ∀ st,
  (∀ n, n ∈ nodes →
     ∃ buf, msgBuffers st !! n = Some buf
            ∧ ∀ m, m ∈ buf → cws_filter st m = Ok future ∨ cws_filter st m = Ok past) →
  ∃ b, foldM drainMsgBuffer st nodes = Ok (set_msgBuffers st b).
Proof.
  induction nodes as [| n nodes IH]; intros st Hbuf.
  - exists (msgBuffers st). destruct st. reflexivity.
  - destruct (Hbuf n ltac:(left)) as (buf & Hn & Hno).
    destruct (drainMsgBuffer_none st n buf Hn Hno) as (buf' & Hdrain & Hsub).
    cbn [foldM]. rewrite Hdrain. cbn [mbind result_bind].
    set (st1 := set_msgBuffers st (<[n := buf']> (msgBuffers st))).
    destruct (IH st1) as (b & Hrun).
    { intros n' Hn'. destruct (decide (n' = n)) as [-> | Hne].
      - exists buf'. split; [apply lookup_insert_eq |].
        intros m Hm. apply (Hno m). auto.
      - destruct (Hbuf n' ltac:(right; exact Hn')) as (buf0 & Hn0 & Hno0).
        exists buf0. split; [simpl; rewrite lookup_insert_ne by congruence; exact Hn0 |].
        exact Hno0. }
    exists b. rewrite Hrun. reflexivity.
Qed.

Lemma cws_filter_windows st1 st2 m :
  windows st1 = windows st2 → cws_filter st1 m = cws_filter st2 m.
Proof.
  intros Hw. destruct m; simpl; unfold classify, cws_clientWindow; rewrite ?Hw; reflexivity.
Qed.

Lemma NoDup_bounded_length (ns : list nat) N :
  NoDup ns → (∀ n, n ∈ ns → (n < N)%nat) → (length ns <= N)%nat.
Proof.
  intros Hnd Hb.
  assert (Hsub : ns ⊆+ seq 0 N).
  { apply NoDup_submseteq; [exact Hnd |]. intros n Hn. apply elem_of_seq. specialize (Hb n Hn). lia. }
  apply submseteq_length in Hsub. rewrite length_seq in Hsub. exact Hsub.
Qed.



(** ** The invariant of the client windows *)

Lemma insertSorted_perm x l : insertSorted x l ≡ₚ x :: l.
Proof.
  induction l as [| y l IH]; simpl; [reflexivity |].
  destruct (decide (x <= y)); [reflexivity |].
  rewrite IH. apply Permutation_swap.
Qed.

Lemma sortClients_perm l : sortClients l ≡ₚ l.
Proof.
  induction l as [| x l IH]; simpl; [reflexivity |].
  unfold sortClients in *. simpl. rewrite insertSorted_perm, IH. reflexivity.
Qed.

Lemma readyAt_mono cw h h' r :
  readyAt cw h r →
  (∀ p crn, h !! p = Some crn → isReady crn = true →
     ∃ crn', h' !! p = Some crn' ∧ isReady crn' = true) →
  readyAt cw h' r.
Proof.
  intros (p & crn & Hm & Hp & Hr) Hmono.
  destruct (Hmono p crn Hp Hr) as (crn' & Hp' & Hr').
  exists p, crn'. split_and!; assumption.
Qed.

Lemma strongPointersValid_app h cid rs :
  strongPointersValid h → strongPointersValid (h ++ (freshClientReqNo cid <$> rs)).
Proof.
  intros Hsp p crn k Hp Hs.
  apply lookup_app_Some in Hp as [Hp | [_ Hp]]; [eapply Hsp; eassumption |].
  rewrite list_lookup_fmap in Hp.
  destruct (rs !! _); [| discriminate Hp]. injection Hp as <-. discriminate Hs.
Qed.

(** The invariant survives a write to one [clientReqNo] that keeps its
    request number, keeps its pointer valid and keeps it ready if it was. *)
Lemma cwsInv_update st p crn crn' :
  cwsInv st → crns st !! p = Some crn →
  reqNo crn' = reqNo crn →
  (∀ k, strongRequest crn' = Some k → is_Some (digests crn' !! k)) →
  (isReady crn = true → isReady crn' = true) →
  cwsInv (set_crns st (<[p := crn']> (crns st))).
Proof.
  intros [Hw Hsp (ns & Hrc & Hvalid) Hcl] Hp Er Hptr Hready.
  assert (Hlt : (p < length (crns st))%nat) by (eapply lookup_lt_Some; eassumption).
  assert (Hmono : ∀ q c, crns st !! q = Some c → isReady c = true →
            ∃ c', <[p := crn']> (crns st) !! q = Some c' ∧ isReady c' = true).
  { intros q c Hq Hc. destruct (decide (p = q)) as [<- | Hne].
    - exists crn'. split; [apply list_lookup_insert_eq; exact Hlt |].
      apply Hready. congruence.
    - exists c. split; [rewrite list_lookup_insert_ne by exact Hne; exact Hq | exact Hc]. }
  split; simpl.
  - intros cid cw Hcw. destruct (Hw cid cw Hcw) as (Hinv & Hlow & Hhigh & Hrel).
    split_and!; try assumption.
    + eapply windowInv_mono; [exact Hinv |]. eapply sameReqNos_insert; eassumption.
    + intros r Hr. eapply readyAt_mono; [apply Hrel, Hr | exact Hmono].
  - intros q c k Hq Hs. destruct (decide (p = q)) as [<- | Hne].
    + rewrite list_lookup_insert_eq in Hq by exact Hlt. injection Hq as <-. apply Hptr, Hs.
    + rewrite list_lookup_insert_ne in Hq by exact Hne. eapply Hsp; eassumption.
  - exists ns. split; [exact Hrc |]. intros c Hc.
    destruct (Hvalid c Hc) as [x Hx]. apply lookup_lt_is_Some.
    rewrite length_insert. eapply lookup_lt_Some; eassumption.
  - exact Hcl.
Qed.

Lemma markCommitted_insert p s h crn :
  h !! p = Some crn → markCommitted p s h = <[p := set_committed crn (Some s)]> h.
Proof.
  intros Hp. apply list_eq. intros i. unfold markCommitted.
  destruct (decide (p = i)) as [<- | Hne].
  - rewrite list_lookup_alter_eq, Hp.
    rewrite list_lookup_insert_eq by (eapply lookup_lt_Some; eassumption). reflexivity.
  - rewrite list_lookup_alter_ne, list_lookup_insert_ne by exact Hne. reflexivity.
Qed.

Lemma cwsInv_markCommitted st p s crn :
  cwsInv st → crns st !! p = Some crn →
  cwsInv (set_crns st (markCommitted p s (crns st))).
Proof.
  intros Hinv Hp. rewrite (markCommitted_insert p s _ crn Hp).
  eapply cwsInv_update; [exact Hinv | exact Hp | reflexivity | |].
  - intros k Hs. destruct Hinv as [_ Hsp _ _]. apply (Hsp p crn k Hp Hs).
  - intros Hr. exact Hr.
Qed.

Lemma cwsInv_initial cfg : cwsInv (initialClientWindows cfg).
Proof.
  split; simpl.
  - intros cid cw Hcw. rewrite lookup_empty in Hcw. discriminate Hcw.
  - intros p crn k Hp Hs. destruct p as [| p]; simpl in Hp; [| destruct p; discriminate Hp].
    injection Hp as <-. discriminate Hs.
  - exists [0%nat]. split.
    + split; [| reflexivity]. eapply chain_last; reflexivity.
    + intros c Hc. vm_compute in Hc. apply list_elem_of_singleton in Hc as ->.
      eexists; reflexivity.
  - intros cid Hc. apply elem_of_nil in Hc. contradiction.
Qed.

(** ** The replay of the log *)

Lemma cw_allocate_run rq dg cw h p nc h' :
  cw_allocate rq dg cw h = Ok (p, nc, h') →
  ∃ crn crn',
    lowWatermark cw <= req_ReqNo rq <= highWatermark cw
    ∧ reqNoMap cw !! req_ReqNo rq = Some p
    ∧ h !! p = Some crn
    ∧ h' = <[p := crn']> h
    ∧ digests crn'
      = <[dg := {| digest := digest (getOrCreateRequest crn dg); data := Some rq;
                   agreements := agreements (getOrCreateRequest crn dg) |}]> (digests crn)
    ∧ reqNo crn' = reqNo crn ∧ committed crn' = committed crn
    ∧ clientID crn' = clientID crn.
Proof.
  unfold cw_allocate.
  destruct (decide (req_ReqNo rq > highWatermark cw)); [discriminate |].
  destruct (decide (req_ReqNo rq < lowWatermark cw)); [discriminate |].
  destruct (reqNoMap cw !! req_ReqNo rq) as [q |] eqn:Hm; [| discriminate].
  unfold deref. destruct (h !! q) as [crn |] eqn:Hq; [| discriminate].
  cbn [mbind result_bind]. intros [= <- _ <-].
  exists crn. eexists. split; [lia |]. split; [reflexivity |]. split; [exact Hq |].
  split; [reflexivity |].
  destruct (decide (_ = intersectionQuorum _)); split_and!; reflexivity.
Qed.

(** What the replay of one request of a prepared batch does, when it does
    not panic. *)
Lemma replayRequest_run st request st' :
  replayRequest st request = Ok st' →
  ∃ cw p crn crn',
    windows st !! req_ClientId (fwd_Request request) = Some cw
    ∧ lowWatermark cw <= req_ReqNo (fwd_Request request) <= highWatermark cw
    ∧ reqNoMap cw !! req_ReqNo (fwd_Request request) = Some p
    ∧ crns st !! p = Some crn
    ∧ st' = set_crns st (<[p := crn']> (crns st))
    ∧ strongRequest crn' = Some (fwd_Digest request)
    ∧ (∃ cr, digests crn' !! fwd_Digest request = Some cr
             ∧ data cr = Some (fwd_Request request)
             ∧ agreements cr = agreementsOf (crns st) p (fwd_Digest request))
    ∧ (∀ d, d ≠ fwd_Digest request → digests crn' !! d = digests crn !! d)
    ∧ reqNo crn' = reqNo crn ∧ committed crn' = committed crn
    ∧ clientID crn' = clientID crn.
Proof.
  unfold replayRequest, window_deref.
  destruct (windows st !! req_ClientId (fwd_Request request)) as [cw |] eqn:Hw;
    [| discriminate].
  cbn [mbind result_bind].
  destruct (cw_allocate (fwd_Request request) (fwd_Digest request) cw (crns st))
    as [[[p nc] h] | |] eqn:Hal; try discriminate.
  destruct (cw_allocate_run _ _ _ _ _ _ _ Hal)
    as (crn & crn1 & Hr & Hm & Hp & -> & Hdg & Er & Ec & Ei).
  assert (Hlt : (p < length (crns st))%nat) by (eapply lookup_lt_Some; eassumption).
  cbn [mbind result_bind]. unfold deref.
  rewrite list_lookup_insert_eq by exact Hlt. cbn [mbind result_bind].
  rewrite Hdg, lookup_insert_eq. cbn [mbind option_bind].
  rewrite list_insert_insert_eq. intros [= <-].
  exists cw, p, crn, (set_strongRequest crn1 (Some (fwd_Digest request))).
  split_and!; try reflexivity; try assumption; try lia.
  - eexists. split; [simpl; rewrite Hdg; apply lookup_insert_eq |].
    split; [reflexivity |]. simpl.
    unfold agreementsOf, getOrCreateRequest. rewrite Hp.
    destruct (digests crn !! fwd_Digest request); reflexivity.
  - intros d Hd. simpl. rewrite Hdg. apply lookup_insert_ne. congruence.
Qed.

Lemma replayRequest_inv st request st' :
  cwsInv st → replayRequest st request = Ok st' →
  cwsInv st' ∧ windows st' = windows st ∧ clients st' = clients st
  ∧ networkConfig st' = networkConfig st.
Proof.
  intros Hinv Hrun.
  destruct (replayRequest_run st request st' Hrun)
    as (cw & p & crn & crn' & Hw & Hr & Hm & Hp & -> & Hs & (cr & Hcr & Hdata & _) & _ & Er & _).
  split; [| split_and!; reflexivity].
  eapply cwsInv_update; [exact Hinv | exact Hp | exact Er | |].
  - intros k Hk. rewrite Hs in Hk. injection Hk as <-. exists cr. exact Hcr.
  - intros _. apply isReady_spec. exists (fwd_Digest request), cr, (fwd_Request request).
    split_and!; assumption.
Qed.

Lemma foldM_replayRequest_inv batch :
  ∀ st st', cwsInv st → foldM replayRequest st batch = Ok st' →
  cwsInv st' ∧ windows st' = windows st ∧ clients st' = clients st
  ∧ networkConfig st' = networkConfig st.
Proof.
  induction batch as [| request batch IH]; intros st st' Hinv Hrun.
  - simpl in Hrun. injection Hrun as <-. split_and!; [exact Hinv | reflexivity ..].
  - simpl in Hrun. destruct (replayRequest st request) as [st1 | |] eqn:H1; try discriminate.
    simpl in Hrun.
    destruct (replayRequest_inv st request st1 Hinv H1) as (Hinv1 & Hw1 & Hc1 & Hn1).
    destruct (IH st1 st' Hinv1 Hrun) as (Hinv' & Hw' & Hc' & Hn').
    split_and!; [exact Hinv' | congruence ..].
Qed.

Lemma minBucketLowWatermark_range blws low :
  (∀ blw, blw ∈ blws → 0 <= blw <= MaxUint64) →
  minBucketLowWatermark blws = Ok low → 0 <= low <= MaxUint64.
Proof.
  intros Hr. unfold minBucketLowWatermark.
  destruct blws as [| b rest]; [discriminate |]. intros [= <-].
  assert (Hgen : ∀ l acc, 0 <= acc <= MaxUint64 → (∀ x, x ∈ l → 0 <= x <= MaxUint64) →
            0 <= foldl (λ low blw, if decide (blw < low) then blw else low) acc l <= MaxUint64).
  { induction l as [| x l IH]; intros acc Hacc Hl; [exact Hacc |].
    simpl. apply IH.
    - destruct (decide (x < acc)); [apply Hl; left | exact Hacc].
    - intros y Hy. apply Hl. right. exact Hy. }
  apply (Hgen (b :: rest) b); [apply Hr; left | exact Hr].
Qed.

Lemma wrap64_range z : 0 <= wrap64 z <= MaxUint64.
Proof.
  unfold wrap64, MaxUint64.
  pose proof (Z.mod_pos_bound z 18446744073709551616 ltac:(lia)). lia.
Qed.

Lemma replayClient_inv cfg st client st' :
  cwsInv st →
  (∀ blw, blw ∈ BucketLowWatermarks client → 0 <= blw <= MaxUint64) →
  replayClient cfg st client = Ok st' →
  cwsInv st' ∧ networkConfig st' = networkConfig st.
Proof.
  intros [Hw Hsp (ns & Hrc & Hvalid) Hcl] Hblw. unfold replayClient.
  destruct (minBucketLowWatermark (BucketLowWatermarks client)) as [low | |] eqn:Hmin;
    try discriminate.
  simpl.
  destruct (newClientWindow (client_Id client) low (wrap64 (low + clientWindowWidth)) cfg
              (crns st)) as [[cw h] | |] eqn:Hnew; try discriminate.
  simpl. intros [= <-].
  pose proof (minBucketLowWatermark_range _ _ Hblw Hmin) as Hlow.
  pose proof (wrap64_range (low + clientWindowWidth)) as Hhigh.
  destruct (newClientWindow_inv _ _ _ _ _ _ _ Hlow Hhigh Hnew)
    as (Hinv & Elo & Ehi & Enext & _ & _ & Hsame).
  assert (Hneq : wrap64 (low + clientWindowWidth) ≠ MaxUint64).
  { intros E. unfold newClientWindow in Hnew. rewrite E in Hnew.
    destruct (decide (MaxUint64 = MaxUint64)); [discriminate | contradiction]. }
  assert (Hext : ∃ rs, h = crns st ++ (freshClientReqNo (client_Id client) <$> rs)).
  { unfold newClientWindow in Hnew.
    destruct (decide (wrap64 (low + clientWindowWidth) = MaxUint64)); [discriminate |].
    injection Hnew as Hf. apply foldl_pushReqNo_spec in Hf.
    destruct Hf as (_ & _ & _ & _ & _ & _ & Hh & _). eexists. exact Hh. }
  destruct Hext as (rs & Hh).
  split; [| reflexivity]. split; simpl.
  - intros cid cw0 Hcw0. destruct (decide (client_Id client = cid)) as [<- | Hne].
    + rewrite lookup_insert_eq in Hcw0. injection Hcw0 as <-.
      split_and!; [exact Hinv | lia | lia |].
      intros r Hr. lia.
    + rewrite lookup_insert_ne in Hcw0 by exact Hne.
      destruct (Hw cid cw0 Hcw0) as (Hinv0 & Hlow0 & Hhigh0 & Hrel0).
      split_and!; try assumption.
      * eapply windowInv_mono; [exact Hinv0 | exact Hsame].
      * intros r Hr. eapply readyAt_mono; [apply Hrel0, Hr |].
        intros p crn Hp Hready. exists crn. split; [| exact Hready].
        rewrite Hh. apply lookup_app_l_Some, Hp.
  - rewrite Hh. apply strongPointersValid_app, Hsp.
  - exists ns. split; [exact Hrc |]. intros c Hc.
    destruct (Hvalid c Hc) as [x Hx]. exists x. rewrite Hh. apply lookup_app_l_Some, Hx.
  - intros cid Hcid. rewrite sortClients_perm in Hcid.
    apply elem_of_app in Hcid as [Hcid | Hcid].
    + destruct (decide (client_Id client = cid)) as [<- | Hne].
      * rewrite lookup_insert_eq. eexists; reflexivity.
      * rewrite lookup_insert_ne by exact Hne. apply Hcl, Hcid.
    + apply list_elem_of_singleton in Hcid as ->. rewrite lookup_insert_eq. eexists; reflexivity.
Qed.

Lemma cwsInv_ext st st' :
  cwsInv st →
  windows st' = windows st → crns st' = crns st →
  readyEntries st' = readyEntries st → readyHead st' = readyHead st →
  readyTail st' = readyTail st → clients st' = clients st →
  cwsInv st'.
Proof.
  intros [Hw Hsp Hr Hcl] Ew Ec Ee Eh Et Ecl.
  split; unfold readyChain in *; rewrite ?Ew, ?Ec, ?Ee, ?Eh, ?Et, ?Ecl; assumption.
Qed.

Lemma foldM_replayClient_inv cfg clients :
  ∀ st st', cwsInv st →
  (∀ client blw, client ∈ clients → blw ∈ BucketLowWatermarks client →
     0 <= blw <= MaxUint64) →
  foldM (replayClient cfg) st clients = Ok st' →
  cwsInv st' ∧ networkConfig st' = networkConfig st.
Proof.
  induction clients as [| client clients IH]; intros st st' Hinv Hblw Hrun.
  - simpl in Hrun. injection Hrun as <-. split; [exact Hinv | reflexivity].
  - simpl in Hrun. destruct (replayClient cfg st client) as [st1 | |] eqn:H1; try discriminate.
    cbn [mbind result_bind] in Hrun.
    destruct (replayClient_inv cfg st client st1 Hinv) as (Hinv1 & Hn1);
      [intros blw Hb; eapply Hblw; [left | exact Hb] | exact H1 |].
    destruct (IH st1 st' Hinv1) as (Hinv' & Hn');
      [intros c blw Hc Hb; eapply Hblw; [right; exact Hc | exact Hb] | exact Hrun |].
    split; [exact Hinv' | congruence].
Qed.

Lemma replayEntry_inv st b entry st' b' :
  cwsInv st → persistedUint64 entry →
  replayEntry (st, b) entry = Ok (st', b') → cwsInv st'.
Proof.
  intros Hinv Htyped. destruct entry as [c | q | p |]; simpl.
  - destruct (networkConfig st) as [nc |]; [intros [= <- <-]; exact Hinv |].
    destruct (foldM (replayClient _) _ _) as [st1 | |] eqn:Hf; try discriminate.
    simpl. intros [= <- <-].
    eapply (foldM_replayClient_inv _ _ _ _ _ Htyped Hf).
    Unshelve.
    eapply cwsInv_ext; [exact Hinv | reflexivity ..].
  - intros [= <- <-]. exact Hinv.
  - destruct (b !! pe_Digest p) as [batch |]; [| discriminate].
    destruct (foldM replayRequest st batch) as [st1 | |] eqn:Hf; try discriminate.
    simpl. intros [= <- <-]. eapply foldM_replayRequest_inv; eassumption.
  - intros [= <- <-]. exact Hinv.
Qed.

Lemma foldM_replayEntry_inv log :
  ∀ st b st' b', cwsInv st → Forall persistedUint64 log →
  foldM replayEntry (st, b) log = Ok (st', b') → cwsInv st'.
Proof.
  induction log as [| entry log IH]; intros st b st' b' Hinv Htyped Hrun.
  - simpl in Hrun. injection Hrun as <- <-. exact Hinv.
  - apply Forall_cons in Htyped as [Hentry Htyped].
    cbn [foldM] in Hrun.
    destruct (replayEntry (st, b) entry) as [[st1 b1] | |] eqn:H1; try discriminate.
    cbn [mbind result_bind] in Hrun.
    eapply IH; [| exact Htyped | exact Hrun].
    eapply replayEntry_inv; eassumption.
Qed.

(** The batches buffered by the replay are those of the [QEntry]s read so
    far, the last one for each digest. *)
Lemma foldM_replayEntry_batches log :
  ∀ st b st' b', foldM replayEntry (st, b) log = Ok (st', b') →
  ∀ d, b' !! d = bufferedBatch log d (b !! d).
Proof.
  induction log as [| entry log IH]; intros st b st' b' Hrun d.
  - simpl in Hrun. injection Hrun as <- <-. reflexivity.
  - cbn [foldM] in Hrun.
    destruct (replayEntry (st, b) entry) as [[st1 b1] | |] eqn:H1; try discriminate.
    cbn [mbind result_bind] in Hrun.
    rewrite (IH st1 b1 st' b' Hrun d).
    destruct entry as [c | q | p |]; simpl in H1 |- *.
    + destruct (networkConfig st); [injection H1 as <- <-; reflexivity |].
      destruct (foldM (replayClient _) _ _); try discriminate.
      simpl in H1. injection H1 as <- <-. reflexivity.
    + injection H1 as <- <-. destruct (decide (qe_Digest q = d)) as [-> | Hne].
      * rewrite lookup_insert_eq. reflexivity.
      * rewrite lookup_insert_ne by exact Hne. reflexivity.
    + destruct (b !! pe_Digest p); [| discriminate].
      destruct (foldM replayRequest st l); try discriminate.
      simpl in H1. injection H1 as <- <-. reflexivity.
    + injection H1 as <- <-. reflexivity.
Qed.

Lemma cws_advanceReady_inv st cid :
  cwsInv st → is_Some (windows st !! cid) →
  ∃ st' cw cw',
    cws_advanceReady cid st = Ok st'
    ∧ cwsInv st'
    ∧ windows st !! cid = Some cw
    ∧ windows st' = <[cid := cw']> (windows st)
    ∧ reqNoMap cw' = reqNoMap cw
    ∧ lowWatermark cw' = lowWatermark cw ∧ highWatermark cw' = highWatermark cw
    ∧ nextReadyMark cw <= nextReadyMark cw'
    ∧ markBlocked cw' (crns st)
    ∧ crns st' = crns st ∧ clients st' = clients st
    ∧ networkConfig st' = networkConfig st ∧ msgBuffers st' = msgBuffers st.
Proof.
  intros Hinv [cw Hw]. pose proof Hinv as [Hwin Hsp (ns & Hrc & Hvalid) Hcl].
  destruct (Hwin cid cw Hw) as (Hcw & Hlow & Hhigh & Hrel).
  destruct (cws_advanceReady_run st cid cw ns Hw Hcw Hsp Hrc Hlow Hhigh)
    as (k & tl & es' & ps & Hrun & Hc & Hl & He & Hps & Hready & Hnot).
  eexists _, cw, _. split; [exact Hrun |].
  split_and!; try reflexivity; try assumption; [| simpl; lia].
  split; simpl.
  - intros c cw0 Hcw0. destruct (decide (cid = c)) as [<- | Hne].
    + rewrite lookup_insert_eq in Hcw0. injection Hcw0 as <-.
      split_and!; simpl; [apply windowInv_set_nextReadyMark; exact Hcw | lia | exact Hhigh |].
      intros r Hr. simpl in Hr.
      destruct (decide (r < nextReadyMark cw)); [apply (Hrel r); lia | apply (Hready r); lia].
    + rewrite lookup_insert_ne in Hcw0 by exact Hne. apply (Hwin c cw0 Hcw0).
  - exact Hsp.
  - exists (ns ++ seq (length (readyEntries st)) k). split; [split; assumption |].
    intros c Hc0. rewrite He in Hc0. apply elem_of_app in Hc0 as [Hc0 | Hc0].
    + apply Hvalid, Hc0.
    + apply list_elem_of_lookup in Hc0 as [i Hi].
      destruct (Forall2_lookup_l _ _ _ _ _ Hps Hi) as (r & Hr & Hm).
      apply lookup_seqZ in Hr as [-> Hr].
      destruct (Hready (nextReadyMark cw + Z.of_nat i) ltac:(lia)) as (p & crn & Hm' & Hp & _).
      assert (p = c) as -> by congruence. exists crn. exact Hp.
  - intros c Hc0. destruct (decide (cid = c)) as [<- | Hne].
    + rewrite lookup_insert_eq. eexists; reflexivity.
    + rewrite lookup_insert_ne by exact Hne. apply Hcl, Hc0.
Qed.

(** Advancing the ready mark of the clients [l], one after the other. *)
Lemma advanceAll_spec l :
  ∀ st, cwsInv st → (∀ cid, cid ∈ l → is_Some (windows st !! cid)) →
  ∃ st',
    foldM (λ st cid, cws_advanceReady cid st) st l = Ok st'
    ∧ cwsInv st'
    ∧ crns st' = crns st ∧ clients st' = clients st
    ∧ networkConfig st' = networkConfig st ∧ msgBuffers st' = msgBuffers st
    ∧ (∀ cid, cid ∉ l → windows st' !! cid = windows st !! cid)
    ∧ (∀ cid cw, windows st !! cid = Some cw →
         ∃ cw', windows st' !! cid = Some cw'
                ∧ reqNoMap cw' = reqNoMap cw
                ∧ lowWatermark cw' = lowWatermark cw
                ∧ highWatermark cw' = highWatermark cw
                ∧ nextReadyMark cw <= nextReadyMark cw')
    ∧ (∀ cid, cid ∈ l →
         ∃ cw', windows st' !! cid = Some cw' ∧ markBlocked cw' (crns st)).
Proof.
  induction l as [| cid l IH]; intros st Hinv Hall.
  - exists st. split_and!; try reflexivity; try assumption.
    + intros cid cw Hcw. exists cw. split_and!; try reflexivity; try lia. exact Hcw.
    + intros cid Hcid. apply elem_of_nil in Hcid. contradiction.
  - destruct (cws_advanceReady_inv st cid Hinv (Hall cid ltac:(left)))
      as (st1 & cw & cw1 & Hrun & Hinv1 & Hw & Hw1 & Em & Elo & Ehi & Enext & Hblocked
          & Ecrns & Ecl & Enc & Emb).
    destruct (IH st1 Hinv1) as (st' & Hrun' & Hinv' & Ecrns' & Ecl' & Enc' & Emb'
                                 & Hframe & Hevol & Hblk).
    { intros c Hc. rewrite Hw1. destruct (decide (cid = c)) as [<- | Hne].
      - rewrite lookup_insert_eq. eexists; reflexivity.
      - rewrite lookup_insert_ne by exact Hne. apply Hall. right. exact Hc. }
    exists st'. cbn [foldM]. rewrite Hrun. cbn [mbind result_bind].
    split; [exact Hrun' |]. split; [exact Hinv' |].
    split_and!; try congruence.
    + intros c Hc. apply not_elem_of_cons in Hc as [Hne Hc].
      rewrite (Hframe c Hc), Hw1. apply lookup_insert_ne. congruence.
    + intros c cw0 Hcw0. destruct (decide (cid = c)) as [<- | Hne].
      * assert (cw0 = cw) as -> by congruence.
        destruct (Hevol cid cw1) as (cw' & Hcw' & Em' & Elo' & Ehi' & Enext').
        { rewrite Hw1. apply lookup_insert_eq. }
        exists cw'. split_and!; [exact Hcw' | congruence | congruence | congruence | lia].
      * apply Hevol. rewrite Hw1, lookup_insert_ne by exact Hne. exact Hcw0.
    + intros c Hc. destruct (decide (c ∈ l)) as [Hin | Hnotin].
      * destruct (Hblk c Hin) as (cw' & Hcw' & Hb). exists cw'.
        split; [exact Hcw' |]. rewrite <- Ecrns. exact Hb.
      * apply elem_of_cons in Hc as [-> | Hc]; [| contradiction].
        exists cw1. split; [| exact Hblocked].
        rewrite (Hframe cid Hnotin), Hw1. apply lookup_insert_eq.
Qed.

Lemma replayLog_inv log cfg st batches :
  Forall persistedUint64 log → replayLog log cfg = Ok (st, batches) → cwsInv st.
Proof.
  intros Htyped Hrun. unfold replayLog in Hrun.
  eapply foldM_replayEntry_inv; [apply cwsInv_initial | exact Htyped | exact Hrun].
Qed.

(** The state [newClientWindows] returns: the replayed state with the
    ready marks advanced and the buffers created. *)
Lemma newClientWindows_run log cfg st :
  Forall persistedUint64 log → newClientWindows log cfg = Ok st →
  ∃ st1 batches st2 nc,
    replayLog log cfg = Ok (st1, batches)
    ∧ advanceAll st1 = Ok st2
    ∧ networkConfig st2 = Some nc
    ∧ st = set_msgBuffers st2
             (foldl (λ b id, <[id := []]> b) (msgBuffers st2) (Nodes nc))
    ∧ cwsInv st1 ∧ cwsInv st2 ∧ cwsInv st
    ∧ crns st2 = crns st1 ∧ clients st2 = clients st1
    ∧ (∀ cid cw, windows st1 !! cid = Some cw →
         ∃ cw', windows st2 !! cid = Some cw'
                ∧ reqNoMap cw' = reqNoMap cw
                ∧ lowWatermark cw' = lowWatermark cw
                ∧ highWatermark cw' = highWatermark cw
                ∧ nextReadyMark cw <= nextReadyMark cw')
    ∧ (∀ cid, cid ∈ clients st1 →
         ∃ cw', windows st2 !! cid = Some cw' ∧ markBlocked cw' (crns st1)).
Proof.
  intros Htyped. unfold newClientWindows.
  destruct (replayLog log cfg) as [[st1 batches] | |] eqn:Hreplay; try discriminate.
  cbn [mbind result_bind].
  pose proof (replayLog_inv log cfg st1 batches Htyped Hreplay) as Hinv1.
  destruct (advanceAll_spec (clients st1) st1 Hinv1)
    as (st2 & Hadv & Hinv2 & Ecrns & Ecl & Enc & Emb & _ & Hevol & Hblk).
  { intros cid Hcid. destruct Hinv1 as [_ _ _ Hcl]. apply Hcl, Hcid. }
  unfold advanceAll. rewrite Hadv. cbn [mbind result_bind].
  destruct (networkConfig st2) as [nc |] eqn:Hnc; [| discriminate].
  intros [= <-]. exists st1, batches, st2, nc.
  split_and!; try reflexivity; try assumption.
  eapply cwsInv_ext; [exact Hinv2 | reflexivity ..].
Qed.

Lemma replayRequest_total st request cw :
  cwsInv st →
  windows st !! req_ClientId (fwd_Request request) = Some cw →
  lowWatermark cw <= req_ReqNo (fwd_Request request) <= highWatermark cw →
  is_Ok (replayRequest st request).
Proof.
  intros [Hwin _ _ _] Hw Hr. destruct (Hwin _ _ Hw) as (Hinv & _).
  destruct (windowInv_lookup cw (crns st) _ Hinv Hr) as (p & crn & Hm & Hp & _).
  assert (Hlt : (p < length (crns st))%nat) by (eapply lookup_lt_Some; eassumption).
  unfold replayRequest, window_deref. rewrite Hw. cbn [mbind result_bind].
  unfold cw_allocate.
  destruct (decide (req_ReqNo (fwd_Request request) > highWatermark cw)); [lia |].
  destruct (decide (req_ReqNo (fwd_Request request) < lowWatermark cw)); [lia |].
  rewrite Hm. unfold deref. rewrite Hp. cbn [mbind result_bind].
  rewrite list_lookup_insert_eq by exact Hlt. cbn [mbind result_bind].
  eexists. reflexivity.
Qed.

(** C6: during the replay, a [PEntry] is looked up among the batches of
    the [QEntry]s read before it (a digest that was not buffered is a
    panic) and every request of the batch found is replayed; the replay of
    a request allocates it in the window of its client, with the payload,
    and makes the request of its digest the strong request of its request
    number; [newClientWindows] then advances the ready mark of every
    client, so that the mark stands past all the ready request numbers
    that follow the low watermark. *)
Theorem newClientWindows_replay :
  (∀ log cfg st batches p,
     replayLog log cfg = Ok (st, batches) →
     replayEntry (st, batches) (Persistent_PEntry p)
     = match bufferedBatch log (pe_Digest p) None with
       | None => Panic "dev sanity test"
       | Some batch => st' ← foldM replayRequest st batch; Ok (st', batches)
       end)
  ∧ (∀ st request cw,
     cwsInv st →
     windows st !! req_ClientId (fwd_Request request) = Some cw →
     lowWatermark cw <= req_ReqNo (fwd_Request request) <= highWatermark cw →
     ∃ p crn crn' cr,
       reqNoMap cw !! req_ReqNo (fwd_Request request) = Some p
       ∧ crns st !! p = Some crn
       ∧ replayRequest st request = Ok (set_crns st (<[p := crn']> (crns st)))
       ∧ strongRequest crn' = Some (fwd_Digest request)
       ∧ digests crn' !! fwd_Digest request = Some cr
       ∧ data cr = Some (fwd_Request request)
       ∧ agreements cr = agreementsOf (crns st) p (fwd_Digest request)
       ∧ (∀ d, d ≠ fwd_Digest request → digests crn' !! d = digests crn !! d))
  ∧ (∀ log cfg st,
     Forall persistedUint64 log →
     newClientWindows log cfg = Ok st →
     ∃ st1 batches,
       replayLog log cfg = Ok (st1, batches)
       ∧ crns st = crns st1 ∧ clients st = clients st1
       ∧ ∀ cid, cid ∈ clients st →
           ∃ cw1 cw,
             windows st1 !! cid = Some cw1
             ∧ windows st !! cid = Some cw
             ∧ reqNoMap cw = reqNoMap cw1
             ∧ lowWatermark cw = lowWatermark cw1
             ∧ highWatermark cw = highWatermark cw1
             ∧ releasedBelowMark cw (crns st)
             ∧ markBlocked cw (crns st)).
Proof.
  split_and!.
  - intros log cfg st batches p Hreplay.
    pose proof (foldM_replayEntry_batches log _ _ _ _ Hreplay (pe_Digest p)) as Hb.
    rewrite lookup_empty in Hb. simpl. rewrite Hb. reflexivity.
  - intros st request cw Hinv Hw Hr.
    destruct (replayRequest_total st request cw Hinv Hw Hr) as [st' Hrun].
    destruct (replayRequest_run st request st' Hrun)
      as (cw0 & p & crn & crn' & Hw0 & _ & Hm & Hp & -> & Hs & (cr & Hcr & Hd & Ha) & Hother & _).
    assert (cw0 = cw) as -> by congruence.
    exists p, crn, crn', cr. split_and!; assumption.
  - intros log cfg st Htyped Hnew.
    destruct (newClientWindows_run log cfg st Htyped Hnew)
      as (st1 & batches & st2 & nc & Hreplay & Hadv & Hnc & -> & Hinv1 & Hinv2 & Hinv
          & Ecrns & Ecl & Hevol & Hblk).
    exists st1, batches. split; [exact Hreplay |]. simpl.
    split; [exact Ecrns |]. split; [exact Ecl |].
    intros cid Hcid. rewrite Ecl in Hcid.
    destruct Hinv1 as [_ _ _ Hcl1]. destruct (Hcl1 cid Hcid) as [cw1 Hcw1].
    destruct (Hevol cid cw1 Hcw1) as (cw & Hcw & Em & Elo & Ehi & _).
    destruct (Hblk cid Hcid) as (cw' & Hcw' & Hb).
    assert (cw' = cw) as -> by congruence.
    exists cw1, cw. split_and!; try assumption.
    + destruct Hinv2 as [Hwin2 _ _ _]. destruct (Hwin2 cid cw Hcw) as (_ & _ & _ & Hrel).
      exact Hrel.
    + rewrite Ecrns. exact Hb.
Qed.

(** ** The example log *)

Lemma exampleLog_uint64 : Forall persistedUint64 exampleLog.
Proof.
  unfold exampleLog. apply Forall_cons. split; [| repeat constructor].
  intros client blw Hc Hb. simpl in Hc.
  apply list_elem_of_singleton in Hc as ->. simpl in Hb.
  apply list_elem_of_singleton in Hb as ->. unfold MaxUint64. lia.
Qed.

Lemma exampleReplayed_eq : newClientWindows exampleLog exampleParams = Ok exampleReplayed.
Proof. vm_compute. reflexivity. Qed.

Lemma exampleBeforeAdvance_eq :
  ∃ batches, replayLog exampleLog exampleParams = Ok (exampleBeforeAdvance, batches).
Proof.
  exists (from_Ok (initialClientWindows exampleParams, ∅)
            (replayLog exampleLog exampleParams)).2.
  vm_compute. reflexivity.
Qed.

Lemma exampleReplayed_inv : cwsInv exampleReplayed.
Proof.
  destruct (newClientWindows_run _ _ _ exampleLog_uint64 exampleReplayed_eq)
    as (st1 & batches & st2 & nc & _ & _ & _ & _ & _ & _ & Hinv & _).
  exact Hinv.
Qed.

Lemma exampleBeforeAdvance_inv : cwsInv exampleBeforeAdvance.
Proof.
  destruct exampleBeforeAdvance_eq as (batches & Hreplay).
  eapply replayLog_inv; [apply exampleLog_uint64 | exact Hreplay].
Qed.

Lemma exampleCommitted_inv : cwsInv exampleCommitted.
Proof.
  unfold exampleCommitted.
  eapply (cwsInv_markCommitted exampleReplayed 1 3); [apply exampleReplayed_inv |].
  vm_compute. reflexivity.
Qed.

Lemma cwsInv_windowCovers st cid reqno : cwsInv st → windowCovers st cid reqno.
Proof.
  intros [Hwin _ _ _] cw Hcw Hr. destruct (Hwin cid cw Hcw) as (Hinv & _).
  destruct (windowInv_lookup cw (crns st) reqno Hinv Hr) as (p & crn & Hm & Hp & _).
  exists p, crn. split; assumption.
Qed.

Lemma entryReqNos_elem es ns n e :
  n ∈ ns → es !! n = Some e → re_clientReqNo e ∈ entryReqNos es ns.
Proof.
  intros Hn He. unfold entryReqNos. apply list_elem_of_omap.
  exists n. split; [exact Hn |]. rewrite He. reflexivity.
Qed.

(** The request replayed from the example log is fetched by node 2,
    through the theorem. *)
Lemma cws_replyFetchRequest_spec_witness :
  cws_replyFetchRequest 2 7 0 "d" exampleReplayed
  = Ok {| act_Send :=
            [{| Targets := [2];
                send_Msg := Msg_ForwardRequest
                              {| fwd_Request := exampleRequest; fwd_Digest := "d" |} |}];
          act_Hash := [] |}.
Proof.
  destruct (cws_replyFetchRequest_spec exampleReplayed 2 7 0 "d") as [Hknown _].
  - apply cwsInv_windowCovers, exampleReplayed_inv.
  - apply Hknown.
    exists (windowOf7 exampleReplayed), 1%nat,
      (default readyAnchor (crns exampleReplayed !! 1%nat)),
      {| digest := "d"; data := Some exampleRequest; agreements := ∅ |}.
    split_and!; try (vm_compute; reflexivity); vm_compute; discriminate.
Defined.

(** The ready mark of client 7 is advanced over the replayed request,
    through the theorem. *)
Lemma cws_advanceReady_spec_witness :
  ∃ (k : nat) st' ps,
    cws_advanceReady 7 exampleBeforeAdvance = Ok st'
    ∧ windows st'
      = <[7 := set_nextReadyMark (windowOf7 exampleBeforeAdvance)
                 (nextReadyMark (windowOf7 exampleBeforeAdvance) + Z.of_nat k)]>
          (windows exampleBeforeAdvance)
    ∧ Forall2 (λ p r, reqNoMap (windowOf7 exampleBeforeAdvance) !! r = Some p) ps
        (seqZ (nextReadyMark (windowOf7 exampleBeforeAdvance)) (Z.of_nat k)).
Proof.
  pose proof exampleBeforeAdvance_inv as [Hwin Hsp (ns & Hrc & _) _].
  assert (Hw : windows exampleBeforeAdvance !! 7 = Some (windowOf7 exampleBeforeAdvance))
    by (vm_compute; reflexivity).
  destruct (Hwin 7 _ Hw) as (Hinv & Hlow & Hhigh & _).
  destruct (cws_advanceReady_spec exampleBeforeAdvance 7 _ ns Hw Hinv Hsp Hrc Hlow Hhigh)
    as (k & st' & ps & Hrun & Hwin' & _ & _ & _ & Hps & _).
  exists k, st', ps. split_and!; assumption.
Defined.

(** The example log is replayed and the ready mark of its client is
    advanced, through the theorem. *)
Lemma newClientWindows_replay_witness :
  ∃ cw, windows exampleReplayed !! 7 = Some cw
        ∧ releasedBelowMark cw (crns exampleReplayed)
        ∧ markBlocked cw (crns exampleReplayed).
Proof.
  destruct newClientWindows_replay as (_ & _ & Hnew).
  destruct (Hnew exampleLog exampleParams exampleReplayed exampleLog_uint64
              exampleReplayed_eq) as (st1 & batches & _ & _ & _ & Hclients).
  destruct (Hclients 7) as (cw1 & cw & _ & Hcw & _ & _ & _ & Hrel & Hblk).
  - vm_compute. left.
  - exists cw. split_and!; assumption.
Defined.

(** ** The committed last entry of the ready list *)


Lemma exampleCommitted_clients : clients exampleCommitted = [7].
Proof. vm_compute. reflexivity. Qed.

Lemma exampleCommitted_window :
  windows exampleCommitted !! 7 = Some (windowOf7 exampleCommitted).
Proof. vm_compute. reflexivity. Qed.

Lemma exampleCommitted_high : highWatermark (windowOf7 exampleCommitted) = 100.
Proof. vm_compute. reflexivity. Qed.

Lemma exampleCommitted_length :
  length (reqNoList (windowOf7 exampleCommitted)) = 101%nat.
Proof. vm_compute. reflexivity. Qed.

Lemma exampleCommitted_config : networkConfig exampleCommitted = Some exampleConfig.
Proof. vm_compute. reflexivity. Qed.

Lemma exampleCommitted_buffers n :
  n ∈ Nodes exampleConfig → msgBuffers exampleCommitted !! n = Some [].
Proof.
  intros Hn. simpl in Hn.
  repeat (apply elem_of_cons in Hn as [-> | Hn]; [vm_compute; reflexivity |]).
  apply elem_of_nil in Hn. contradiction.
Qed.


(** ** More on single windows *)

(** X1: [clientWindow.allocate] for a request number of the window records
    the payload under its digest and leaves the agreement set and every
    other digest as they were.  It reports the request as newly correct
    whenever the agreement set has reached [someCorrectQuorum] (at every
    call, unlike [ack]), and it makes the digest the strong request
    exactly when the agreement set has [intersectionQuorum] members. *)
Theorem cw_allocate_spec rq dg cw h p crn :
  lowWatermark cw <= req_ReqNo rq <= highWatermark cw →
  reqNoMap cw !! req_ReqNo rq = Some p →
  h !! p = Some crn →
  ∃ nc crn',
    cw_allocate rq dg cw h = Ok (p, nc, <[p := crn']> h)
    ∧ dataOf (<[p := crn']> h) p dg = Some rq
    ∧ agreementsOf (<[p := crn']> h) p dg = agreementsOf h p dg
    ∧ (∀ d, d ≠ dg → digests crn' !! d = digests crn !! d)
    ∧ nc = (if decide (Z.of_nat (size (agreementsOf h p dg))
                       >= someCorrectQuorum (cw_networkConfig cw))
            then Some rq else None)
    ∧ strongRequest crn'
      = (if decide (Z.of_nat (size (agreementsOf h p dg))
                    = intersectionQuorum (cw_networkConfig cw))
         then Some dg else strongRequest crn)
    ∧ reqNo crn' = reqNo crn ∧ committed crn' = committed crn
    ∧ clientID crn' = clientID crn.
Proof.
  intros Hwm Hmap Hp.
  assert (Hlt : (p < length h)%nat) by (eapply lookup_lt_Some; eassumption).
  unfold cw_allocate.
  destruct (decide (req_ReqNo rq > highWatermark cw)); [lia |].
  destruct (decide (req_ReqNo rq < lowWatermark cw)); [lia |].
  rewrite Hmap. unfold deref. rewrite Hp. cbn [mbind result_bind].
  set (cr := getOrCreateRequest crn dg).
  assert (Hagr : agreementsOf h p dg = agreements cr).
  { unfold agreementsOf, cr, getOrCreateRequest. rewrite Hp.
    destruct (digests crn !! dg); reflexivity. }
  rewrite Hagr. cbn [agreements].
  eexists _, _. split; [reflexivity |].
  split.
  { unfold dataOf. rewrite list_lookup_insert_eq by exact Hlt. simpl.
    destruct (decide (_ = intersectionQuorum _)); simpl; rewrite lookup_insert_eq; reflexivity. }
  split.
  { unfold agreementsOf. rewrite list_lookup_insert_eq by exact Hlt.
    destruct (decide (_ = intersectionQuorum _)); simpl; rewrite lookup_insert_eq; reflexivity. }
  split.
  { intros d Hd.
    destruct (decide (_ = intersectionQuorum _)); simpl; rewrite lookup_insert_ne by congruence;
      reflexivity. }
  split; [reflexivity |].
  destruct (decide (_ = intersectionQuorum _)); split_and!; reflexivity.
Qed.

(** The payload of the example request allocated again in the window where
    two of four nodes have acknowledged it: it is reported again. *)
Lemma cw_allocate_spec_witness :
  ∃ crn',
    cw_allocate exampleRequest "d" ackedByTwoWindow ackedByTwoHeap
    = Ok (0%nat, Some exampleRequest, <[0%nat := crn']> ackedByTwoHeap).
Proof.
  destruct (cw_allocate_spec exampleRequest "d" ackedByTwoWindow ackedByTwoHeap
              0%nat ackedByTwoReqNo)
    as (nc & crn' & Hrun & _ & _ & _ & Hnc & _).
  - simpl. lia.
  - reflexivity.
  - reflexivity.
  - exists crn'. rewrite Hrun, Hnc. vm_compute. reflexivity.
Defined.

(** *** Garbage collection of a window, in full *)

Lemma collectable_prefix s h els :
  (∀ i p, (i < collectable s h els)%nat → els !! i = Some p →
     ∃ crn, h !! p = Some crn ∧ uncommittedAfter (committed crn) s = false)
  ∧ (∀ p crn, els !! collectable s h els = Some p → h !! p = Some crn →
       uncommittedAfter (committed crn) s = true).
Proof.
  induction els as [| q rest [IH1 IH2]]; simpl.
  - split; [intros i p Hi; lia | intros p crn Hp; discriminate Hp].
  - destruct (h !! q) as [c |] eqn:Hq.
    + destruct (uncommittedAfter (committed c) s) eqn:Hun.
      * split; [intros i p Hi; lia |].
        intros p crn [= <-] Hc. rewrite Hq in Hc. injection Hc as <-. exact Hun.
      * split.
        -- intros [| i] p Hi Hp.
           ++ injection Hp as <-. exists c. split; assumption.
           ++ apply (IH1 i p); [lia | exact Hp].
        -- intros p crn Hp Hc. apply (IH2 p crn); assumption.
    + split; [intros i p Hi; lia |].
      intros p crn [= <-] Hc. rewrite Hq in Hc. discriminate Hc.
Qed.

Lemma uncommittedAfter_mono c s1 s2 :
  s1 <= s2 → uncommittedAfter c s1 = false → uncommittedAfter c s2 = false.
Proof.
  intros Hs. destruct c as [v |]; simpl; [| discriminate].
  rewrite !bool_decide_eq_false. lia.
Qed.

Lemma collectable_split s1 s2 h els :
  s1 <= s2 →
  collectable s2 h els
  = (collectable s1 h els + collectable s2 h (drop (collectable s1 h els) els))%nat.
Proof.
  intros Hs. induction els as [| q rest IH]; simpl; [reflexivity |].
  destruct (h !! q) as [c |] eqn:Hq; simpl; [| rewrite Hq; reflexivity].
  destruct (uncommittedAfter (committed c) s1) eqn:Hun; simpl.
  - rewrite Hq. reflexivity.
  - rewrite (uncommittedAfter_mono _ _ _ Hs Hun). rewrite IH. reflexivity.
Qed.

Lemma collectable_app_stop s h l1 l2 :
  collectable s h l2 = 0%nat → collectable s h (l1 ++ l2) = collectable s h l1.
Proof.
  intros H0. induction l1 as [| q rest IH]; simpl; [exact H0 |].
  destruct (h !! q) as [c |]; [| reflexivity].
  destruct (uncommittedAfter _ _); [reflexivity | rewrite IH; reflexivity].
Qed.

Lemma collectable_fresh s h cid rs k :
  collectable s (h ++ (freshClientReqNo cid <$> rs)) (seq (length h) k) = 0%nat.
Proof.
  destruct k as [| k]; simpl; [reflexivity |].
  rewrite lookup_app_r by lia. rewrite Nat.sub_diag.
  destruct rs as [| r rs]; reflexivity.
Qed.

(** The outcome of [clientWindow.garbageCollect] field by field, with [k]
    the number of collected elements. *)
Lemma cw_garbageCollect_explicit maxSeqNo cw h :
  windowInv cw h →
  highWatermark cw + Z.of_nat (collectable maxSeqNo h (reqNoList cw)) <= MaxUint64 →
  ∃ cw' h',
    cw_garbageCollect maxSeqNo cw h = Ok (cw', h')
    ∧ lowWatermark cw' = lowWatermark cw + Z.of_nat (collectable maxSeqNo h (reqNoList cw))
    ∧ highWatermark cw' = highWatermark cw + Z.of_nat (collectable maxSeqNo h (reqNoList cw))
    ∧ nextReadyMark cw' =
        (if decide (collectable maxSeqNo h (reqNoList cw) = 0%nat) then nextReadyMark cw
         else Z.max (nextReadyMark cw)
                (lowWatermark cw + Z.of_nat (collectable maxSeqNo h (reqNoList cw)) - 1))
    ∧ cw_clientID cw' = cw_clientID cw
    ∧ cw_networkConfig cw' = cw_networkConfig cw
    ∧ cw_clientWaiter cw'
      = {| waiter_lowWatermark :=
             lowWatermark cw + Z.of_nat (collectable maxSeqNo h (reqNoList cw));
           waiter_highWatermark :=
             highWatermark cw + Z.of_nat (collectable maxSeqNo h (reqNoList cw)) |}
    ∧ reqNoList cw' = drop (collectable maxSeqNo h (reqNoList cw)) (reqNoList cw)
                      ++ seq (length h) (collectable maxSeqNo h (reqNoList cw))
    ∧ h' = h ++ (freshClientReqNo (cw_clientID cw)
                   <$> seqZ (highWatermark cw + 1)
                         (Z.of_nat (collectable maxSeqNo h (reqNoList cw))))
    ∧ (∀ r, reqNoMap cw' !! r =
         if decide (lowWatermark cw <= r
                    < lowWatermark cw + Z.of_nat (collectable maxSeqNo h (reqNoList cw)))
         then None
         else if decide (highWatermark cw < r
                         <= highWatermark cw
                            + Z.of_nat (collectable maxSeqNo h (reqNoList cw)))
              then Some (length h + Z.to_nat (r - highWatermark cw - 1))%nat
              else reqNoMap cw !! r).
Proof.
  intros Hinv Hno. pose proof Hinv as [Hu Hlen Hl Hd].
  set (k := collectable maxSeqNo h (reqNoList cw)) in *.
  assert (Hk : (k <= length (reqNoList cw))%nat) by apply collectable_le.
  unfold cw_garbageCollect.
  destruct (gc_front_spec maxSeqNo h (reqNoList cw) (lowWatermark cw)
              (nextReadyMark cw) (reqNoMap cw) 0) as (m' & Hgc & Hm').
  { intros i p Hi. destruct (Hl i p Hi) as (_ & crn & Hp & Er). exists crn. split; assumption. }
  { lia. }
  { fold k. lia. }
  fold k in Hgc, Hm'. rewrite Z.add_0_l in Hgc. rewrite Hgc. simpl.
  destruct (decide (Z.of_nat k = MaxUint64)) as [Hbad | _].
  { exfalso. unfold MaxUint64 in *. lia. }
  rewrite <- (foldl_fmap pushReqNo _ (seqZ 1 (Z.of_nat k)) (λ i, wrap64 (i + highWatermark cw))).
  rewrite gc_new_reqNos by lia.
  destruct (foldl pushReqNo _ _) as [cw2 h2] eqn:Hf.
  apply foldl_pushReqNo_spec in Hf. simpl in Hf.
  destruct Hf as (Hid & Hnext & Hlo & Hhi & Hcfg & Hl2 & Hh2 & Hout & Hin).
  specialize (Hin (NoDup_seqZ _ _)).
  rewrite length_seqZ, Nat2Z.id in Hl2.
  rewrite Hlo, Hhi.
  assert (Hwlo : wrap64 (lowWatermark cw + Z.of_nat k) = lowWatermark cw + Z.of_nat k).
  { apply wrap64_small. lia. }
  assert (Hwhi : wrap64 (highWatermark cw + Z.of_nat k) = highWatermark cw + Z.of_nat k).
  { apply wrap64_small. lia. }
  rewrite Hwlo, Hwhi.
  eexists _, h2. split; [reflexivity |]. simpl.
  split_and!; try reflexivity; try assumption.
  intros r.
  destruct (decide (lowWatermark cw <= r < lowWatermark cw + Z.of_nat k)) as [Hr1 | Hr1].
  - rewrite Hout; [| rewrite elem_of_seqZ; lia].
    rewrite Hm'. rewrite decide_True by exact Hr1. reflexivity.
  - destruct (decide (highWatermark cw < r <= highWatermark cw + Z.of_nat k)) as [Hr2 | Hr2].
    + assert (Hrs : seqZ (highWatermark cw + 1) (Z.of_nat k)
                      !! Z.to_nat (r - highWatermark cw - 1) = Some r).
      { rewrite lookup_seqZ_lt by lia. f_equal. lia. }
      apply (Hin _ _ Hrs).
    + rewrite Hout; [| rewrite elem_of_seqZ; lia].
      rewrite Hm'. rewrite decide_False by exact Hr1. reflexivity.
Qed.

(** X3: [clientWindow.garbageCollect] removes from the front of the window
    exactly the request numbers that have committed at or before
    [maxSeqNo], up to the first that has not.  The request numbers that
    stay keep their [clientReqNo] untouched, with its digests and
    agreements; the request numbers that enter the window at the high end
    are empty. *)
Theorem cw_garbageCollect_frame maxSeqNo cw h :
  windowInv cw h →
  highWatermark cw + Z.of_nat (collectable maxSeqNo h (reqNoList cw)) <= MaxUint64 →
  ∃ cw' h',
    cw_garbageCollect maxSeqNo cw h = Ok (cw', h')
    ∧ lowWatermark cw <= lowWatermark cw'
    ∧ highWatermark cw' - lowWatermark cw' = highWatermark cw - lowWatermark cw
    ∧ (∀ r, lowWatermark cw <= r < lowWatermark cw' →
         reqNoMap cw' !! r = None
         ∧ ∃ c, committedAt cw h r c ∧ c <= maxSeqNo)
    ∧ (lowWatermark cw' <= highWatermark cw →
       pendingAfter cw h maxSeqNo (lowWatermark cw'))
    ∧ (∀ r, lowWatermark cw' <= r <= highWatermark cw →
         ∃ p crn, reqNoMap cw' !! r = Some p ∧ reqNoMap cw !! r = Some p
                  ∧ h !! p = Some crn ∧ h' !! p = Some crn)
    ∧ (∀ r, highWatermark cw < r <= highWatermark cw' →
         ∃ p, reqNoMap cw' !! r = Some p
              ∧ h' !! p = Some (freshClientReqNo (cw_clientID cw) r))
    ∧ (∀ p crn, h !! p = Some crn → h' !! p = Some crn).
Proof.
  intros Hinv Hno. pose proof Hinv as [Hu Hlen Hl Hd].
  destruct (cw_garbageCollect_explicit maxSeqNo cw h Hinv Hno)
    as (cw' & h' & Hrun & Hlo & Hhi & _ & _ & _ & _ & _ & Hh' & Hmap).
  destruct (collectable_prefix maxSeqNo h (reqNoList cw)) as [Hpre Hstop].
  set (k := collectable maxSeqNo h (reqNoList cw)) in *.
  assert (Hk : (k <= length (reqNoList cw))%nat) by apply collectable_le.
  assert (Hat : ∀ r, lowWatermark cw <= r <= highWatermark cw →
            ∃ p crn, reqNoList cw !! Z.to_nat (r - lowWatermark cw) = Some p
                     ∧ reqNoMap cw !! r = Some p ∧ h !! p = Some crn).
  { intros r Hr.
    destruct (lookup_lt_is_Some_2 (reqNoList cw) (Z.to_nat (r - lowWatermark cw)))
      as [p Hp]; [lia |].
    destruct (Hl _ _ Hp) as (Hm & crn & Hc & _).
    replace (lowWatermark cw + Z.of_nat (Z.to_nat (r - lowWatermark cw))) with r in Hm by lia.
    exists p, crn. split_and!; assumption. }
  exists cw', h'. split; [exact Hrun |].
  split; [lia |]. split; [lia |].
  split.
  { intros r Hr. rewrite Hmap. rewrite decide_True by lia. split; [reflexivity |].
    destruct (Hat r) as (p & crn & Hp & Hm & Hc); [lia |].
    destruct (Hpre (Z.to_nat (r - lowWatermark cw)) p) as (crn0 & Hc0 & Hun); [lia | exact Hp |].
    rewrite Hc in Hc0. injection Hc0 as <-.
    destruct (committed crn) as [c |] eqn:Ec; [| discriminate Hun].
    simpl in Hun. apply bool_decide_eq_false in Hun.
    exists c. split; [exists p, crn; split_and!; assumption | lia]. }
  split.
  { intros Hin. destruct (Hat (lowWatermark cw')) as (p & crn & Hp & Hm & Hc); [lia |].
    replace (Z.to_nat (lowWatermark cw' - lowWatermark cw)) with k in Hp by lia.
    exists p, crn. split_and!; try assumption. apply (Hstop p crn Hp Hc). }
  split.
  { intros r Hr. destruct (Hat r) as (p & crn & Hp & Hm & Hc); [lia |].
    exists p, crn. rewrite Hmap.
    rewrite decide_False by lia. rewrite decide_False by lia.
    split_and!; try assumption.
    rewrite Hh'. apply lookup_app_l_Some, Hc. }
  split.
  { intros r Hr. rewrite Hmap.
    rewrite decide_False by lia. rewrite decide_True by lia.
    eexists. split; [reflexivity |].
    rewrite Hh', lookup_app_r by lia.
    replace (length h + Z.to_nat (r - highWatermark cw - 1) - length h)%nat
      with (Z.to_nat (r - highWatermark cw - 1)) by lia.
    rewrite list_lookup_fmap, lookup_seqZ_lt by lia. simpl. f_equal. f_equal. lia. }
  intros p crn Hp. rewrite Hh'. apply lookup_app_l_Some, Hp.
Qed.

Lemma clientWindow_ext cw cw' :
  cw_clientID cw = cw_clientID cw' →
  nextReadyMark cw = nextReadyMark cw' →
  lowWatermark cw = lowWatermark cw' →
  highWatermark cw = highWatermark cw' →
  reqNoList cw = reqNoList cw' →
  (∀ r, reqNoMap cw !! r = reqNoMap cw' !! r) →
  cw_clientWaiter cw = cw_clientWaiter cw' →
  cw_networkConfig cw = cw_networkConfig cw' →
  cw = cw'.
Proof.
  destruct cw, cw'. simpl. intros -> -> -> -> -> Hm -> ->.
  f_equal. apply map_eq, Hm.
Qed.

(** X4: Collecting a window up to [s1] and then up to a later [s2] leaves the
    same window and the same [clientReqNo] objects as collecting it up to
    [s2] at once; with [s1 = s2], a second collection changes nothing. *)
Theorem cw_garbageCollect_compose s1 s2 cw h :
  windowInv cw h → s1 <= s2 →
  highWatermark cw + Z.of_nat (collectable s2 h (reqNoList cw)) <= MaxUint64 →
  ∃ cw1 h1 cw2 h2,
    cw_garbageCollect s1 cw h = Ok (cw1, h1)
    ∧ cw_garbageCollect s2 cw1 h1 = Ok (cw2, h2)
    ∧ cw_garbageCollect s2 cw h = Ok (cw2, h2).
Proof.
  intros Hinv Hs Hno.
  pose proof (collectable_split s1 s2 h (reqNoList cw) Hs) as Hsplit.
  set (k1 := collectable s1 h (reqNoList cw)) in *.
  set (k2 := collectable s2 h (reqNoList cw)) in *.
  assert (Hk2 : (k2 <= length (reqNoList cw))%nat) by apply collectable_le.
  assert (Hno1 : highWatermark cw + Z.of_nat k1 <= MaxUint64) by lia.
  destruct (cw_garbageCollect_explicit s1 cw h Hinv Hno1)
    as (cw1 & h1 & Hrun1 & Hlo1 & Hhi1 & Hnext1 & Hid1 & Hcfg1 & Hw1 & Hl1 & Hh1 & Hm1).
  fold k1 in Hlo1, Hhi1, Hnext1, Hw1, Hl1, Hh1, Hm1.
  assert (Hinv1 : windowInv cw1 h1).
  { destruct (cw_garbageCollect_spec s1 cw h Hinv Hno1) as (cw' & h' & Hrun' & Hrest).
    rewrite Hrun1 in Hrun'. injection Hrun' as <- <-.
    destruct Hrest as (_ & _ & _ & _ & _ & _ & _ & _ & Hi). exact Hi. }
  assert (Hk' : collectable s2 h1 (reqNoList cw1) = (k2 - k1)%nat).
  { rewrite Hl1, Hh1.
    rewrite collectable_app_stop by apply collectable_fresh.
    rewrite collectable_app; [lia |].
    intros p Hp. apply (windowInv_live cw h p Hinv).
    apply list_elem_of_lookup in Hp as [i Hi]. rewrite lookup_drop in Hi.
    eapply list_elem_of_lookup_2. exact Hi. }
  assert (Hno2 : highWatermark cw1 + Z.of_nat (collectable s2 h1 (reqNoList cw1))
                 <= MaxUint64) by (rewrite Hk'; lia).
  destruct (cw_garbageCollect_explicit s2 cw1 h1 Hinv1 Hno2)
    as (cw2 & h2 & Hrun2 & Hlo2 & Hhi2 & Hnext2 & Hid2 & Hcfg2 & Hw2 & Hl2 & Hh2 & Hm2).
  rewrite Hk' in Hlo2, Hhi2, Hnext2, Hw2, Hl2, Hh2, Hm2.
  destruct (cw_garbageCollect_explicit s2 cw h Hinv Hno)
    as (cw3 & h3 & Hrun3 & Hlo3 & Hhi3 & Hnext3 & Hid3 & Hcfg3 & Hw3 & Hl3 & Hh3 & Hm3).
  fold k2 in Hlo3, Hhi3, Hnext3, Hw3, Hl3, Hh3, Hm3.
  assert (Hlen1 : length h1 = (length h + k1)%nat).
  { rewrite Hh1, length_app, length_fmap, length_seqZ. lia. }
  assert (Eh : h3 = h2).
  { rewrite Hh3, Hh2, Hh1, Hhi1, Hid1, <- app_assoc, <- fmap_app. f_equal. f_equal.
    replace (Z.of_nat k2) with (Z.of_nat k1 + Z.of_nat (k2 - k1)) by lia.
    rewrite seqZ_app by lia. f_equal. f_equal. lia. }
  assert (Ecw : cw3 = cw2).
  { apply clientWindow_ext.
    - congruence.
    - rewrite Hnext3, Hnext2, Hnext1, Hlo1.
      destruct (decide (k2 = 0%nat)); destruct (decide ((k2 - k1)%nat = 0%nat));
        destruct (decide (k1 = 0%nat)); lia.
    - lia.
    - lia.
    - rewrite Hl3, Hl2, Hl1, Hlen1.
      rewrite drop_app_le by (rewrite length_drop; lia).
      rewrite drop_drop, <- app_assoc. f_equal; [f_equal; lia |].
      replace k2 with (k1 + (k2 - k1))%nat at 1 by lia.
      rewrite seq_app. reflexivity.
    - intros r. rewrite Hm3, Hm2, Hm1, Hlo1, Hhi1, Hlen1.
      pose proof (inv_length _ _ Hinv) as Hlen.
      clear Hnext1 Hnext2 Hnext3.
      repeat case_decide; try lia; try reflexivity; f_equal; lia.
    - rewrite Hw3, Hw2, Hlo1, Hhi1. f_equal; lia.
    - congruence. }
  exists cw1, h1, cw2, h2. rewrite Hrun1, Hrun2, Hrun3, Eh, Ecw.
  split_and!; reflexivity.
Qed.

Lemma committedUnseen_inv : windowInv (windowOf committedUnseen) (heapOf committedUnseen).
Proof.
  destruct (newClientWindow_Ok 7 0 2 exampleConfig []) as (cw0 & h0 & E0);
    [unfold MaxUint64; lia |].
  destruct (newClientWindow_inv 7 0 2 exampleConfig [] cw0 h0) as (Hinv0 & _);
    [unfold MaxUint64; lia | unfold MaxUint64; lia | exact E0 |].
  assert (Ew : committedUnseen = Ok (cw0, markCommitted 0 1 h0)).
  { unfold committedUnseen, exampleWindow. rewrite E0. reflexivity. }
  unfold windowOf, heapOf. rewrite Ew. simpl.
  eapply windowInv_mono; [exact Hinv0 | apply sameReqNos_markCommitted].
Qed.

(** The window over 0..2 whose request number 0 committed at sequence
    number 1, collected up to 1. *)
Lemma cw_garbageCollect_frame_witness :
  ∃ cw' h',
    cw_garbageCollect 1 (windowOf committedUnseen) (heapOf committedUnseen) = Ok (cw', h')
    ∧ ∀ r, lowWatermark cw' <= r <= highWatermark (windowOf committedUnseen) →
        ∃ p crn, reqNoMap cw' !! r = Some p
                 ∧ reqNoMap (windowOf committedUnseen) !! r = Some p
                 ∧ heapOf committedUnseen !! p = Some crn ∧ h' !! p = Some crn.
Proof.
  destruct (cw_garbageCollect_frame 1 (windowOf committedUnseen) (heapOf committedUnseen))
    as (cw' & h' & Hrun & _ & _ & _ & _ & Hkeep & _).
  - exact committedUnseen_inv.
  - vm_compute. discriminate.
  - exists cw', h'. split; [exact Hrun | exact Hkeep].
Defined.

(** The same window collected up to 1 and then up to 2. *)
Lemma cw_garbageCollect_compose_witness :
  ∃ cw1 h1 cw2 h2,
    cw_garbageCollect 1 (windowOf committedUnseen) (heapOf committedUnseen) = Ok (cw1, h1)
    ∧ cw_garbageCollect 2 cw1 h1 = Ok (cw2, h2)
    ∧ cw_garbageCollect 2 (windowOf committedUnseen) (heapOf committedUnseen) = Ok (cw2, h2).
Proof.
  apply (cw_garbageCollect_compose 1 2 (windowOf committedUnseen) (heapOf committedUnseen)).
  - exact committedUnseen_inv.
  - lia.
  - vm_compute. discriminate.
Defined.

(** *** A new window *)

(** X5: [newClientWindow] gives every request number from the low to the high
    watermark an empty [clientReqNo] of the client: no digest, not
    committed, no strong request.  The ready mark starts at the low
    watermark, and a low watermark above the high one gives a window
    without request numbers. *)
Theorem newClientWindow_fresh cid low high cfg h cw h' :
  newClientWindow cid low high cfg h = Ok (cw, h') →
  nextReadyMark cw = low
  ∧ cw_clientWaiter cw = {| waiter_lowWatermark := low; waiter_highWatermark := high |}
  ∧ h' = h ++ (freshClientReqNo cid <$> seqZ low (high - low + 1))
  ∧ (∀ r, low <= r <= high →
       ∃ p, reqNoMap cw !! r = Some p ∧ h' !! p = Some (freshClientReqNo cid r))
  ∧ (∀ r, ¬ low <= r <= high → reqNoMap cw !! r = None)
  ∧ (high < low → reqNoList cw = [] ∧ h' = h).
Proof.
  unfold newClientWindow.
  destruct (decide (high = MaxUint64)); [discriminate |].
  intros [= Hf].
  destruct cw as [cid' nx lo hi l m w c].
  pose proof Hf as Hf'. apply foldl_pushReqNo_spec in Hf'. simpl in Hf'.
  destruct Hf' as (_ & Hnext & _ & _ & _ & Hl & Hh & Hout & Hin).
  specialize (Hin (NoDup_seqZ _ _)).
  assert (Hw : w = {| waiter_lowWatermark := low; waiter_highWatermark := high |}).
  { clear -Hf. revert Hf.
    generalize (seqZ low (high - low + 1)).
    intros rs.
    assert (Hgen : ∀ st, cw_clientWaiter (foldl pushReqNo st rs).1 = cw_clientWaiter st.1).
    { induction rs as [| x rs IH]; intros [c0 h0]; [reflexivity |].
      simpl. rewrite IH. reflexivity. }
    intros Hf. specialize (Hgen ({| cw_clientID := cid; nextReadyMark := low;
      lowWatermark := low; highWatermark := high; reqNoList := []; reqNoMap := ∅;
      cw_clientWaiter := {| waiter_lowWatermark := low; waiter_highWatermark := high |};
      cw_networkConfig := cfg |}, h)).
    rewrite Hf in Hgen. exact Hgen. }
  simpl. split; [exact Hnext |]. split; [exact Hw |]. split; [exact Hh |].
  split.
  { intros r Hr.
    assert (Hrs : seqZ low (high - low + 1) !! Z.to_nat (r - low) = Some r).
    { rewrite lookup_seqZ_lt by lia. f_equal. lia. }
    eexists. split; [apply (Hin _ _ Hrs) |].
    rewrite Hh, lookup_app_r by lia.
    replace (length h + Z.to_nat (r - low) - length h)%nat with (Z.to_nat (r - low)) by lia.
    rewrite list_lookup_fmap, Hrs. reflexivity. }
  split.
  { intros r Hr. rewrite Hout; [apply lookup_empty |]. rewrite elem_of_seqZ. lia. }
  intros Hlt. rewrite Hl, Hh, length_seqZ.
  replace (Z.to_nat (high - low + 1)) with 0%nat by lia.
  rewrite seqZ_nil by lia. simpl. rewrite app_nil_r. split; reflexivity.
Qed.

Lemma newClientWindow_fresh_witness :
  ∃ cw h', exampleWindow = Ok (cw, h') ∧ nextReadyMark cw = 0
           ∧ h' = [] ++ (freshClientReqNo 7 <$> seqZ 0 (2 - 0 + 1)).
Proof.
  exists (windowOf exampleWindow), (heapOf exampleWindow).
  assert (E : exampleWindow = Ok (windowOf exampleWindow, heapOf exampleWindow))
    by (vm_compute; reflexivity).
  split; [exact E |].
  destruct (newClientWindow_fresh 7 0 2 exampleConfig [] _ _ E) as (Hn & _ & Hh & _).
  split; assumption.
Defined.

(** *** Acknowledgements, unfolded *)

(** What [clientWindow.ack] has done when it returns. *)
Lemma cw_ack_run source reqno dg cw h r h' :
  cw_ack source reqno dg cw h = Ok (r, h') →
  ∃ p crn crn',
    lowWatermark cw <= reqno <= highWatermark cw
    ∧ reqNoMap cw !! reqno = Some p
    ∧ h !! p = Some crn
    ∧ h' = <[p := crn']> h
    ∧ ack_crn r = p ∧ ack_cr r = dg
    ∧ digests crn'
      = <[dg := {| digest := digest (getOrCreateRequest crn dg);
                   data := data (getOrCreateRequest crn dg);
                   agreements := {[source]} ∪ agreements (getOrCreateRequest crn dg) |}]>
          (digests crn)
    ∧ (strongRequest crn' = Some dg ∨ strongRequest crn' = strongRequest crn)
    ∧ ack_newlyCorrectReq r
      = (if decide (Z.of_nat (size ({[source]} ∪ agreements (getOrCreateRequest crn dg)))
                    = someCorrectQuorum (cw_networkConfig cw))
         then data (getOrCreateRequest crn dg) else None)
    ∧ reqNo crn' = reqNo crn ∧ committed crn' = committed crn
    ∧ clientID crn' = clientID crn.
Proof.
  unfold cw_ack.
  destruct (decide (reqno > highWatermark cw)); [discriminate |].
  destruct (decide (reqno < lowWatermark cw)); [discriminate |].
  destruct (reqNoMap cw !! reqno) as [q |] eqn:Hm; [| discriminate].
  unfold deref. destruct (h !! q) as [crn |] eqn:Hq; [| discriminate].
  cbn [mbind result_bind]. intros [= <- <-].
  exists q, crn. eexists. split; [lia |]. split; [reflexivity |]. split; [exact Hq |].
  split; [reflexivity |]. cbn [ack_crn ack_cr ack_newlyCorrectReq agreements data].
  split; [reflexivity |]. split; [reflexivity |].
  destruct (decide (_ = intersectionQuorum _)); split_and!;
    first [reflexivity | left; reflexivity | right; reflexivity].
Qed.

(** *** The status report of a window *)

Lemma ackedByTwo_inv : windowInv ackedByTwoWindow ackedByTwoHeap.
Proof.
  destruct (newClientWindow_Ok 7 0 2 exampleConfig []) as (cw0 & h0 & E0);
    [unfold MaxUint64; lia |].
  destruct (newClientWindow_inv 7 0 2 exampleConfig [] cw0 h0) as (Hinv0 & _);
    [unfold MaxUint64; lia | unfold MaxUint64; lia | exact E0 |].
  assert (E1 : Ok (cw0, h0) = Ok (ackedByTwoWindow, [freshClientReqNo 7 0;
              freshClientReqNo 7 1; freshClientReqNo 7 2])).
  { rewrite <- E0. vm_compute. reflexivity. }
  injection E1 as -> ->.
  eapply windowInv_mono; [exact Hinv0 |].
  intros [| [| [| p]]] crn Hp; try discriminate Hp; injection Hp as <-;
    eexists; (split; [reflexivity | reflexivity]).
Qed.

Lemma status_loop h l :
  (∀ p, p ∈ l → is_Some (h !! p)) →
  ∀ acc, ∃ codes,
    foldM (λ acc p, crn ← deref h p; Ok (acc ++ [allocatedCode crn])) acc l
    = Ok (acc ++ codes)
    ∧ length codes = length l
    ∧ ∀ i p crn, l !! i = Some p → h !! p = Some crn →
        codes !! i = Some (allocatedCode crn).
Proof.
  induction l as [| q l IH]; intros Hl acc.
  - exists []. rewrite app_nil_r. split; [reflexivity |]. split; [reflexivity |].
    intros i p crn Hi. rewrite lookup_nil in Hi. discriminate Hi.
  - destruct (Hl q) as [c Hc]; [left |].
    destruct (IH (λ p Hp, Hl p (list_elem_of_further _ _ _ Hp)) (acc ++ [allocatedCode c]))
      as (codes & Hrun & Hlen & Hcodes).
    exists (allocatedCode c :: codes). cbn [foldM].
    replace (deref h q) with (Ok c) by (unfold deref; rewrite Hc; reflexivity).
    cbn [mbind result_bind]. rewrite Hrun, <- app_assoc.
    split; [reflexivity |]. split; [simpl; lia |].
    intros [| i] p crn Hi Hp.
    + injection Hi as <-. rewrite Hc in Hp. injection Hp as <-. reflexivity.
    + apply (Hcodes i p crn Hi Hp).
Qed.

(** The report of [clientWindow.status] for a window that satisfies the window
    invariant. *)
Lemma cw_status_cells cw h :
  windowInv cw h →
  ∃ s,
    cw_status cw h = Ok s
    ∧ LowWatermark s = lowWatermark cw ∧ HighWatermark s = highWatermark cw
    ∧ Z.of_nat (length (Allocated s)) = Z.max 0 (highWatermark cw - lowWatermark cw + 1)
    ∧ ∀ r, lowWatermark cw <= r <= highWatermark cw →
        ∃ p crn, reqNoMap cw !! r = Some p ∧ h !! p = Some crn
          ∧ Allocated s !! Z.to_nat (r - lowWatermark cw)
            = Some (match committed crn with
                    | Some _ => 2
                    | None => if decide (digests crn = ∅) then 0 else 1
                    end).
Proof.
  intros Hinv. pose proof Hinv as [Hu Hlen Hl Hd].
  destruct (status_loop h (reqNoList cw)) with (acc := @nil Z)
    as (codes & Hrun & Hclen & Hcodes).
  { intros p Hp. apply lookup_lt_is_Some. eapply windowInv_live; eassumption. }
  unfold cw_status. rewrite Hrun. cbn [mbind result_bind].
  eexists. split; [reflexivity |]. simpl.
  split; [reflexivity |]. split; [reflexivity |].
  split; [rewrite Hclen; exact Hlen |].
  intros r Hr.
  destruct (lookup_lt_is_Some_2 (reqNoList cw) (Z.to_nat (r - lowWatermark cw)))
    as [p Hp]; [lia |].
  destruct (Hl _ _ Hp) as (Hm & crn & Hc & _).
  replace (lowWatermark cw + Z.of_nat (Z.to_nat (r - lowWatermark cw))) with r in Hm by lia.
  exists p, crn. split; [exact Hm |]. split; [exact Hc |].
  rewrite (Hcodes _ _ _ Hp Hc). unfold allocatedCode. f_equal.
  destruct (committed crn); [reflexivity |].
  destruct (decide (digests crn = ∅)) as [E | E].
  - rewrite E, map_size_empty. reflexivity.
  - rewrite decide_True; [reflexivity |].
    apply map_size_non_empty_iff in E. lia.
Qed.

(** X6: [clientWindow.status] reports the watermarks and one cell for every
    request number of the window, in ascending order: 2 for a request
    number that has committed, 1 for one that has not committed and has a
    digest recorded, 0 for one nothing is known about. *)
Theorem cw_status_spec cw h :
  windowInv cw h →
  ∃ s,
    cw_status cw h = Ok s
    ∧ LowWatermark s = lowWatermark cw ∧ HighWatermark s = highWatermark cw
    ∧ Z.of_nat (length (Allocated s)) = Z.max 0 (highWatermark cw - lowWatermark cw + 1)
    ∧ ∀ r, lowWatermark cw <= r <= highWatermark cw →
        ∃ p crn, reqNoMap cw !! r = Some p ∧ h !! p = Some crn
          ∧ Allocated s !! Z.to_nat (r - lowWatermark cw)
            = Some (match committed crn with
                    | Some _ => 2
                    | None => if decide (digests crn = ∅) then 0 else 1
                    end).
Proof. apply cw_status_cells. Qed.

Lemma cw_status_spec_witness :
  ∃ s, cw_status ackedByTwoWindow ackedByTwoHeap = Ok s
       ∧ Z.of_nat (length (Allocated s)) = 3.
Proof.
  destruct (cw_status_spec ackedByTwoWindow ackedByTwoHeap ackedByTwo_inv)
    as (s & Hrun & _ & _ & Hlen & _).
  exists s. split; [exact Hrun | exact Hlen].
Defined.



(** ** More on the set of client windows *)

(** *** [clientWindows.insert] *)

Lemma insertSorted_sorted x l : Sorted Z.le l → Sorted Z.le (insertSorted x l).
Proof.
  induction l as [| y l IH]; intros Hs; simpl.
  - repeat constructor.
  - destruct (decide (x <= y)).
    + constructor; [exact Hs | constructor; assumption].
    + apply Sorted_inv in Hs as [Hs Hhd]. constructor; [apply IH, Hs |].
      destruct l as [| z l]; simpl.
      * constructor. lia.
      * destruct (decide (x <= z)); constructor; [lia |].
        inversion Hhd; assumption.
Qed.

Lemma sortClients_sorted l : Sorted Z.le (sortClients l).
Proof.
  induction l as [| x l IH]; simpl; [constructor |].
  apply insertSorted_sorted, IH.
Qed.

(** X15: [clientWindows.insert] registers the window under the client's id, so
    that [clientWindow(id)] finds it and the windows of the other clients
    are found as before; the list of clients gets the id as one more
    element (a second time when it was there already) and is in ascending
    order afterwards. *)
Theorem cws_insert_spec cid cw st :
  cws_clientWindow (cws_insert cid cw st) cid = Some cw
  ∧ (∀ c, c ≠ cid →
       cws_clientWindow (cws_insert cid cw st) c = cws_clientWindow st c)
  ∧ clients (cws_insert cid cw st) ≡ₚ cid :: clients st
  ∧ Sorted Z.le (clients (cws_insert cid cw st))
  ∧ crns (cws_insert cid cw st) = crns st
  ∧ readyList (cws_insert cid cw st) = readyList st.
Proof.
  unfold cws_clientWindow, cws_insert. simpl.
  split; [apply lookup_insert_eq |].
  split; [intros c Hc; apply lookup_insert_ne; congruence |].
  split.
  { rewrite sortClients_perm. rewrite Permutation_app_comm. reflexivity. }
  split; [apply sortClients_sorted |].
  split; reflexivity.
Qed.

(** *** What advancing the ready mark can change *)

Lemma set_nextReadyMark_twice cw a b :
  set_nextReadyMark (set_nextReadyMark cw a) b = set_nextReadyMark cw b.
Proof. reflexivity. Qed.

Lemma set_ready_twice st a b c d : set_ready (set_ready st a b) c d = set_ready st c d.
Proof. reflexivity. Qed.

Lemma appendReady_frame p st st' :
  appendReady p st = Ok st' → ∃ tl es, st' = set_ready st tl es.
Proof.
  unfold appendReady, deref. destruct (readyEntries st !! readyTail st); [| discriminate].
  cbn [mbind result_bind]. intros [= <-]. eexists _, _. reflexivity.
Qed.

Lemma advanceReady_loop_frame fuel :
  ∀ i cw st cw' st',
  advanceReady_loop fuel i cw st = Ok (cw', st') →
  ∃ n tl es, cw' = set_nextReadyMark cw n ∧ st' = set_ready st tl es.
Proof.
  induction fuel as [| fuel IH]; intros i cw st cw' st'; [discriminate |].
  assert (Hstop : Ok (cw, st) = Ok (cw', st') →
            ∃ n tl es, cw' = set_nextReadyMark cw n ∧ st' = set_ready st tl es).
  { intros [= <- <-]. exists (nextReadyMark cw), (readyTail st), (readyEntries st).
    rewrite set_nextReadyMark_id, set_ready_id. split; reflexivity. }
  cbn [advanceReady_loop].
  destruct (decide (i <= highWatermark cw)); [| exact Hstop].
  destruct (reqNoMap cw !! i) as [p |]; [| discriminate].
  unfold deref. destruct (crns st !! p) as [crn |]; [| discriminate].
  cbn [mbind result_bind].
  destruct (strongRequest crn) as [k |]; [| exact Hstop].
  unfold request_deref. destruct (digests crn !! k) as [cr |]; [| discriminate].
  cbn [mbind result_bind].
  destruct (data cr); [| exact Hstop].
  destruct (appendReady p st) as [st1 | |] eqn:Happ; try discriminate.
  cbn [mbind result_bind]. intros Hrun.
  destruct (appendReady_frame _ _ _ Happ) as (tl1 & es1 & ->).
  destruct (IH _ _ _ _ _ Hrun) as (n & tl & es & -> & ->).
  exists n, tl, es. split; reflexivity.
Qed.

Lemma cws_advanceReady_frame cid st st' :
  cws_advanceReady cid st = Ok st' →
  ∃ cw n tl es,
    windows st !! cid = Some cw
    ∧ st' = set_windows (set_ready st tl es) (<[cid := set_nextReadyMark cw n]> (windows st)).
Proof.
  unfold cws_advanceReady, window_deref.
  destruct (windows st !! cid) as [cw |]; [| discriminate].
  cbn [mbind result_bind].
  destruct (advanceReady_loop _ _ _ _) as [[cw' st1] | |] eqn:Hrun; try discriminate.
  cbn [mbind result_bind]. intros [= <-].
  destruct (advanceReady_loop_frame _ _ _ _ _ _ Hrun) as (n & tl & es & -> & ->).
  exists cw, n, tl, es. split; reflexivity.
Qed.

(** [checkReady] returns the state as it is, or has found the request
    number at the ready mark and advanced. *)
Lemma cws_checkReady_frame cid p st st' :
  cws_checkReady cid p st = Ok st' →
  st' = st
  ∨ ∃ cw ocrn n tl es,
      windows st !! cid = Some cw ∧ crns st !! p = Some ocrn
      ∧ reqNo ocrn = nextReadyMark cw
      ∧ st' = set_windows (set_ready st tl es)
                (<[cid := set_nextReadyMark cw n]> (windows st)).
Proof.
  unfold cws_checkReady, window_deref.
  destruct (windows st !! cid) as [cw |] eqn:Hw; [| discriminate].
  cbn [mbind result_bind]. unfold deref.
  destruct (crns st !! p) as [ocrn |] eqn:Hp; [| discriminate].
  cbn [mbind result_bind].
  destruct (decide (reqNo ocrn ≠ nextReadyMark cw)) as [Hne | He];
    [intros [= <-]; left; reflexivity |].
  destruct (strongRequest ocrn) as [k |]; [| intros [= <-]; left; reflexivity].
  unfold request_deref. destruct (digests ocrn !! k) as [cr |]; [| discriminate].
  cbn [mbind result_bind].
  destruct (data cr); [| intros [= <-]; left; reflexivity].
  intros Hadv. right.
  destruct (cws_advanceReady_frame _ _ _ Hadv) as (cw0 & n & tl & es & Hw0 & ->).
  rewrite Hw in Hw0. injection Hw0 as <-.
  exists cw, ocrn, n, tl, es. split_and!; try reflexivity.
  destruct (decide (reqNo ocrn = nextReadyMark cw)); [assumption | contradiction].
Qed.

(** X11: An acknowledgement for a request number other than the one the ready
    mark of the window stands on releases nothing: every window and the
    ready list are as before.  In particular no acknowledgement moves a
    ready mark that is below the low watermark of its window, since [ack]
    takes no request number below the low watermark. *)
Theorem cws_ack_off_mark source ack st cw k st' :
  windows st !! ack_ClientId ack = Some cw →
  windowInv cw (crns st) →
  ack_ReqNo ack ≠ nextReadyMark cw →
  cws_ack source ack st = Ok (k, st') →
  windows st' = windows st
  ∧ readyEntries st' = readyEntries st
  ∧ readyHead st' = readyHead st ∧ readyTail st' = readyTail st
  ∧ readyList st' = readyList st.
Proof.
  intros Hw Hinv Hne. unfold cws_ack. rewrite Hw.
  destruct (cw_ack _ _ _ _ _) as [[r h'] | |] eqn:Hack; try discriminate.
  cbn [mbind result_bind].
  destruct (cws_checkReady _ _ _) as [st2 | |] eqn:Hcheck; try discriminate.
  cbn [mbind result_bind]. intros [= _ <-].
  destruct (cw_ack_run _ _ _ _ _ _ _ Hack)
    as (p & crn & crn' & Hwm & Hm & Hp & -> & Hr & _ & _ & _ & _ & Hrn & _).
  assert (Hreq : reqNo crn = ack_ReqNo ack).
  { destruct (windowInv_lookup cw (crns st) _ Hinv Hwm) as (p0 & c0 & Hm0 & Hp0 & E0).
    congruence. }
  assert (Hframe : ∀ s, windows (pushCorrect (ack_newlyCorrectReq r) (ack_Digest ack)
                                   (set_crns st s)) = windows st
                        ∧ readyEntries (pushCorrect (ack_newlyCorrectReq r) (ack_Digest ack)
                                          (set_crns st s)) = readyEntries st
                        ∧ readyHead (pushCorrect (ack_newlyCorrectReq r) (ack_Digest ack)
                                       (set_crns st s)) = readyHead st
                        ∧ readyTail (pushCorrect (ack_newlyCorrectReq r) (ack_Digest ack)
                                       (set_crns st s)) = readyTail st
                        ∧ crns (pushCorrect (ack_newlyCorrectReq r) (ack_Digest ack)
                                  (set_crns st s)) = s).
  { intros s. unfold pushCorrect. destruct (ack_newlyCorrectReq r); split_and!; reflexivity. }
  destruct (cws_checkReady_frame _ _ _ _ Hcheck) as [-> | Hadv].
  - destruct (Hframe (<[p := crn']> (crns st))) as (E1 & E2 & E3 & E4 & _).
    split_and!; try assumption.
    unfold readyList. rewrite E2, E3. reflexivity.
  - exfalso. destruct Hadv as (cw0 & ocrn & n & tl & es & Hw0 & Hp0 & Hmark & _).
    destruct (Hframe (<[p := crn']> (crns st))) as (E1 & _ & _ & _ & E5).
    rewrite E1, Hw in Hw0. injection Hw0 as <-.
    rewrite E5, Hr, list_lookup_insert_eq in Hp0 by (eapply lookup_lt_Some; exact Hp).
    injection Hp0 as <-. congruence.
Qed.

(** *** Messages never panic in a well-formed state *)

Lemma cwsInv_safe st : cwsInv st → cwsSafe st.
Proof.
  intros [Hw Hsp (ns & Hrc & _) _]. split.
  - intros cid cw Hcw. destruct (Hw cid cw Hcw) as (? & ? & ? & _). split_and!; assumption.
  - exact Hsp.
  - exists ns. exact Hrc.
Qed.

Lemma cwsSafe_ext st st' :
  cwsSafe st →
  windows st' = windows st → crns st' = crns st →
  readyEntries st' = readyEntries st → readyHead st' = readyHead st →
  readyTail st' = readyTail st →
  cwsSafe st'.
Proof.
  intros [Hw Hsp (ns & Hc & Hl)] E1 E2 E3 E4 E5. split.
  - rewrite E1, E2. exact Hw.
  - rewrite E2. exact Hsp.
  - exists ns. unfold readyChain. rewrite E3, E4, E5. split; assumption.
Qed.

Lemma cwsSafe_update st p crn crn' :
  cwsSafe st → crns st !! p = Some crn →
  reqNo crn' = reqNo crn →
  (∀ k, strongRequest crn' = Some k → is_Some (digests crn' !! k)) →
  cwsSafe (set_crns st (<[p := crn']> (crns st))).
Proof.
  intros [Hw Hsp Hrc] Hp Er Hptr.
  assert (Hlt : (p < length (crns st))%nat) by (eapply lookup_lt_Some; eassumption).
  split; simpl.
  - intros cid cw Hcw. destruct (Hw cid cw Hcw) as (Hinv & Hlow & Hhigh).
    split_and!; try assumption.
    eapply windowInv_mono; [exact Hinv |]. eapply sameReqNos_insert; eassumption.
  - intros q c k Hq Hs. destruct (decide (p = q)) as [<- | Hne].
    + rewrite list_lookup_insert_eq in Hq by exact Hlt. injection Hq as <-. apply Hptr, Hs.
    + rewrite list_lookup_insert_ne in Hq by exact Hne. eapply Hsp; eassumption.
  - exact Hrc.
Qed.

Lemma cws_advanceReady_safe st cid cw :
  cwsSafe st → windows st !! cid = Some cw →
  ∃ st', cws_advanceReady cid st = Ok st' ∧ cwsSafe st'
         ∧ msgBuffers st' = msgBuffers st ∧ crns st' = crns st.
Proof.
  intros Hsafe Hw. pose proof Hsafe as [Hwin Hsp (ns & Hrc)].
  destruct (Hwin cid cw Hw) as (Hcw & Hlow & Hhigh).
  destruct (cws_advanceReady_run st cid cw ns Hw Hcw Hsp Hrc Hlow Hhigh)
    as (k & tl & es' & ps & Hrun & Hc & Hl & _).
  eexists. split; [exact Hrun |]. split; [| split; reflexivity].
  split; simpl.
  - intros c cw0 Hcw0. destruct (decide (cid = c)) as [<- | Hne].
    + rewrite lookup_insert_eq in Hcw0. injection Hcw0 as <-.
      split_and!; simpl; [apply windowInv_set_nextReadyMark; exact Hcw | lia | exact Hhigh].
    + rewrite lookup_insert_ne in Hcw0 by exact Hne. apply (Hwin c cw0 Hcw0).
  - exact Hsp.
  - exists (ns ++ seq (length (readyEntries st)) k). split; assumption.
Qed.

Lemma cws_checkReady_safe st cid cw p ocrn :
  cwsSafe st → windows st !! cid = Some cw → crns st !! p = Some ocrn →
  ∃ st', cws_checkReady cid p st = Ok st' ∧ cwsSafe st'
         ∧ msgBuffers st' = msgBuffers st.
Proof.
  intros Hsafe Hw Hp. unfold cws_checkReady, window_deref, deref. rewrite Hw, Hp.
  cbn [mbind result_bind].
  destruct (decide (reqNo ocrn ≠ nextReadyMark cw));
    [exists st; split_and!; [reflexivity | exact Hsafe | reflexivity] |].
  destruct (strongRequest ocrn) as [k |] eqn:Hs;
    [| exists st; split_and!; [reflexivity | exact Hsafe | reflexivity]].
  destruct (safe_strong st Hsafe p ocrn k Hp Hs) as [cr Hcr].
  unfold request_deref. rewrite Hcr. cbn [mbind result_bind].
  destruct (data cr);
    [| exists st; split_and!; [reflexivity | exact Hsafe | reflexivity]].
  destruct (cws_advanceReady_safe st cid cw Hsafe Hw) as (st' & Hrun & Hs' & Hb & _).
  exists st'. split_and!; assumption.
Qed.

Lemma cwsSafe_pushCorrect nc dg st : cwsSafe st → cwsSafe (pushCorrect nc dg st).
Proof.
  intros Hs. destruct nc; [| exact Hs].
  eapply cwsSafe_ext; [exact Hs | reflexivity ..].
Qed.

Lemma cws_ack_safe source ack st cw :
  cwsSafe st → windows st !! ack_ClientId ack = Some cw →
  lowWatermark cw <= ack_ReqNo ack <= highWatermark cw →
  ∃ k st', cws_ack source ack st = Ok (k, st') ∧ cwsSafe st'
           ∧ msgBuffers st' = msgBuffers st.
Proof.
  intros Hsafe Hw Hwm. destruct (safe_windows st Hsafe _ _ Hw) as (Hinv & _ & _).
  unfold cws_ack. rewrite Hw.
  destruct (cw_ack_Ok source (ack_ReqNo ack) (ack_Digest ack) cw (crns st) Hinv Hwm)
    as [[r h'] Hack].
  rewrite Hack. cbn [mbind result_bind].
  destruct (cw_ack_run _ _ _ _ _ _ _ Hack)
    as (p & crn & crn' & _ & Hm & Hp & -> & Hr & _ & Hd & Hstrong & _ & Hrn & _).
  set (st1 := pushCorrect (ack_newlyCorrectReq r) (ack_Digest ack)
                (set_crns st (<[p := crn']> (crns st)))).
  assert (Hs1 : cwsSafe st1).
  { apply cwsSafe_pushCorrect. eapply cwsSafe_update; try eassumption.
    intros k Hk. rewrite Hd.
    destruct Hstrong as [Hs | Hs]; rewrite Hs in Hk.
    - injection Hk as <-. rewrite lookup_insert_eq. eexists; reflexivity.
    - destruct (safe_strong st Hsafe p crn k Hp Hk) as [x Hx].
      destruct (decide (ack_Digest ack = k)) as [<- | Hne].
      + rewrite lookup_insert_eq. eexists; reflexivity.
      + rewrite lookup_insert_ne by exact Hne. eexists; exact Hx. }
  assert (Hw1 : windows st1 !! ack_ClientId ack = Some cw).
  { unfold st1, pushCorrect. destruct (ack_newlyCorrectReq r); exact Hw. }
  assert (Hp1 : crns st1 !! ack_crn r = Some crn').
  { rewrite Hr. unfold st1, pushCorrect. destruct (ack_newlyCorrectReq r); simpl;
      apply list_lookup_insert_eq; eapply lookup_lt_Some; exact Hp. }
  assert (Hb1 : msgBuffers st1 = msgBuffers st).
  { unfold st1, pushCorrect. destruct (ack_newlyCorrectReq r); reflexivity. }
  destruct (cws_checkReady_safe st1 _ cw _ crn' Hs1 Hw1 Hp1) as (st2 & Hrun & Hs2 & Hb2).
  rewrite Hrun. cbn [mbind result_bind].
  eexists _, st2. split; [reflexivity |]. split; [exact Hs2 | congruence].
Qed.

Lemma cws_replyFetchRequest_safe source cid reqno dg st :
  cwsSafe st → is_Ok (cws_replyFetchRequest source cid reqno dg st).
Proof.
  intros Hsafe. unfold cws_replyFetchRequest, cws_clientWindow.
  destruct (windows st !! cid) as [cw |] eqn:Hw; [| eexists; reflexivity].
  destruct (safe_windows st Hsafe _ _ Hw) as (Hinv & _ & _).
  unfold cw_inWatermarks.
  destruct (bool_decide (reqno <= highWatermark cw)) eqn:E1;
    [| eexists; reflexivity].
  destruct (bool_decide (reqno >= lowWatermark cw)) eqn:E2;
    [| eexists; reflexivity].
  apply bool_decide_eq_true in E1, E2. simpl.
  destruct (windowInv_lookup cw (crns st) reqno Hinv ltac:(lia)) as (p & crn & Hm & Hp & _).
  unfold cw_request.
  destruct (decide (reqno > highWatermark cw)); [lia |].
  destruct (decide (reqno < lowWatermark cw)); [lia |].
  rewrite Hm. cbn [mbind result_bind]. unfold deref. rewrite Hp. cbn [mbind result_bind].
  destruct (digests crn !! dg) as [d |]; [| eexists; reflexivity].
  destruct (data d); eexists; reflexivity.
Qed.

Lemma cws_applyForwardRequest_safe source msg st cw :
  cwsSafe st → windows st !! req_ClientId (fwd_Request msg) = Some cw →
  lowWatermark cw <= req_ReqNo (fwd_Request msg) <= highWatermark cw →
  ∃ a st', cws_applyForwardRequest source msg st = Ok (a, st') ∧ cwsSafe st'
           ∧ msgBuffers st' = msgBuffers st.
Proof.
  intros Hsafe Hw Hwm. destruct (safe_windows st Hsafe _ _ Hw) as (Hinv & _ & _).
  unfold cws_applyForwardRequest, cws_clientWindow. rewrite Hw.
  destruct (windowInv_lookup cw (crns st) _ Hinv Hwm) as (p & crn & Hm & Hp & _).
  unfold cw_request.
  destruct (decide (req_ReqNo (fwd_Request msg) > highWatermark cw)); [lia |].
  destruct (decide (req_ReqNo (fwd_Request msg) < lowWatermark cw)); [lia |].
  rewrite Hm. cbn [mbind result_bind]. unfold deref. rewrite Hp. cbn [mbind result_bind].
  destruct (digests crn !! fwd_Digest msg) as [req |] eqn:Hd;
    [| exists emptyActions, st; split_and!; [reflexivity | exact Hsafe | reflexivity]].
  destruct (data req);
    [exists emptyActions, st; split_and!; [reflexivity | exact Hsafe | reflexivity] |].
  eexists _, _. split; [reflexivity |]. split; [| reflexivity].
  eapply cwsSafe_update; try eassumption; [reflexivity |].
  intros k Hk. simpl in Hk |- *.
  destruct (safe_strong st Hsafe p crn k Hp Hk) as [x Hx].
  destruct (decide (fwd_Digest msg = k)) as [<- | Hne].
  - rewrite lookup_insert_eq. eexists; reflexivity.
  - rewrite lookup_insert_ne by exact Hne. eexists; exact Hx.
Qed.

Lemma classify_current st cid reqno :
  classify st cid reqno = current →
  ∃ cw, windows st !! cid = Some cw ∧ lowWatermark cw <= reqno <= highWatermark cw.
Proof.
  unfold classify, cws_clientWindow.
  destruct (windows st !! cid) as [cw |]; [| discriminate].
  destruct (decide (lowWatermark cw > reqno)); [discriminate |].
  destruct (decide (highWatermark cw < reqno)); [discriminate |].
  intros _. exists cw. split; [reflexivity | lia].
Qed.

(** The run of [step] on a handled message in a well-formed state. *)
Lemma cws_step_run source msg st :
  cwsSafe st → is_Some (msgBuffers st !! source) → handled msg →
  ∃ a st',
    cws_step source msg st = Ok (a, st')
    ∧ cwsSafe st'
    ∧ (∀ n, is_Some (msgBuffers st !! n) → is_Some (msgBuffers st' !! n)).
Proof.
  intros Hsafe [buf Hbuf] Hmsg.
  assert (Hpast : ∃ a st', Ok (emptyActions, st) = Ok (a, st') ∧ cwsSafe st'
            ∧ (∀ n, is_Some (msgBuffers st !! n) → is_Some (msgBuffers st' !! n))).
  { exists emptyActions, st. split_and!; [reflexivity | exact Hsafe | auto]. }
  assert (Hfuture : ∃ a st',
            Ok (emptyActions,
                set_msgBuffers st (<[source := msgBuffer_store buf msg]> (msgBuffers st)))
            = Ok (a, st') ∧ cwsSafe st'
            ∧ (∀ n, is_Some (msgBuffers st !! n) → is_Some (msgBuffers st' !! n))).
  { eexists _, _. split; [reflexivity |]. split.
    - eapply cwsSafe_ext; [exact Hsafe | reflexivity ..].
    - intros n Hn. simpl. destruct (decide (source = n)) as [<- | Hne].
      + rewrite lookup_insert_eq. eexists; reflexivity.
      + rewrite lookup_insert_ne by exact Hne. exact Hn. }
  unfold cws_step. destruct msg as [ack | fetch | fwd | tag]; [| | | contradiction];
    cbn [cws_filter mbind result_bind].
  - destruct (classify st (ack_ClientId ack) (ack_ReqNo ack)) eqn:Hc;
      [exact Hpast | | rewrite Hbuf; exact Hfuture].
    apply classify_current in Hc as (cw & Hw & Hwm).
    destruct (cws_ack_safe source ack st cw Hsafe Hw Hwm) as (k & st' & Hrun & Hs' & Hb).
    cbn [cws_applyMsg]. rewrite Hrun. cbn [mbind result_bind].
    exists emptyActions, st'. split; [reflexivity |]. split; [exact Hs' |].
    intros n. rewrite Hb. auto.
  - cbn [cws_applyMsg].
    destruct (cws_replyFetchRequest_safe source (fetch_ClientId fetch) (fetch_ReqNo fetch)
                (fetch_Digest fetch) st Hsafe) as [a Ha].
    rewrite Ha. cbn [mbind result_bind].
    exists a, st. split_and!; [reflexivity | exact Hsafe | auto].
  - destruct (classify st (req_ClientId (fwd_Request fwd)) (req_ReqNo (fwd_Request fwd)))
      eqn:Hc; [exact Hpast | | rewrite Hbuf; exact Hfuture].
    apply classify_current in Hc as (cw & Hw & Hwm).
    cbn [cws_applyMsg].
    destruct (decide (source = param_Id (myConfig st))); [exact Hpast |].
    destruct (cws_applyForwardRequest_safe source fwd st cw Hsafe Hw Hwm)
      as (a & st' & Hrun & Hs' & Hb).
    exists a, st'. split; [exact Hrun |]. split; [exact Hs' |].
    intros m. rewrite Hb. auto.
Qed.

(** X8: In a well-formed state, [step] on a [RequestAck], a [FetchRequest] or
    a [ForwardRequest] from a node that has a message buffer returns: it
    runs into none of the "dev sanity" panics of the windows and
    dereferences no nil pointer.  The state it leaves is well formed again
    and has a buffer for every node that had one, so this holds for every
    sequence of such messages. *)
Theorem cws_step_safe source msg st :
  cwsSafe st → is_Some (msgBuffers st !! source) → handled msg →
  ∃ a st',
    cws_step source msg st = Ok (a, st')
    ∧ cwsSafe st'
    ∧ (∀ n, is_Some (msgBuffers st !! n) → is_Some (msgBuffers st' !! n)).
Proof. apply cws_step_run. Qed.

(** An acknowledgement from node 1 in the state after the replay of the
    example log. *)
Lemma cws_step_safe_witness :
  ∃ a st', cws_step 1 (Msg_RequestAck exampleAck5) exampleReplayed = Ok (a, st')
           ∧ cwsSafe st'.
Proof.
  destruct (cws_step_safe 1 (Msg_RequestAck exampleAck5) exampleReplayed)
    as (a & st' & Hrun & Hs & _).
  - apply cwsInv_safe, exampleReplayed_inv.
  - exists []. vm_compute. reflexivity.
  - exact I.
  - exists a, st'. split; assumption.
Defined.

Lemma exampleReplayed_window :
  windows exampleReplayed !! 7 = Some (windowOf7 exampleReplayed).
Proof. vm_compute. reflexivity. Qed.

Lemma exampleReplayed_watermarks :
  lowWatermark (windowOf7 exampleReplayed) = 0
  ∧ highWatermark (windowOf7 exampleReplayed) = 100
  ∧ nextReadyMark (windowOf7 exampleReplayed) = 1.
Proof. vm_compute. split_and!; reflexivity. Qed.

(** The acknowledgement of request number 5 while the ready mark of the
    window stands on request number 1. *)
Lemma cws_ack_off_mark_witness :
  ∃ k st', cws_ack 1 exampleAck5 exampleReplayed = Ok (k, st')
           ∧ windows st' = windows exampleReplayed
           ∧ readyList st' = readyList exampleReplayed.
Proof.
  destruct exampleReplayed_watermarks as (Hlo & Hhi & Hnext).
  destruct (cws_ack_safe 1 exampleAck5 exampleReplayed (windowOf7 exampleReplayed))
    as (k & st' & Hrun & _).
  - apply cwsInv_safe, exampleReplayed_inv.
  - exact exampleReplayed_window.
  - rewrite Hlo, Hhi. simpl. lia.
  - exists k, st'. split; [exact Hrun |].
    destruct (cws_ack_off_mark 1 exampleAck5 exampleReplayed (windowOf7 exampleReplayed) k st')
      as (Hw & _ & _ & _ & Hl).
    + exact exampleReplayed_window.
    + apply (inv_windows _ exampleReplayed_inv 7), exampleReplayed_window.
    + rewrite Hnext. simpl. lia.
    + exact Hrun.
    + split; assumption.
Defined.

(** *** Storing a payload and fetching it *)

(** X13: After [allocate] has stored the payload of a request under a digest,
    a [FetchRequest] for that client, request number and digest is
    answered with that payload, sent to the requester alone. *)
Theorem cws_allocate_then_fetch rq dg st st' source :
  cws_allocate rq dg st = Ok st' →
  cws_replyFetchRequest source (req_ClientId rq) (req_ReqNo rq) dg st'
  = Ok {| act_Send :=
            [{| Targets := [source];
                send_Msg := Msg_ForwardRequest {| fwd_Request := rq; fwd_Digest := dg |} |}];
          act_Hash := [] |}.
Proof.
  unfold cws_allocate.
  destruct (windows st !! req_ClientId rq) as [cw |] eqn:Hw; [| discriminate].
  destruct (cw_allocate rq dg cw (crns st)) as [[[p nc] h'] | |] eqn:Hal; try discriminate.
  cbn [mbind result_bind]. intros Hcheck.
  destruct (cw_allocate_run _ _ _ _ _ _ _ Hal)
    as (crn & crn' & Hwm & Hm & Hp & -> & Hd & _).
  set (st1 := pushCorrect nc dg (set_crns st (<[p := crn']> (crns st)))) in *.
  assert (Hw1 : windows st1 = windows st)
    by (unfold st1, pushCorrect; destruct nc; reflexivity).
  assert (Hc1 : crns st1 = <[p := crn']> (crns st))
    by (unfold st1, pushCorrect; destruct nc; reflexivity).
  assert (Hst' : ∃ cw', windows st' !! req_ClientId rq = Some cw'
                        ∧ lowWatermark cw' = lowWatermark cw
                        ∧ highWatermark cw' = highWatermark cw
                        ∧ reqNoMap cw' = reqNoMap cw
                        ∧ crns st' = <[p := crn']> (crns st)).
  { destruct (cws_checkReady_frame _ _ _ _ Hcheck) as [-> | Hadv].
    - exists cw. rewrite Hw1, Hc1. split_and!; try reflexivity. exact Hw.
    - destruct Hadv as (cw0 & ocrn & n & tl & es & Hw0 & _ & _ & ->).
      rewrite Hw1, Hw in Hw0. injection Hw0 as <-.
      exists (set_nextReadyMark cw n). simpl. rewrite lookup_insert_eq.
      split_and!; try reflexivity. exact Hc1. }
  destruct Hst' as (cw' & Hw' & Hlo & Hhi & Hmap & Hcrns).
  unfold cws_replyFetchRequest, cws_clientWindow. rewrite Hw'.
  unfold cw_inWatermarks. rewrite Hlo, Hhi.
  rewrite !bool_decide_eq_true_2 by lia. simpl.
  unfold cw_request. rewrite Hlo, Hhi, Hmap.
  destruct (decide (req_ReqNo rq > highWatermark cw)); [lia |].
  destruct (decide (req_ReqNo rq < lowWatermark cw)); [lia |].
  rewrite Hm. cbn [mbind result_bind]. unfold deref.
  rewrite Hcrns, list_lookup_insert_eq by (eapply lookup_lt_Some; exact Hp).
  cbn [mbind result_bind]. rewrite Hd, lookup_insert_eq. reflexivity.
Qed.

(** *** The replay needs a checkpoint *)

Lemma replay_without_checkpoint log :
  ∀ st b,
  networkConfig st = None → windows st = ∅ →
  (∀ c, Persistent_CEntry c ∉ log) →
  (∃ msg, foldM replayEntry (st, b) log = Panic msg)
  ∨ (∃ b', foldM replayEntry (st, b) log = Ok (st, b')).
Proof.
  induction log as [| e log IH]; intros st b Hcfg Hw Hno.
  - right. exists b. reflexivity.
  - assert (Hno' : ∀ c, Persistent_CEntry c ∉ log).
    { intros c Hc. apply (Hno c). right. exact Hc. }
    cbn [foldM]. destruct e as [c | q | p |].
    + exfalso. apply (Hno c). left.
    + cbn [replayEntry mbind result_bind]. apply IH; assumption.
    + cbn [replayEntry]. destruct (b !! pe_Digest p) as [batch |];
        [| left; eexists; reflexivity].
      destruct batch as [| r batch].
      * cbn [foldM mbind result_bind]. apply IH; assumption.
      * left. cbn [foldM]. unfold replayRequest, window_deref.
        rewrite Hw, lookup_empty. eexists. reflexivity.
    + cbn [replayEntry mbind result_bind]. apply IH; assumption.
Qed.

(** X19: [newClientWindows] panics on every log that has no checkpoint entry,
    the empty log among them: the network configuration it reads at the
    end comes from the first [CEntry] only. *)
Theorem newClientWindows_needs_checkpoint log cfg :
  (∀ c, Persistent_CEntry c ∉ log) →
  ∃ msg, newClientWindows log cfg = Panic msg.
Proof.
  intros Hno. unfold newClientWindows, replayLog.
  destruct (replay_without_checkpoint log (initialClientWindows cfg) ∅ eq_refl eq_refl Hno)
    as [[msg Hp] | [b' Hok]].
  - rewrite Hp. exists msg. reflexivity.
  - rewrite Hok. cbn [mbind result_bind]. eexists. reflexivity.
Qed.

Lemma newClientWindows_needs_checkpoint_witness :
  ∃ msg, newClientWindows [] exampleParams = Panic msg.
Proof.
  apply (newClientWindows_needs_checkpoint [] exampleParams).
  intros c Hc. apply elem_of_nil in Hc. exact Hc.
Defined.

(** *** The state after the replay serves every configured node *)

Lemma foldl_insert_buffers (nodes : list Z) :
  ∀ (b : gmap Z (list Msg)) n,
  n ∈ nodes ∨ b !! n = Some [] →
  foldl (λ b id, <[id := []]> b) b nodes !! n = Some [].
Proof.
  induction nodes as [| x nodes IH]; intros b n Hn.
  - destruct Hn as [Hn | Hn]; [apply elem_of_nil in Hn; contradiction | exact Hn].
  - simpl. apply IH. destruct (decide (x = n)) as [-> | Hne].
    + right. apply lookup_insert_eq.
    + destruct Hn as [Hn | Hn].
      * apply elem_of_cons in Hn as [-> | Hn]; [contradiction | left; exact Hn].
      * right. rewrite lookup_insert_ne by exact Hne. exact Hn.
Qed.

(** X21: When [newClientWindows] returns, the state has the network
    configuration of the log, an empty message buffer for every node of
    that configuration, and is well formed: [step] returns on every
    handled message from every configured node. *)
Theorem newClientWindows_serves log cfg st :
  Forall persistedUint64 log →
  newClientWindows log cfg = Ok st →
  ∃ nc, networkConfig st = Some nc
        ∧ (∀ n, n ∈ Nodes nc → msgBuffers st !! n = Some [])
        ∧ cwsSafe st
        ∧ ∀ n msg, n ∈ Nodes nc → handled msg → is_Ok (cws_step n msg st).
Proof.
  intros Hlog Hrun.
  destruct (newClientWindows_run log cfg st Hlog Hrun)
    as (st1 & batches & st2 & nc & _ & _ & Hnc & -> & _ & _ & Hinv & _).
  assert (Hbuf : ∀ n, n ∈ Nodes nc →
            msgBuffers (set_msgBuffers st2
              (foldl (λ b id, <[id := []]> b) (msgBuffers st2) (Nodes nc))) !! n = Some []).
  { intros n Hn. simpl. apply foldl_insert_buffers. left. exact Hn. }
  exists nc. split; [exact Hnc |]. split; [exact Hbuf |].
  split; [apply cwsInv_safe, Hinv |].
  intros n msg Hn Hmsg.
  destruct (cws_step_run n msg _ (cwsInv_safe _ Hinv)) as (a & st' & Hstep & _).
  - rewrite (Hbuf n Hn). eexists; reflexivity.
  - exact Hmsg.
  - eexists. exact Hstep.
Qed.

Lemma newClientWindows_serves_witness :
  ∃ nc, networkConfig exampleReplayed = Some nc
        ∧ ∀ n, n ∈ Nodes nc → msgBuffers exampleReplayed !! n = Some [].
Proof.
  destruct (newClientWindows_serves exampleLog exampleParams exampleReplayed)
    as (nc & Hnc & Hbuf & _).
  - exact exampleLog_uint64.
  - exact exampleReplayed_eq.
  - exists nc. split; assumption.
Defined.

Lemma cws_allocate_then_fetch_witness :
  cws_replyFetchRequest 2 7 0 "d"
    (stateOf (cws_allocate exampleRequest "d" exampleReplayed))
  = Ok {| act_Send :=
            [{| Targets := [2];
                send_Msg := Msg_ForwardRequest
                              {| fwd_Request := exampleRequest; fwd_Digest := "d" |} |}];
          act_Hash := [] |}.
Proof.
  apply (cws_allocate_then_fetch exampleRequest "d" exampleReplayed).
  vm_compute. reflexivity.
Defined.

(** *** Forwarded requests *)

(** X14: [applyForwardRequest] asks for at most one hash and sends nothing.
    It asks for the hash exactly when the digest of the forwarded request
    is recorded for the request number and its payload is not known yet:
    the hash is over the client id, the request number and the forwarded
    payload, to be compared with the forwarded digest, and the forwarding
    node is counted among the agreements of the digest.  Otherwise the
    state is left as it is.  The windows, the payloads, the strong
    requests, the list of correct requests and the ready list never
    change. *)
Theorem cws_applyForwardRequest_spec source msg st a st' :
  cws_applyForwardRequest source msg st = Ok (a, st') →
  act_Send a = []
  ∧ windows st' = windows st ∧ correctList st' = correctList st
  ∧ readyList st' = readyList st
  ∧ (∀ q, strongRequest <$> crns st' !! q = strongRequest <$> crns st !! q)
  ∧ (∀ q d, dataOf (crns st') q d = dataOf (crns st) q d)
  ∧ ((act_Hash a = [] ∧ st' = st
      ∧ ∀ cw p crn cr,
          windows st !! req_ClientId (fwd_Request msg) = Some cw →
          reqNoMap cw !! req_ReqNo (fwd_Request msg) = Some p →
          crns st !! p = Some crn →
          digests crn !! fwd_Digest msg = Some cr → is_Some (data cr))
     ∨ (∃ cw p crn cr,
          windows st !! req_ClientId (fwd_Request msg) = Some cw
          ∧ reqNoMap cw !! req_ReqNo (fwd_Request msg) = Some p
          ∧ crns st !! p = Some crn
          ∧ digests crn !! fwd_Digest msg = Some cr ∧ data cr = None
          ∧ act_Hash a
            = [{| hash_Data := [uint64ToBytes (req_ClientId (fwd_Request msg));
                                uint64ToBytes (req_ReqNo (fwd_Request msg));
                                rawBytes (req_Data (fwd_Request msg))];
                  hash_Origin := {| vr_Source := source;
                                    vr_Request := fwd_Request msg;
                                    vr_ExpectedDigest := fwd_Digest msg |} |}]
          ∧ agreementsOf (crns st') p (fwd_Digest msg)
            = {[source]} ∪ agreementsOf (crns st) p (fwd_Digest msg))).
Proof.
  unfold cws_applyForwardRequest, cws_clientWindow.
  assert (Hsame : Ok (emptyActions, st) = Ok (a, st') →
            act_Send a = [] ∧ windows st' = windows st ∧ correctList st' = correctList st
            ∧ readyList st' = readyList st
            ∧ (∀ q, strongRequest <$> crns st' !! q = strongRequest <$> crns st !! q)
            ∧ (∀ q d, dataOf (crns st') q d = dataOf (crns st) q d)
            ∧ act_Hash a = [] ∧ st' = st).
  { intros [= <- <-]. split_and!; reflexivity. }
  destruct (windows st !! req_ClientId (fwd_Request msg)) as [cw |] eqn:Hw.
  2:{ intros Hrun. destruct (Hsame Hrun) as (? & ? & ? & ? & ? & ? & ? & ?).
      split_and!; try assumption. left. split_and!; try assumption.
      intros cw p crn cr Hcw. discriminate Hcw. }
  unfold cw_request.
  destruct (decide (req_ReqNo (fwd_Request msg) > highWatermark cw)); [discriminate |].
  destruct (decide (req_ReqNo (fwd_Request msg) < lowWatermark cw)); [discriminate |].
  destruct (reqNoMap cw !! req_ReqNo (fwd_Request msg)) as [p |] eqn:Hm; [| discriminate].
  cbn [mbind result_bind]. unfold deref.
  destruct (crns st !! p) as [crn |] eqn:Hp; [| discriminate].
  cbn [mbind result_bind].
  destruct (digests crn !! fwd_Digest msg) as [req |] eqn:Hd.
  2:{ intros Hrun. destruct (Hsame Hrun) as (? & ? & ? & ? & ? & ? & ? & ?).
      split_and!; try assumption. left. split_and!; try assumption.
      intros cw0 p0 crn0 cr0 Hcw0 Hm0 Hp0 Hd0.
      assert (cw0 = cw) as -> by congruence. assert (p0 = p) as -> by congruence.
      assert (crn0 = crn) as -> by congruence. congruence. }
  destruct (data req) as [rq |] eqn:Hdata.
  { intros Hrun. destruct (Hsame Hrun) as (? & ? & ? & ? & ? & ? & ? & ?).
    split_and!; try assumption. left. split_and!; try assumption.
    intros cw0 p0 crn0 cr0 Hcw0 Hm0 Hp0 Hd0.
    assert (cw0 = cw) as -> by congruence. assert (p0 = p) as -> by congruence.
    assert (crn0 = crn) as -> by congruence. assert (cr0 = req) as -> by congruence.
    rewrite Hdata. eexists; reflexivity. }
  intros [= <- <-]. simpl.
  assert (Hlt : (p < length (crns st))%nat) by (eapply lookup_lt_Some; exact Hp).
  split_and!; try reflexivity.
  - intros q. destruct (decide (p = q)) as [<- | Hne].
    + rewrite list_lookup_insert_eq by exact Hlt. rewrite Hp. reflexivity.
    + rewrite list_lookup_insert_ne by exact Hne. reflexivity.
  - intros q d. unfold dataOf. destruct (decide (p = q)) as [<- | Hne].
    + rewrite list_lookup_insert_eq by exact Hlt. rewrite Hp. simpl.
      destruct (decide (fwd_Digest msg = d)) as [<- | Hnd].
      * rewrite lookup_insert_eq, Hd. simpl. symmetry. exact Hdata.
      * rewrite lookup_insert_ne by exact Hnd. reflexivity.
    + rewrite list_lookup_insert_ne by exact Hne. reflexivity.
  - right. exists cw, p, crn, req. split_and!; try reflexivity; try assumption.
    unfold agreementsOf. rewrite list_lookup_insert_eq by exact Hlt. rewrite Hp. simpl.
    rewrite lookup_insert_eq, Hd. reflexivity.
Qed.

(** Node 2 forwards the request that node 1 has acknowledged. *)
Lemma cws_applyForwardRequest_spec_witness :
  ∃ a st', cws_applyForwardRequest 2 exampleForward5 exampleAcked5 = Ok (a, st')
           ∧ act_Send a = [] ∧ windows st' = windows exampleAcked5.
Proof.
  set (r := cws_applyForwardRequest 2 exampleForward5 exampleAcked5).
  assert (E : r = Ok (from_Ok (emptyActions, exampleAcked5) r))
    by (vm_compute; reflexivity).
  exists (from_Ok (emptyActions, exampleAcked5) r).1, (from_Ok (emptyActions, exampleAcked5) r).2.
  destruct (cws_applyForwardRequest_spec 2 exampleForward5 exampleAcked5
              (from_Ok (emptyActions, exampleAcked5) r).1
              (from_Ok (emptyActions, exampleAcked5) r).2) as (Hs & Hw & _).
  - rewrite <- surjective_pairing. exact E.
  - rewrite <- surjective_pairing. split_and!; assumption.
Defined.

(** ** The client state of a checkpoint: [clientConfigs] *)

Lemma mod_shift_inj nb a i j :
  0 < nb → 0 <= i < nb → 0 <= j < nb →
  (a + i) mod nb = (a + j) mod nb → i = j.
Proof.
  intros Hnb Hi Hj E.
  pose proof (Z.div_mod (a + i) nb ltac:(lia)) as E1.
  pose proof (Z.div_mod (a + j) nb ltac:(lia)) as E2.
  rewrite E in E1.
  assert ((a + i) / nb = (a + j) / nb) by nia.
  lia.
Qed.

Lemma mod_shift_back nb a b :
  0 < nb → 0 <= b < nb → (a + (b - a) mod nb) mod nb = b.
Proof.
  intros Hnb Hb. rewrite Zplus_mod_idemp_r.
  replace (a + (b - a)) with b by lia. apply Z.mod_small. exact Hb.
Qed.

Lemma foldl_ext_in {A B} (f g : A → B → A) (l : list B) :
  (∀ a x, x ∈ l → f a x = g a x) → ∀ a, foldl f a l = foldl g a l.
Proof.
  induction l as [| x l IH]; intros Hfg a; [reflexivity |].
  simpl. rewrite (Hfg a x) by left. apply IH.
  intros a' y Hy. apply Hfg. right. exact Hy.
Qed.

Lemma foldl_insert_lookup {A} (f : Z → nat) (g : Z → A) (l : list Z) (init : list A) :
  length (foldl (λ a i, <[f i := g i]> a) init l) = length init
  ∧ ∀ i, i ∈ l → (f i < length init)%nat → (∀ j, j ∈ l → f j = f i → j = i) →
      foldl (λ a i, <[f i := g i]> a) init l !! f i = Some (g i).
Proof.
  induction l as [| x l IH] using rev_ind.
  - split; [reflexivity | intros i Hi; apply elem_of_nil in Hi; contradiction].
  - rewrite foldl_app. simpl. destruct IH as [Hlen Hlk]. split.
    + rewrite length_insert. exact Hlen.
    + intros i Hi Hlt Hinj. destruct (decide (i = x)) as [-> | Hne].
      * apply list_lookup_insert_eq. rewrite Hlen. exact Hlt.
      * assert (Hil : i ∈ l).
        { apply elem_of_app in Hi as [Hi | Hi]; [exact Hi |].
          apply list_elem_of_singleton in Hi. contradiction. }
        rewrite list_lookup_insert_ne.
        -- apply Hlk; [exact Hil | exact Hlt |].
           intros j Hj. apply Hinj, elem_of_app. left. exact Hj.
        -- intros E. apply Hne. symmetry. apply Hinj; [| exact E].
           apply elem_of_app. right. left.
Qed.

(** The cells after the first loop: bucket [b] holds the request number
    of the bucket among the [nb] request numbers above the window. *)
Lemma initialBuckets_spec nb high cid :
  0 < nb → 0 <= high → 0 <= cid → high + cid + 2 * nb <= MaxUint64 →
  length (initialBuckets nb high cid) = Z.to_nat nb
  ∧ ∀ b, 0 <= b < nb →
      initialBuckets nb high cid !! Z.to_nat b
      = Some (high + 1 + (b - (high + 1 + cid)) mod nb).
Proof.
  intros Hnb Hhigh Hcid Hno.
  assert (Hfo : firstOutOfWindowBucket nb high cid = (high + 1 + cid) mod nb).
  { unfold firstOutOfWindowBucket. rewrite (wrap64_small (high + 1)) by lia.
    rewrite wrap64_small by lia. reflexivity. }
  set (fo := (high + 1 + cid) mod nb) in *.
  assert (Hfor : 0 <= fo < nb) by (apply Z.mod_pos_bound; lia).
  set (f := λ i : Z, Z.to_nat ((fo + i) mod nb)).
  set (g := λ i : Z, high + 1 + i).
  assert (E : initialBuckets nb high cid
              = foldl (λ a i, <[f i := g i]> a) (replicate (Z.to_nat nb) 0) (seqZ 0 nb)).
  { unfold initialBuckets. apply foldl_ext_in. intros a i Hi.
    apply elem_of_seqZ in Hi. rewrite Hfo. unfold f, g.
    rewrite (wrap64_small (fo + i)) by lia.
    rewrite (wrap64_small (high + 1)) by lia.
    rewrite (wrap64_small (high + 1 + i)) by lia. reflexivity. }
  rewrite E.
  destruct (foldl_insert_lookup f g (seqZ 0 nb) (replicate (Z.to_nat nb) 0)) as [Hlen Hlk].
  rewrite length_replicate in Hlen, Hlk.
  split; [exact Hlen |].
  intros b Hb.
  set (i := (b - (high + 1 + cid)) mod nb).
  assert (Hi : 0 <= i < nb) by (apply Z.mod_pos_bound; lia).
  assert (Hfi : f i = Z.to_nat b).
  { unfold f, fo, i. f_equal. rewrite Zplus_mod_idemp_l.
    apply mod_shift_back; lia. }
  rewrite <- Hfi. apply (Hlk i).
  - apply elem_of_seqZ. lia.
  - rewrite Hfi. lia.
  - intros j Hj Ej. apply elem_of_seqZ in Hj.
    unfold f in Ej. apply Z2Nat.inj in Ej;
      [| apply Z.mod_pos_bound; lia | apply Z.mod_pos_bound; lia].
    apply (mod_shift_inj nb fo); [lia | lia | lia | exact Ej].
Qed.

(** One turn of the loop over [reqNoList], on request number [n]. *)
Lemma lowerBucket_step cw h nb cid n blws p crn :
  0 < nb → 0 <= cid → 0 <= lowWatermark cw →
  highWatermark cw + cid + 2 * nb <= MaxUint64 →
  lowWatermark cw <= n <= highWatermark cw →
  reqNoMap cw !! n = Some p → h !! p = Some crn →
  reqNo crn = n → clientID crn = cid →
  bucketsUpTo cw h nb cid n blws →
  ∃ blws', lowerBucket nb h blws p = Ok blws'
           ∧ bucketsUpTo cw h nb cid (n + 1) blws'.
Proof.
  intros Hnb Hcid Hlow Hno Hn Hm Hp Hreq Hid [Hlen Hb].
  unfold lowerBucket, deref. rewrite Hp. cbn [mbind result_bind].
  destruct (committed crn) as [s |] eqn:Hc.
  - exists blws. split; [reflexivity |]. split; [exact Hlen |].
    intros b Hbr. destruct (Hb b Hbr) as (v & Hv & Hmod & Hle & Hin & Hout & Hmin).
    exists v. split_and!; try assumption.
    + intros Hvh. destruct (Hin Hvh). split; [lia | assumption].
    + intros r Hr Hrv Hrb. destruct (decide (r = n)) as [-> | Hne].
      * exists s, p, crn. split_and!; assumption.
      * apply Hmin; [lia | assumption | assumption].
  - rewrite decide_False by lia. rewrite Hreq, Hid.
    rewrite wrap64_small by lia.
    set (b0 := (n + cid) mod nb).
    assert (Hb0 : 0 <= b0 < nb) by (apply Z.mod_pos_bound; lia).
    destruct (Hb b0 Hb0) as (v0 & Hv0 & Hmod0 & Hle0 & Hin0 & Hout0 & Hmin0).
    rewrite Hv0.
    destruct (decide (v0 <= n)) as [Hvn | Hvn].
    + exists blws. split; [reflexivity |]. split; [exact Hlen |].
      intros b Hbr. destruct (Hb b Hbr) as (v & Hv & Hmod & Hle & Hin & Hout & Hmin).
      exists v. split_and!; try assumption.
      * intros Hvh. destruct (Hin Hvh). split; [lia | assumption].
      * intros r Hr Hrv Hrb. destruct (decide (r = n)) as [-> | Hne].
        -- exfalso. assert (b = b0) as -> by (unfold b0; lia).
           rewrite Hv in Hv0. injection Hv0 as ->. lia.
        -- apply Hmin; [lia | assumption | assumption].
    + exists (<[Z.to_nat b0 := n]> blws). split; [reflexivity |].
      split; [rewrite length_insert; exact Hlen |].
      intros b Hbr. destruct (decide (b = b0)) as [-> | Hne].
      * exists n. split_and!.
        -- apply list_lookup_insert_eq. lia.
        -- reflexivity.
        -- lia.
        -- intros _. split; [lia |]. exists p, crn. split_and!; assumption.
        -- intros Hbad. lia.
        -- intros r Hr Hrv Hrb. apply Hmin0; [lia | lia | exact Hrb].
      * destruct (Hb b Hbr) as (v & Hv & Hmod & Hle & Hin & Hout & Hmin).
        exists v. split_and!; try assumption.
        -- rewrite list_lookup_insert_ne by lia. exact Hv.
        -- intros Hvh. destruct (Hin Hvh). split; [lia | assumption].
        -- intros r Hr Hrv Hrb. destruct (decide (r = n)) as [-> | Hnr].
           ++ exfalso. apply Hne. unfold b0. lia.
           ++ apply Hmin; [lia | assumption | assumption].
Qed.

Lemma lowerBuckets_spec cw h nb cid :
  0 < nb → 0 <= cid → 0 <= lowWatermark cw →
  highWatermark cw + cid + 2 * nb <= MaxUint64 →
  ∀ l n blws,
  (∀ i p, l !! i = Some p →
     lowWatermark cw <= n + Z.of_nat i <= highWatermark cw
     ∧ reqNoMap cw !! (n + Z.of_nat i) = Some p
     ∧ ∃ crn, h !! p = Some crn ∧ reqNo crn = n + Z.of_nat i ∧ clientID crn = cid) →
  bucketsUpTo cw h nb cid n blws →
  ∃ blws', foldM (lowerBucket nb h) blws l = Ok blws'
           ∧ bucketsUpTo cw h nb cid (n + Z.of_nat (length l)) blws'.
Proof.
  intros Hnb Hcid Hlow Hno. induction l as [| p l IH]; intros n blws Hl Hinv.
  - exists blws. simpl. rewrite Z.add_0_r. split; [reflexivity | exact Hinv].
  - destruct (Hl 0%nat p eq_refl) as (Hn & Hm & crn & Hp & Hreq & Hid).
    rewrite Z.add_0_r in Hn, Hm, Hreq.
    destruct (lowerBucket_step cw h nb cid n blws p crn) as (blws1 & Hstep & Hinv1);
      try assumption.
    destruct (IH (n + 1) blws1) as (blws' & Hrun & Hinv').
    + intros i q Hi. destruct (Hl (S i) q Hi) as (Hn' & Hm' & crn' & Hq & Hreq' & Hid').
      replace (n + 1 + Z.of_nat i) with (n + Z.of_nat (S i)) by lia.
      split; [exact Hn' |]. split; [exact Hm' |].
      exists crn'. split_and!; assumption.
    + exact Hinv1.
    + exists blws'. cbn [foldM]. rewrite Hstep. cbn [mbind result_bind].
      split; [exact Hrun |].
      replace (n + Z.of_nat (length (p :: l))) with (n + 1 + Z.of_nat (length l))
        by (simpl; lia).
      exact Hinv'.
Qed.

(** The bucket low watermarks [clientConfigs] computes for one client. *)
Lemma clientConfig_spec st cfg cid cw :
  networkConfig st = Some cfg → 0 < NumberOfBuckets cfg →
  checkpointable st (NumberOfBuckets cfg) cid cw →
  ∃ blws,
    clientConfig st cid = Ok {| client_Id := cid; BucketLowWatermarks := blws |}
    ∧ length blws = Z.to_nat (NumberOfBuckets cfg)
    ∧ ∀ b, 0 <= b < NumberOfBuckets cfg →
        ∃ v, blws !! Z.to_nat b = Some v
             ∧ bucketLowWatermark cw (crns st) (NumberOfBuckets cfg) cid b v.
Proof.
  intros Hcfg Hnb (Hw & Hinv & Hcid & Hno & Hown).
  pose proof Hinv as [Hu Hlen Hl Hd].
  set (nb := NumberOfBuckets cfg) in *.
  destruct (initialBuckets_spec nb (highWatermark cw) cid) as [Hilen Hinit];
    try lia.
  destruct (lowerBuckets_spec cw (crns st) nb cid Hnb Hcid ltac:(lia) Hno
              (reqNoList cw) (lowWatermark cw) (initialBuckets nb (highWatermark cw) cid))
    as (blws & Hrun & [Hblen Hb]).
  { intros i p Hi. destruct (Hl i p Hi) as (Hm & crn & Hp & Hreq).
    split; [apply Hd; eexists; exact Hm |]. split; [exact Hm |].
    exists crn. split_and!; try assumption.
    rewrite Forall_forall in Hown.
    specialize (Hown p (list_elem_of_lookup_2 _ _ _ Hi)).
    rewrite Hp in Hown. simpl in Hown. congruence. }
  { split; [exact Hilen |]. intros b Hbr. eexists. split; [apply Hinit, Hbr |].
    set (m := (b - (highWatermark cw + 1 + cid)) mod nb).
    assert (Hmr : 0 <= m < nb) by (apply Z.mod_pos_bound; lia).
    split_and!.
    - replace (highWatermark cw + 1 + m + cid) with (highWatermark cw + 1 + cid + m) by lia.
      apply mod_shift_back; lia.
    - lia.
    - intros Hbad. lia.
    - intros _. reflexivity.
    - intros r Hr. lia. }
  exists blws. split.
  { unfold clientConfig. rewrite Hcfg. fold nb.
    rewrite decide_False by lia. rewrite Hw, Hrun. reflexivity. }
  split; [exact Hblen |].
  intros b Hbr. destruct (Hb b Hbr) as (v & Hv & Hmod & Hle & Hin & Hout & Hmin).
  exists v. split; [exact Hv |]. split_and!; try assumption.
  - intros Hvh. apply Hin, Hvh.
  - intros r Hr Hrb. destruct (decide (r <= highWatermark cw)) as [Hrh | Hrh].
    + split; [exact Hrh |]. apply Hmin; [lia | lia | exact Hrb].
    + exfalso. specialize (Hout ltac:(lia)).
      set (m := (b - (highWatermark cw + 1 + cid)) mod nb) in *.
      assert (Hmr : 0 <= m < nb) by (apply Z.mod_pos_bound; lia).
      assert (E : r - (highWatermark cw + 1) = m).
      { apply (mod_shift_inj nb (highWatermark cw + 1 + cid)); [lia | lia | lia |].
        replace (highWatermark cw + 1 + cid + (r - (highWatermark cw + 1))) with (r + cid)
          by lia.
        rewrite Hrb. symmetry. apply mod_shift_back; lia. }
      lia.
Qed.


Lemma collect_spec {A B} (f : A → result B) (l : list A) :
  ∀ acc cs,
  foldM (λ acc x, c ← f x; Ok (acc ++ [c])) acc l = Ok cs →
  ∃ cs', cs = acc ++ cs' ∧ Forall2 (λ x c, f x = Ok c) l cs'.
Proof.
  induction l as [| x l IH]; intros acc cs.
  - intros [= <-]. exists []. rewrite app_nil_r. split; [reflexivity | constructor].
  - cbn [foldM]. destruct (f x) as [c | |] eqn:Hx; try discriminate.
    cbn [mbind result_bind]. intros Hrun.
    destruct (IH _ _ Hrun) as (cs' & -> & Hall).
    exists (c :: cs'). rewrite <- app_assoc. split; [reflexivity |].
    constructor; assumption.
Qed.

Lemma collect_total {A B} (f : A → result B) (l : list A) :
  (∀ x, x ∈ l → is_Ok (f x)) →
  ∀ acc, is_Ok (foldM (λ acc x, c ← f x; Ok (acc ++ [c])) acc l).
Proof.
  induction l as [| x l IH]; intros Hl acc.
  - eexists. reflexivity.
  - destruct (Hl x) as [c Hc]; [left |].
    cbn [foldM]. rewrite Hc. cbn [mbind result_bind].
    apply IH. intros y Hy. apply Hl. right. exact Hy.
Qed.

Lemma Forall2_impl_in {A B} (P Q : A → B → Prop) l k :
  Forall2 P l k → (∀ x y, x ∈ l → P x y → Q x y) → Forall2 Q l k.
Proof.
  induction 1 as [| x y l k Hxy Hlk IH]; intros Himp; constructor.
  - apply Himp; [left | exact Hxy].
  - apply IH. intros x' y' Hx'. apply Himp. right. exact Hx'.
Qed.

(** X17: [clientConfigs] returns one entry for every client, in the order of
    [cws.clients], with one low watermark for every bucket: the low
    watermark of a bucket is the least request number of the bucket, from
    the low watermark of the window on, that has not committed, where the
    request numbers above the window count as not committed. *)
Theorem cws_clientConfigs_spec st cfg :
  networkConfig st = Some cfg → 0 < NumberOfBuckets cfg →
  (∀ cid, cid ∈ clients st → ∃ cw, checkpointable st (NumberOfBuckets cfg) cid cw) →
  ∃ cs,
    cws_clientConfigs st = Ok cs
    ∧ Forall2 (λ cid c,
        client_Id c = cid
        ∧ length (BucketLowWatermarks c) = Z.to_nat (NumberOfBuckets cfg)
        ∧ ∃ cw, windows st !! cid = Some cw
            ∧ ∀ b, 0 <= b < NumberOfBuckets cfg →
                ∃ v, BucketLowWatermarks c !! Z.to_nat b = Some v
                     ∧ bucketLowWatermark cw (crns st) (NumberOfBuckets cfg) cid b v)
        (clients st) cs.
Proof.
  intros Hcfg Hnb Hall.
  destruct (collect_total (clientConfig st) (clients st)) with (acc := @nil NetworkState_Client)
    as [cs Hrun].
  { intros cid Hcid. destruct (Hall cid Hcid) as [cw Hcw].
    destruct (clientConfig_spec st cfg cid cw Hcfg Hnb Hcw) as (blws & Hc & _).
    eexists. exact Hc. }
  exists cs. split; [exact Hrun |].
  destruct (collect_spec _ _ _ _ Hrun) as (cs' & -> & Hcs). simpl.
  eapply Forall2_impl_in; [exact Hcs |].
  intros cid c Hcid Hc. simpl in Hc.
  destruct (Hall cid Hcid) as [cw Hcw].
  destruct (clientConfig_spec st cfg cid cw Hcfg Hnb Hcw) as (blws & Hc' & Hlen & Hb).
  rewrite Hc in Hc'. injection Hc' as ->. simpl.
  split; [reflexivity |]. split; [exact Hlen |].
  exists cw. split; [apply Hcw | exact Hb].
Qed.



Lemma exampleReplayed_clients : clients exampleReplayed = [7].
Proof. vm_compute. reflexivity. Qed.

Lemma exampleReplayed_config : networkConfig exampleReplayed = Some exampleConfig.
Proof. vm_compute. reflexivity. Qed.

Lemma exampleReplayed_checkpointable :
  checkpointable exampleReplayed 1 7 (windowOf7 exampleReplayed).
Proof.
  destruct exampleReplayed_watermarks as (Hlo & Hhi & Hnext).
  split; [exact exampleReplayed_window |].
  split; [apply (inv_windows _ exampleReplayed_inv 7), exampleReplayed_window |].
  split; [lia |]. split; [rewrite Hhi; unfold MaxUint64; lia |].
  apply (bool_decide_unpack _). vm_compute. exact I.
Qed.



(** The client state after the replay of the example log. *)
Lemma cws_clientConfigs_spec_witness :
  ∃ cs, cws_clientConfigs exampleReplayed = Ok cs ∧ length cs = 1%nat.
Proof.
  destruct (cws_clientConfigs_spec exampleReplayed exampleConfig) as (cs & Hrun & Hcs).
  - exact exampleReplayed_config.
  - simpl. lia.
  - intros cid Hcid. rewrite exampleReplayed_clients in Hcid.
    apply list_elem_of_singleton in Hcid as ->.
    exists (windowOf7 exampleReplayed). exact exampleReplayed_checkpointable.
  - exists cs. split; [exact Hrun |].
    apply Forall2_length in Hcs. rewrite exampleReplayed_clients in Hcs.
    symmetry. exact Hcs.
Defined.


(** ** More on the serial processor *)

Section ProcessorResults.
Import Processor.

Lemma emits_impl {A} (P Q : Event → Prop) (m : run A) :
  (∀ e, P e → Q e) → emits P m → emits Q m.
Proof.
  intros HPQ Hm tr. destruct (Hm tr) as (t & r & E & Ht).
  exists t, r. split; [exact E |]. eapply Forall_impl; eassumption.
Qed.

Lemma emits_forEach_in {A} P (l : list A) (body : A → run unit) :
  (∀ x, x ∈ l → emits P (body x)) → emits P (forEach l body).
Proof.
  induction l as [| x l IH]; intros Hbody; simpl.
  - apply emits_ret.
  - apply emits_bind; [apply Hbody; left |].
    intros _. apply IH. intros y Hy. apply Hbody. right. exact Hy.
Qed.

Lemma emits_persistSerially P sp actions :
  (∀ e, isPersistence e = true → P e) → emits P (persistSerially sp actions).
Proof.
  intros HP. unfold persistSerially. apply emits_bind.
  - apply emits_forEach. intros r. apply emits_bind.
    + apply emits_call, HP. reflexivity.
    + intros _. apply emits_ret.
  - intros _. apply emits_bind; [apply emits_call, HP; reflexivity |].
    intros [err |]; [apply emits_panic |].
    apply emits_bind.
    + apply emits_forEach. intros p. apply emits_bind.
      * apply emits_call, HP. reflexivity.
      * intros [err |]; [apply emits_panic | apply emits_ret].
    + intros _. apply emits_bind; [apply emits_call, HP; reflexivity |].
      intros [err |]; [apply emits_panic | apply emits_ret].
Qed.

Lemma emits_transmit_local sp targets msg :
  emits (localDelivery sp) (transmit sp targets msg).
Proof.
  apply emits_forEach. intros replica.
  case_decide; apply emits_call; simpl; assumption.
Qed.

(** X23: [ProcessSerially] never sends a message over the link to the node it
    runs on: a target that is the node itself is served by [Node.Step],
    with the node as the source, and [Node.Step] is called for no other
    target. *)
Theorem ProcessSerially_local_delivery actions sp tr :
  ∃ t r, ProcessSerially actions sp tr = (tr ++ t, r)
         ∧ Forall (localDelivery sp) t.
Proof.
  revert tr. change (emits (localDelivery sp) (ProcessSerially actions sp)).
  unfold ProcessSerially. apply emits_bind.
  - apply emits_persistSerially. intros e He. destruct e; try discriminate He; exact I.
  - intros _. apply emits_bind.
    + unfold transmitSerially. apply emits_bind.
      * apply emits_forEach. intros s. apply emits_transmit_local.
      * intros _. apply emits_forEach. intros r. apply emits_bind.
        -- apply emits_call. exact I.
        -- intros got. destruct (got.2); [apply emits_panic | apply emits_transmit_local].
    + intros _. eapply emits_impl; [| apply emits_applySerially].
      intros e He. destruct e; try discriminate He; exact I.
Qed.

Lemma transmit_calls sp targets msg tr :
  transmit sp targets msg tr = (tr ++ map (delivery sp msg) targets, Ok tt).
Proof.
  unfold transmit. revert tr. induction targets as [| x l IH]; intros tr; simpl.
  - unfold ret. rewrite app_nil_r. reflexivity.
  - unfold bind at 1. unfold delivery at 1.
    destruct (decide (x = Node_Config_ID sp)); unfold call; rewrite IH, <- app_assoc;
      reflexivity.
Qed.

Lemma sends_calls sp (sends : list Send) tr :
  forEach sends (λ s, transmit sp (Targets s) (send_Msg s)) tr
  = (tr ++ sendCalls sp sends, Ok tt).
Proof.
  revert tr. induction sends as [| s l IH]; intros tr; simpl.
  - unfold ret. rewrite app_nil_r. reflexivity.
  - unfold bind at 1. rewrite transmit_calls, IH, <- app_assoc. reflexivity.
Qed.

(** X24: [transmitSerially] first hands every message of [actions.Send] to
    every one of its targets, once and in the order of the lists; only
    then does it turn to the forwards, for which it reads the request
    store and delivers [ForwardRequest] messages to targets of the forward
    they are made for.  Without forwards that is all it does, and it
    cannot panic. *)
Theorem transmitSerially_calls sp actions tr :
  ∃ t r,
    transmitSerially sp actions tr = (tr ++ sendCalls sp (Sends actions) ++ t, r)
    ∧ Forall (forwardCall actions) t
    ∧ (ForwardRequests actions = [] → t = [] ∧ r = Ok tt).
Proof.
  unfold transmitSerially. unfold bind at 1. rewrite sends_calls.
  set (body := λ r : Forward,
    bind (call (RequestStore_Get (fw_RequestAck r))
               (λ tr, Get_returns sp tr (fw_RequestAck r)))
         (λ got, match got.2 with
                 | Some _ => panic "could not store request, unsafe to continue: %s"
                 | None =>
                   transmit sp (fw_Targets r)
                     (Msg_ForwardRequest {| fr_RequestAck := fw_RequestAck r;
                                            fr_RequestData := got.1 |})
                 end)).
  assert (Hem : emits (forwardCall actions) (forEach (ForwardRequests actions) body)).
  { apply emits_forEach_in. intros r Hr. apply emits_bind.
    - apply emits_call. exists r. split; [exact Hr | reflexivity].
    - intros got. destruct (got.2); [apply emits_panic |].
      apply emits_forEach_in. intros d Hd.
      case_decide; apply emits_call; exists r; split_and!; try reflexivity; assumption. }
  destruct (Hem (tr ++ sendCalls sp (Sends actions))) as (t & r & E & Ht).
  exists t, r. split; [rewrite app_assoc; exact E |]. split; [exact Ht |].
  intros Hnil. rewrite Hnil in E. simpl in E. unfold ret in E.
  injection E as E1 E2. split; [| symmetry; exact E2].
  apply (app_inv_head (tr ++ sendCalls sp (Sends actions))).
  rewrite app_nil_r. symmetry. exact E1.
Qed.

Lemma applyCommits_calls sp commits :
  ∀ acc tr, ∃ cps,
    applyCommits sp commits acc tr = (tr ++ commitCalls commits, Ok (acc ++ cps))
    ∧ map cr_Commit cps = List.filter Checkpoint commits.
Proof.
  induction commits as [| c rest IH]; intros acc tr.
  - exists []. simpl. unfold ret. rewrite !app_nil_r. split; reflexivity.
  - simpl. unfold bind at 1. unfold call at 1.
    destruct (Checkpoint c) eqn:Hc.
    + unfold bind at 1. unfold call at 1.
      destruct (IH (acc ++ [{| cr_Commit := c;
                               cr_Value := Snap_returns sp (tr ++ [Log_Apply (commit_QEntry c)]) |}])
                  ((tr ++ [Log_Apply (commit_QEntry c)]) ++ [Log_Snap]))
        as (cps & E & Hm).
      eexists (_ :: cps). rewrite E. split.
      * rewrite <- !app_assoc. reflexivity.
      * simpl. rewrite Hm. reflexivity.
    + destruct (IH acc (tr ++ [Log_Apply (commit_QEntry c)])) as (cps & E & Hm).
      exists cps. rewrite E. split; [rewrite <- !app_assoc; reflexivity | exact Hm].
Qed.

(** X25: [applySerially] cannot panic.  It returns one digest for every hash
    request, in the order of the requests, computed over the data of the
    request; it applies every commit to the log in order and takes a
    snapshot right after every checkpoint commit; and it returns one
    checkpoint result for every checkpoint commit, in their order. *)
Theorem applySerially_results sp actions tr :
  ∃ cps,
    applySerially sp actions tr
    = (tr ++ commitCalls (Commits actions),
       Ok {| Digests := map (λ req, {| hr_Request := req;
                                       hr_Digest := Hasher_sum sp (Data req) |})
                            (Hash actions);
             Checkpoints := cps |})
    ∧ map cr_Commit cps = List.filter Checkpoint (Commits actions)
    ∧ map hr_Request
        (map (λ req, {| hr_Request := req; hr_Digest := Hasher_sum sp (Data req) |})
             (Hash actions)) = Hash actions.
Proof.
  destruct (applyCommits_calls sp (Commits actions) [] tr) as (cps & E & Hm).
  exists cps. unfold applySerially, bind. rewrite E. simpl.
  split; [reflexivity |]. split; [exact Hm |].
  rewrite map_map. simpl. apply map_id.
Qed.

Lemma stops_ret {A} sp (a : A) : stopsAtError sp (ret a).
Proof.
  intros tr. exists [], (Ok a). rewrite app_nil_r. split; [reflexivity |].
  intros i e Hi. rewrite lookup_nil in Hi. discriminate Hi.
Qed.

Lemma stops_panic {A} sp msg : stopsAtError sp (@panic A msg).
Proof.
  intros tr. exists [], (Panic msg). rewrite app_nil_r. split; [reflexivity |].
  intros i e Hi. rewrite lookup_nil in Hi. discriminate Hi.
Qed.

Lemma stops_call {A} sp e (returns : list Event → A) :
  (∀ pre, ¬ erred sp pre e) → stopsAtError sp (call e returns).
Proof.
  intros Hno tr. exists [e], (Ok (returns tr)). split; [reflexivity |].
  intros [| i] e' Hi Herr.
  - injection Hi as <-. exfalso. exact (Hno _ Herr).
  - simpl in Hi. discriminate Hi.
Qed.

Lemma stops_bind {A B} sp (m : run A) (f : A → run B) :
  stopsAtError sp m → (∀ a, stopsAtError sp (f a)) → stopsAtError sp (bind m f).
Proof.
  intros Hm Hf tr. unfold bind.
  destruct (Hm tr) as (t & r & -> & Ht).
  destruct r as [a | msg |].
  - destruct (Hf a (tr ++ t)) as (t' & r' & -> & Ht').
    exists (t ++ t'), r'. rewrite app_assoc. split; [reflexivity |].
    intros i e Hi Herr.
    destruct (decide (i < length t)%nat) as [Hlt | Hge].
    + rewrite lookup_app_l in Hi by exact Hlt.
      rewrite take_app_le in Herr by lia.
      destruct (Ht i e Hi Herr) as (_ & msg & Hbad). discriminate Hbad.
    + rewrite lookup_app_r in Hi by lia.
      rewrite take_app_ge, app_assoc in Herr by lia.
      destruct (Ht' _ e Hi Herr) as (Hlen & Hp).
      split; [rewrite length_app; lia | exact Hp].
  - exists t, (Panic msg). split; [reflexivity |].
    intros i e Hi Herr. destruct (Ht i e Hi Herr) as (Hl & _).
    split; [exact Hl | eexists; reflexivity].
  - exists t, Diverge. split; [reflexivity |].
    intros i e Hi Herr. destruct (Ht i e Hi Herr) as (_ & msg & Hbad). discriminate Hbad.
Qed.

Lemma stops_forEach {A} sp (l : list A) (body : A → run unit) :
  (∀ x, stopsAtError sp (body x)) → stopsAtError sp (forEach l body).
Proof.
  intros Hbody. induction l as [| x l IH]; simpl.
  - apply stops_ret.
  - apply stops_bind; [apply Hbody | intros _; exact IH].
Qed.

(** A call whose error the continuation answers with a panic. *)
Lemma stops_checked {A B} sp e (returns : list Event → A) (f : A → run B) :
  (∀ pre, erred sp pre e → ∃ msg, f (returns pre) = panic msg) →
  (∀ a, stopsAtError sp (f a)) →
  stopsAtError sp (bind (call e returns) f).
Proof.
  intros Hpanic Hf tr. unfold bind, call.
  destruct (Hf (returns tr) (tr ++ [e])) as (t' & r' & E & Ht').
  exists (e :: t'), r'. split.
  { rewrite E, <- app_assoc. reflexivity. }
  intros [| i] e' Hi Herr.
  - injection Hi as <-. simpl in Herr. rewrite app_nil_r in Herr.
    destruct (Hpanic tr Herr) as [msg Hmsg].
    rewrite Hmsg in E. unfold panic in E. injection E as E1 E2.
    assert (t' = []) as ->.
    { apply (app_inv_head (tr ++ [e])). rewrite app_nil_r. symmetry. exact E1. }
    split; [reflexivity |]. exists msg. symmetry. exact E2.
  - simpl in Hi, Herr.
    replace (tr ++ e :: take i t') with ((tr ++ [e]) ++ take i t') in Herr
      by (rewrite <- app_assoc; reflexivity).
    destruct (Ht' i e' Hi Herr) as (Hlen & Hp).
    split; [simpl; lia | exact Hp].
Qed.

Lemma stops_transmit sp targets msg : stopsAtError sp (transmit sp targets msg).
Proof.
  apply stops_forEach. intros replica.
  case_decide; apply stops_call; intros pre Hbad; exact Hbad.
Qed.

Lemma stops_applyCommits sp commits :
  ∀ acc, stopsAtError sp (applyCommits sp commits acc).
Proof.
  induction commits as [| c rest IH]; intros acc; simpl.
  - apply stops_ret.
  - apply stops_bind; [apply stops_call; intros pre Hbad; exact Hbad |].
    intros _. destruct (Checkpoint c); [| apply IH].
    apply stops_bind; [apply stops_call; intros pre Hbad; exact Hbad |].
    intros v. apply IH.
Qed.

(** X22: An error returned by [RequestStore.Sync], [WAL.Append], [WAL.Sync] or
    [RequestStore.Get] stops [ProcessSerially] at once: the call that
    returned it is the last call the processor makes, and the outcome is a
    panic.  So nothing is sent, and no commit is applied, after a failed
    write to the log. *)
Theorem ProcessSerially_stops_at_error actions sp tr :
  ∃ t r,
    ProcessSerially actions sp tr = (tr ++ t, r)
    ∧ ∀ i e, t !! i = Some e → erred sp (tr ++ take i t) e →
        S i = length t ∧ ∃ msg, r = Panic msg.
Proof.
  revert tr. change (stopsAtError sp (ProcessSerially actions sp)).
  unfold ProcessSerially. apply stops_bind.
  - unfold persistSerially. apply stops_bind.
    + apply stops_forEach. intros r. apply stops_bind.
      * apply stops_call. intros pre Hbad. exact Hbad.
      * intros _. apply stops_ret.
    + intros _. apply stops_checked.
      { intros pre [err Herr]. simpl in Herr. rewrite Herr. eexists. reflexivity. }
      intros [err |]; [apply stops_panic |].
      apply stops_bind.
      * apply stops_forEach. intros p. apply stops_checked.
        { intros pre [err Herr]. simpl in Herr. rewrite Herr. eexists. reflexivity. }
        intros [err |]; [apply stops_panic | apply stops_ret].
      * intros _. apply stops_checked.
        { intros pre [err Herr]. simpl in Herr. rewrite Herr. eexists. reflexivity. }
        intros [err |]; [apply stops_panic | apply stops_ret].
  - intros _. apply stops_bind.
    + unfold transmitSerially. apply stops_bind.
      * apply stops_forEach. intros s. apply stops_transmit.
      * intros _. apply stops_forEach. intros r. apply stops_checked.
        { intros pre [err Herr]. simpl in Herr. rewrite Herr. eexists. reflexivity. }
        intros got. destruct (got.2); [apply stops_panic | apply stops_transmit].
    + intros _. unfold applySerially. apply stops_bind; [apply stops_applyCommits |].
      intros cps. apply stops_ret.
Qed.

End ProcessorResults.

(** ** The lists of actions *)

(** X26: Appending actions is associative and a cleared [Actions] is neutral on
    both sides: however the state machine groups the [Append] calls that
    collect the actions of several handlers, the resulting lists are the
    same, each in the order in which the handlers ran. *)
Theorem Actions_Append_monoid :
  (∀ a b c, ActionLists.Append (ActionLists.Append a b) c
            = ActionLists.Append a (ActionLists.Append b c))
  ∧ (∀ a o, ActionLists.Append (ActionLists.Clear o) a = a)
  ∧ (∀ a o, ActionLists.Append a (ActionLists.Clear o) = a).
Proof.
  split_and!.
  - intros a b c. unfold ActionLists.Append. simpl. rewrite <- !app_assoc. reflexivity.
  - intros [] o. reflexivity.
  - intros [] o. unfold ActionLists.Append. simpl. rewrite !app_nil_r. reflexivity.
Qed.

Lemma length_zero_eqb {A} (l : list A) : Nat.eqb (length l) 0 = true ↔ l = [].
Proof.
  destruct l; simpl; split; try reflexivity; discriminate.
Qed.

Lemma eqb_length_app {A} (l k : list A) :
  Nat.eqb (length (l ++ k)) 0 = Nat.eqb (length l) 0 && Nat.eqb (length k) 0.
Proof. destruct l; reflexivity. Qed.

(** X27: [IsEmpty] holds exactly of the [Actions] that are as [Clear] leaves
    them, and the result of [Append] is empty exactly when both operands
    are: no action is lost and none appears by appending. *)
Theorem Actions_IsEmpty_spec :
  (∀ a, ActionLists.IsEmpty a = true ↔ a = ActionLists.Clear a)
  ∧ (∀ a o, ActionLists.IsEmpty (ActionLists.Append a o)
            = ActionLists.IsEmpty a && ActionLists.IsEmpty o).
Proof.
  split.
  - intros [b u p h q pe c]. unfold ActionLists.IsEmpty, ActionLists.Clear. simpl.
    rewrite !andb_true_iff, !length_zero_eqb. split.
    + intros [[[[[[-> ->] ->] ->] ->] ->] ->]. reflexivity.
    + intros [= -> -> -> -> -> -> ->]. split_and!; reflexivity.
  - intros a o. unfold ActionLists.IsEmpty, ActionLists.Append. simpl.
    rewrite !eqb_length_app.
    repeat match goal with |- context [Nat.eqb (length ?l) 0] =>
      destruct (Nat.eqb (length l) 0) end; reflexivity.
Qed.

(** ** Acknowledgements and payloads at the ready mark *)

(** The strong request after [clientWindow.ack]. *)
Lemma cw_ack_strong source reqno dg cw h r h' p crn :
  cw_ack source reqno dg cw h = Ok (r, h') →
  reqNoMap cw !! reqno = Some p → h !! p = Some crn →
  ∃ crn',
    h' = <[p := crn']> h
    ∧ digests crn'
      = <[dg := {| digest := digest (getOrCreateRequest crn dg);
                   data := data (getOrCreateRequest crn dg);
                   agreements := {[source]} ∪ agreements (getOrCreateRequest crn dg) |}]>
          (digests crn)
    ∧ strongRequest crn'
      = (if decide (Z.of_nat (size ({[source]} ∪ agreements (getOrCreateRequest crn dg)))
                    = intersectionQuorum (cw_networkConfig cw))
         then Some dg else strongRequest crn)
    ∧ reqNo crn' = reqNo crn ∧ committed crn' = committed crn
    ∧ clientID crn' = clientID crn.
Proof.
  unfold cw_ack. intros Hrun Hm Hp. rewrite Hm in Hrun.
  destruct (decide (reqno > highWatermark cw)); [discriminate |].
  destruct (decide (reqno < lowWatermark cw)); [discriminate |].
  unfold deref in Hrun. rewrite Hp in Hrun. cbn [mbind result_bind] in Hrun.
  injection Hrun as _ <-. cbn [agreements data].
  eexists. split; [reflexivity |].
  destruct (decide (_ = intersectionQuorum _)); split_and!; reflexivity.
Qed.

Lemma getOrCreateRequest_agreements h p crn dg :
  h !! p = Some crn → agreements (getOrCreateRequest crn dg) = agreementsOf h p dg.
Proof.
  intros Hp. unfold agreementsOf, getOrCreateRequest. rewrite Hp.
  destruct (digests crn !! dg); reflexivity.
Qed.

Lemma getOrCreateRequest_data h p crn dg :
  h !! p = Some crn → data (getOrCreateRequest crn dg) = dataOf h p dg.
Proof.
  intros Hp. unfold dataOf, getOrCreateRequest. rewrite Hp. simpl.
  destruct (digests crn !! dg); reflexivity.
Qed.

Lemma union_singleton_twice (s : Z) (X : gset Z) : {[s]} ∪ ({[s]} ∪ X) = {[s]} ∪ X.
Proof. apply leibniz_equiv. rewrite (assoc_L (∪)), (idemp_L (∪)). reflexivity. Qed.

(** X2: An acknowledgement that is repeated leaves the [clientReqNo] objects
    exactly as the first one left them: the agreement sets count a node
    once. *)
Theorem cw_ack_idempotent source reqno dg cw h r h' :
  cw_ack source reqno dg cw h = Ok (r, h') →
  ∃ r', cw_ack source reqno dg cw h' = Ok (r', h')
        ∧ ack_crn r' = ack_crn r ∧ ack_cr r' = ack_cr r.
Proof.
  intros Hrun.
  destruct (cw_ack_run _ _ _ _ _ _ _ Hrun)
    as (p & crn & crn' & Hwm & Hm & Hp & Hh' & Hr & Hk & _).
  destruct (cw_ack_strong _ _ _ _ _ _ _ _ _ Hrun Hm Hp)
    as (crn1 & Hh1 & Hd1 & Hs1 & Hrn1 & Hc1 & Hid1).
  assert (Hlt : (p < length h)%nat) by (eapply lookup_lt_Some; exact Hp).
  assert (Hp1 : h' !! p = Some crn1).
  { rewrite Hh1. apply list_lookup_insert_eq. exact Hlt. }
  assert (Hok : is_Ok (cw_ack source reqno dg cw h')).
  { unfold cw_ack.
    destruct (decide (reqno > highWatermark cw)); [lia |].
    destruct (decide (reqno < lowWatermark cw)); [lia |].
    rewrite Hm. unfold deref. rewrite Hp1. eexists. reflexivity. }
  destruct Hok as [[r2 h2] Hrun2].
  destruct (cw_ack_run _ _ _ _ _ _ _ Hrun2)
    as (p2 & c2 & c2' & _ & Hm2 & Hp2 & _ & Hr2 & Hk2 & _).
  rewrite Hm in Hm2. injection Hm2 as <-.
  destruct (cw_ack_strong _ _ _ _ _ _ _ _ _ Hrun2 Hm Hp1)
    as (crn2 & Hh2 & Hd2 & Hs2 & Hrn2 & Hc2 & Hid2).
  assert (Hget : getOrCreateRequest crn1 dg
                 = {| digest := digest (getOrCreateRequest crn dg);
                      data := data (getOrCreateRequest crn dg);
                      agreements := {[source]} ∪ agreements (getOrCreateRequest crn dg) |}).
  { unfold getOrCreateRequest at 1. rewrite Hd1, lookup_insert_eq. reflexivity. }
  pose proof (union_singleton_twice source (agreements (getOrCreateRequest crn dg)))
    as Hset.
  rewrite Hget in Hd2, Hs2. cbn [digest data agreements] in Hd2, Hs2.
  rewrite Hset in Hd2, Hs2.
  assert (Ecrn : crn2 = crn1).
  { destruct crn1 as [i1 n1 d1 k1 s1], crn2 as [i2 n2 d2 k2 s2]. simpl in *.
    subst. f_equal.
    - rewrite insert_insert_eq. reflexivity.
    - destruct (decide (_ = intersectionQuorum _)); reflexivity. }
  exists r2. split.
  - rewrite Hrun2. f_equal. f_equal. rewrite Hh2, Ecrn, Hh1.
    apply list_insert_insert_eq.
  - split; congruence.
Qed.

Lemma cw_ack_idempotent_witness :
  ∃ r h' r', cw_ack 1 0 "d" ackedByTwoWindow ackedByTwoHeap = Ok (r, h')
             ∧ cw_ack 1 0 "d" ackedByTwoWindow h' = Ok (r', h').
Proof.
  assert (E : ∃ r h', cw_ack 1 0 "d" ackedByTwoWindow ackedByTwoHeap = Ok (r, h')).
  { eexists _, _. vm_compute. reflexivity. }
  destruct E as (r & h' & E).
  destruct (cw_ack_idempotent 1 0 "d" ackedByTwoWindow ackedByTwoHeap r h' E)
    as (r' & E' & _).
  exists r, h', r'. split; assumption.
Defined.

(** X9: The acknowledgement that completes the quorum of [2f+1] nodes for the
    request number the ready mark stands on, when its payload is known,
    releases that request: its [clientReqNo] is appended to the ready list
    right after the entries the list had, the digest is its strong request
    and the ready mark moves beyond it. *)
Theorem cws_ack_releases source ack st cw p crn rq ns :
  cwsSafe st →
  windows st !! ack_ClientId ack = Some cw →
  nextReadyMark cw = ack_ReqNo ack →
  ack_ReqNo ack <= highWatermark cw →
  reqNoMap cw !! ack_ReqNo ack = Some p →
  crns st !! p = Some crn →
  dataOf (crns st) p (ack_Digest ack) = Some rq →
  Z.of_nat (size ({[source]} ∪ agreementsOf (crns st) p (ack_Digest ack)))
    = intersectionQuorum (cw_networkConfig cw) →
  readyChain st ns →
  ∃ k st' (n : nat) ps,
    cws_ack source ack st = Ok (k, st')
    ∧ nextReadyMark <$> windows st' !! ack_ClientId ack
      = Some (ack_ReqNo ack + 1 + Z.of_nat n)
    ∧ strongRequest <$> crns st' !! p = Some (Some (ack_Digest ack))
    ∧ readyChain st' (ns ++ seq (length (readyEntries st)) (S n))
    ∧ entryReqNos (readyEntries st') (ns ++ seq (length (readyEntries st)) (S n))
      = entryReqNos (readyEntries st) ns ++ p :: ps.
Proof.
  intros Hsafe Hw Hmark Hhigh Hm Hp Hdata Hq Hrc.
  destruct (safe_windows st Hsafe _ _ Hw) as (Hinv & Hlow & Hmax).
  assert (Hwm : lowWatermark cw <= ack_ReqNo ack <= highWatermark cw) by lia.
  unfold cws_ack. rewrite Hw.
  destruct (cw_ack_Ok source (ack_ReqNo ack) (ack_Digest ack) cw (crns st) Hinv Hwm)
    as [[r h'] Hack].
  rewrite Hack. cbn [mbind result_bind].
  destruct (cw_ack_run _ _ _ _ _ _ _ Hack)
    as (p0 & c0 & c0' & _ & Hm0 & _ & _ & Hr & _).
  rewrite Hm in Hm0. injection Hm0 as <-.
  destruct (cw_ack_strong _ _ _ _ _ _ _ _ _ Hack Hm Hp)
    as (crn' & -> & Hd & Hs & Hrn & _).
  rewrite (getOrCreateRequest_agreements _ _ _ _ Hp) in Hs, Hd.
  rewrite (getOrCreateRequest_data _ _ _ _ Hp), Hdata in Hd.
  rewrite decide_True in Hs by exact Hq.
  assert (Hlt : (p < length (crns st))%nat) by (eapply lookup_lt_Some; exact Hp).
  assert (Hreq : reqNo crn = ack_ReqNo ack).
  { destruct (windowInv_lookup cw (crns st) _ Hinv Hwm) as (q & c & Hmq & Hq' & E).
    congruence. }
  set (st1 := pushCorrect (ack_newlyCorrectReq r) (ack_Digest ack)
                (set_crns st (<[p := crn']> (crns st)))).
  assert (Hs1 : cwsSafe st1).
  { apply cwsSafe_pushCorrect. eapply cwsSafe_update; try eassumption.
    intros k Hk. rewrite Hs in Hk. injection Hk as <-.
    rewrite Hd, lookup_insert_eq. eexists; reflexivity. }
  assert (Hw1 : windows st1 !! ack_ClientId ack = Some cw).
  { unfold st1, pushCorrect. destruct (ack_newlyCorrectReq r); exact Hw. }
  assert (Hc1 : crns st1 = <[p := crn']> (crns st)).
  { unfold st1, pushCorrect. destruct (ack_newlyCorrectReq r); reflexivity. }
  assert (He1 : readyEntries st1 = readyEntries st ∧ readyHead st1 = readyHead st
                ∧ readyTail st1 = readyTail st).
  { unfold st1, pushCorrect. destruct (ack_newlyCorrectReq r); split_and!; reflexivity. }
  destruct He1 as (He1 & Hh1 & Ht1).
  assert (Hp1 : crns st1 !! p = Some crn').
  { rewrite Hc1. apply list_lookup_insert_eq. exact Hlt. }
  assert (Hrc1 : readyChain st1 ns).
  { unfold readyChain. rewrite He1, Hh1, Ht1. exact Hrc. }
  destruct (safe_windows st1 Hs1 _ _ Hw1) as (Hinv1 & _ & _).
  destruct (cws_advanceReady_run st1 (ack_ClientId ack) cw ns Hw1 Hinv1
              (safe_strong st1 Hs1) Hrc1 Hlow Hmax)
    as (k & tl & es' & ps & Hrun & Hc & Hl & He & Hps & Hready & Hnot).
  unfold cws_checkReady, window_deref, deref. rewrite Hw1, Hr, Hp1.
  cbn [mbind result_bind].
  rewrite decide_False by (intros Hne; apply Hne; congruence).
  rewrite Hs. unfold request_deref. rewrite Hd, lookup_insert_eq.
  cbn [mbind result_bind data]. rewrite Hrun. cbn [mbind result_bind].
  assert (Hrdy : readyAt cw (crns st1) (nextReadyMark cw)).
  { exists p, crn'. rewrite Hmark. split_and!; try assumption.
    apply isReady_spec. eexists _, _, rq. split; [exact Hs |].
    rewrite Hd, lookup_insert_eq. split; reflexivity. }
  destruct k as [| n].
  { exfalso. rewrite Z.add_0_r in Hnot. apply Hnot; [lia | exact Hrdy]. }
  rewrite He1 in Hc, Hl, He.
  assert (Hps' : ∃ ps', ps = p :: ps').
  { rewrite seqZ_cons in Hps by lia. inversion Hps as [| q r0 qs rs Hq0 Hrest]; subst.
    rewrite Hmark, Hm in Hq0. injection Hq0 as <-. eexists. reflexivity. }
  destruct Hps' as [ps' ->].
  eexists _, _, n, ps'. split; [reflexivity |].
  cbn [windows set_windows]. rewrite lookup_insert_eq. cbn [fmap option_fmap option_map].
  split; [cbn [nextReadyMark set_nextReadyMark]; f_equal; lia |].
  split.
  { change (strongRequest <$> crns st1 !! p = Some (Some (ack_Digest ack))).
    rewrite Hp1. cbn [fmap option_fmap option_map]. rewrite Hs. reflexivity. }
  split; [split; [exact Hc | exact Hl] |].
  change (entryReqNos es' (ns ++ seq (length (readyEntries st)) (S n))
          = entryReqNos (readyEntries st) ns ++ p :: ps').
  rewrite He. reflexivity.
Qed.

(** *** Storing a payload keeps the state well formed *)

Lemma cw_allocate_strong rq dg cw h p nc h' crn :
  cw_allocate rq dg cw h = Ok (p, nc, h') → h !! p = Some crn →
  ∃ crn',
    h' = <[p := crn']> h
    ∧ digests crn'
      = <[dg := {| digest := digest (getOrCreateRequest crn dg); data := Some rq;
                   agreements := agreements (getOrCreateRequest crn dg) |}]> (digests crn)
    ∧ strongRequest crn'
      = (if decide (Z.of_nat (size (agreements (getOrCreateRequest crn dg)))
                    = intersectionQuorum (cw_networkConfig cw))
         then Some dg else strongRequest crn)
    ∧ reqNo crn' = reqNo crn.
Proof.
  unfold cw_allocate. intros Hrun Hp.
  destruct (decide (req_ReqNo rq > highWatermark cw)); [discriminate |].
  destruct (decide (req_ReqNo rq < lowWatermark cw)); [discriminate |].
  destruct (reqNoMap cw !! req_ReqNo rq) as [q |]; [| discriminate].
  unfold deref in Hrun. destruct (h !! q) as [c |] eqn:Hq; [| discriminate].
  cbn [mbind result_bind] in Hrun. injection Hrun as -> _ <-.
  rewrite Hq in Hp. injection Hp as ->. cbn [agreements].
  eexists. split; [reflexivity |].
  destruct (decide (_ = intersectionQuorum _)); split_and!; reflexivity.
Qed.

Lemma cwsInv_pushCorrect nc dg st : cwsInv st → cwsInv (pushCorrect nc dg st).
Proof.
  intros Hs. destruct nc; [| exact Hs].
  eapply cwsInv_ext; [exact Hs | reflexivity ..].
Qed.

Lemma cws_checkReady_inv st cid cw p ocrn :
  cwsInv st → windows st !! cid = Some cw → crns st !! p = Some ocrn →
  ∃ st', cws_checkReady cid p st = Ok st' ∧ cwsInv st'
         ∧ clients st' = clients st ∧ networkConfig st' = networkConfig st
         ∧ msgBuffers st' = msgBuffers st.
Proof.
  intros Hinv Hw Hp. unfold cws_checkReady, window_deref, deref. rewrite Hw, Hp.
  cbn [mbind result_bind].
  assert (Hsame : ∃ st', Ok st = Ok st' ∧ cwsInv st'
            ∧ clients st' = clients st ∧ networkConfig st' = networkConfig st
            ∧ msgBuffers st' = msgBuffers st).
  { exists st. split_and!; try reflexivity. exact Hinv. }
  destruct (decide (reqNo ocrn ≠ nextReadyMark cw)); [exact Hsame |].
  destruct (strongRequest ocrn) as [k |] eqn:Hs; [| exact Hsame].
  destruct (inv_strong st Hinv p ocrn k Hp Hs) as [cr Hcr].
  unfold request_deref. rewrite Hcr. cbn [mbind result_bind].
  destruct (data cr); [| exact Hsame].
  destruct (cws_advanceReady_inv st cid Hinv) as (st' & cw0 & cw' & Hrun & Hinv' & Hrest).
  { eexists. exact Hw. }
  exists st'. split; [exact Hrun |]. split; [exact Hinv' |].
  destruct Hrest as (_ & _ & _ & _ & _ & _ & _ & _ & Hcl & Hcfg & Hb).
  split_and!; assumption.
Qed.

(** [clientWindows.allocate] within the watermarks keeps the invariant of the
    client windows. *)
Lemma cws_allocate_keeps rq dg st cw :
  cwsInv st →
  windows st !! req_ClientId rq = Some cw →
  lowWatermark cw <= req_ReqNo rq <= highWatermark cw →
  ∃ st', cws_allocate rq dg st = Ok st' ∧ cwsInv st'
         ∧ clients st' = clients st ∧ networkConfig st' = networkConfig st
         ∧ msgBuffers st' = msgBuffers st.
Proof.
  intros Hinv Hw Hwm.
  destruct (inv_windows st Hinv _ _ Hw) as (Hcw & _ & _ & _).
  unfold cws_allocate. rewrite Hw.
  destruct (cw_allocate_Ok rq dg cw (crns st) Hcw Hwm) as [[[p nc] h'] Hal].
  rewrite Hal. cbn [mbind result_bind].
  destruct (cw_allocate_run _ _ _ _ _ _ _ Hal) as (crn & c0 & _ & _ & Hp & _).
  destruct (cw_allocate_strong _ _ _ _ _ _ _ _ Hal Hp) as (crn' & -> & Hd & Hs & Hrn).
  assert (Hlt : (p < length (crns st))%nat) by (eapply lookup_lt_Some; exact Hp).
  set (st1 := pushCorrect nc dg (set_crns st (<[p := crn']> (crns st)))).
  assert (Hinv1 : cwsInv st1).
  { apply cwsInv_pushCorrect. eapply cwsInv_update; try eassumption.
    - intros k Hk. rewrite Hd.
      destruct (decide (dg = k)) as [<- | Hne];
        [rewrite lookup_insert_eq; eexists; reflexivity |].
      rewrite lookup_insert_ne by exact Hne.
      destruct (decide (_ = intersectionQuorum _)); rewrite Hs in Hk;
        [congruence |].
      apply (inv_strong st Hinv p crn k Hp Hk).
    - intros Hready. apply isReady_spec in Hready as (k & cr & rq0 & Hk & Hcr & Hdata).
      apply isReady_spec.
      destruct (decide (dg = k)) as [<- | Hne].
      + exists dg. eexists _, rq. rewrite Hd, lookup_insert_eq.
        split_and!; try reflexivity.
        rewrite Hs. destruct (decide (_ = intersectionQuorum _)); [reflexivity | exact Hk].
      + destruct (decide (Z.of_nat (size (agreements (getOrCreateRequest crn dg)))
                          = intersectionQuorum (cw_networkConfig cw))) as [Hq | Hq].
        * exists dg. eexists _, rq. rewrite Hd, lookup_insert_eq.
          split_and!; try reflexivity. exact Hs.
        * exists k, cr, rq0. rewrite Hd, lookup_insert_ne by exact Hne.
          split_and!; try assumption. rewrite Hs. exact Hk. }
  assert (Hw1 : windows st1 !! req_ClientId rq = Some cw)
    by (unfold st1, pushCorrect; destruct nc; exact Hw).
  assert (Hp1 : crns st1 !! p = Some crn').
  { unfold st1, pushCorrect. destruct nc; simpl; apply list_lookup_insert_eq; exact Hlt. }
  assert (Hf1 : clients st1 = clients st ∧ networkConfig st1 = networkConfig st
                ∧ msgBuffers st1 = msgBuffers st)
    by (unfold st1, pushCorrect; destruct nc; split_and!; reflexivity).
  destruct Hf1 as (Hcl1 & Hcfg1 & Hb1).
  destruct (cws_checkReady_inv st1 _ cw p crn' Hinv1 Hw1 Hp1)
    as (st' & Hrun & Hinv' & Hcl & Hcfg & Hb).
  exists st'. split; [exact Hrun |]. split; [exact Hinv' |].
  split_and!; congruence.
Qed.

(** X12: [clientWindows.allocate] for a request number within the watermarks of
    its client returns and keeps the state well formed.  In particular the
    request numbers below a ready mark stay ready: the payload that is
    stored never takes back a request that was released. *)
Theorem cws_allocate_inv rq dg st cw :
  cwsInv st →
  windows st !! req_ClientId rq = Some cw →
  lowWatermark cw <= req_ReqNo rq <= highWatermark cw →
  ∃ st', cws_allocate rq dg st = Ok st' ∧ cwsInv st'
         ∧ clients st' = clients st ∧ networkConfig st' = networkConfig st
         ∧ msgBuffers st' = msgBuffers st.
Proof. apply cws_allocate_keeps. Qed.

Lemma cws_allocate_inv_witness :
  ∃ st', cws_allocate exampleRequest "d" exampleReplayed = Ok st' ∧ cwsInv st'.
Proof.
  destruct exampleReplayed_watermarks as (Hlo & Hhi & _).
  destruct (cws_allocate_inv exampleRequest "d" exampleReplayed (windowOf7 exampleReplayed))
    as (st' & Hrun & Hinv & _).
  - exact exampleReplayed_inv.
  - exact exampleReplayed_window.
  - rewrite Hlo, Hhi. simpl. lia.
  - exists st'. split; assumption.
Defined.

Lemma exampleAckedTwice_run :
  cws_allocate examplePayload1 "e1" exampleReplayed = Ok exampleStored1
  ∧ cws_ack 1 exampleAck1 exampleStored1 = Ok ("e1"%string, exampleAckedOnce)
  ∧ cws_ack 2 exampleAck1 exampleAckedOnce = Ok ("e1"%string, exampleAckedTwice).
Proof. split_and!; vm_compute; reflexivity. Qed.

Lemma exampleAckedTwice_facts :
  windows exampleAckedTwice !! 7 = Some (windowOf7 exampleAckedTwice)
  ∧ windows exampleAckedOnce !! 7 = Some (windowOf7 exampleAckedOnce)
  ∧ windows exampleStored1 !! 7 = Some (windowOf7 exampleStored1)
  ∧ nextReadyMark (windowOf7 exampleAckedTwice) = 1
  ∧ highWatermark (windowOf7 exampleAckedTwice) = 100
  ∧ lowWatermark (windowOf7 exampleAckedOnce) = 0
  ∧ highWatermark (windowOf7 exampleAckedOnce) = 100
  ∧ lowWatermark (windowOf7 exampleStored1) = 0
  ∧ highWatermark (windowOf7 exampleStored1) = 100
  ∧ reqNoMap (windowOf7 exampleAckedTwice) !! 1 = Some 2%nat
  ∧ is_Some (crns exampleAckedTwice !! 2%nat)
  ∧ dataOf (crns exampleAckedTwice) 2 "e1" = Some examplePayload1
  ∧ Z.of_nat (size ({[3]} ∪ agreementsOf (crns exampleAckedTwice) 2 "e1"))
    = intersectionQuorum (cw_networkConfig (windowOf7 exampleAckedTwice)).
Proof.
  split_and!; try (vm_compute; reflexivity).
  apply (bool_decide_unpack _). vm_compute. exact I.
Qed.

Lemma Ok_inj {A} (a b : A) : Ok a = Ok b → a = b.
Proof. intros [= E]. exact E. Qed.

Lemma Ok_inj_snd {A B} (a a' : A) (b b' : B) : Ok (a, b) = Ok (a', b') → b = b'.
Proof. intros [= _ E]. exact E. Qed.

Lemma exampleAckedTwice_safe : cwsSafe exampleAckedTwice.
Proof.
  destruct exampleAckedTwice_run as (E0 & E1 & E2).
  destruct exampleAckedTwice_facts
    as (_ & Hw1 & Hw0 & _ & _ & Hlo1 & Hhi1 & Hlo0 & Hhi0 & _).
  destruct exampleReplayed_watermarks as (Hlo & Hhi & _).
  assert (S0 : cwsSafe exampleStored1).
  { destruct (cws_allocate_keeps examplePayload1 "e1" exampleReplayed
                (windowOf7 exampleReplayed) exampleReplayed_inv exampleReplayed_window)
      as (st' & Hrun & Hinv & _); [rewrite Hlo, Hhi; simpl; lia |].
    rewrite E0 in Hrun. apply Ok_inj in Hrun. rewrite Hrun. apply cwsInv_safe, Hinv. }
  assert (S1 : cwsSafe exampleAckedOnce).
  { destruct (cws_ack_safe 1 exampleAck1 exampleStored1 (windowOf7 exampleStored1) S0 Hw0)
      as (k & st' & Hrun & Hs & _); [rewrite Hlo0, Hhi0; simpl; lia |].
    rewrite E1 in Hrun. apply Ok_inj_snd in Hrun. rewrite Hrun. exact Hs. }
  destruct (cws_ack_safe 2 exampleAck1 exampleAckedOnce (windowOf7 exampleAckedOnce) S1 Hw1)
    as (k & st' & Hrun & Hs & _); [rewrite Hlo1, Hhi1; simpl; lia |].
  rewrite E2 in Hrun. apply Ok_inj_snd in Hrun. rewrite Hrun. exact Hs.
Qed.

(** With four nodes, the acknowledgement of node 3 is the third for the
    digest of request number 1, whose payload is known. *)
Lemma cws_ack_releases_witness :
  ∃ k st', cws_ack 3 exampleAck1 exampleAckedTwice = Ok (k, st')
           ∧ strongRequest <$> crns st' !! 2%nat = Some (Some "e1"%string).
Proof.
  destruct exampleAckedTwice_facts
    as (Hw & _ & _ & Hnext & Hhi & _ & _ & _ & _ & Hm & [crn Hp] & Hdata & Hq).
  destruct (safe_ready _ exampleAckedTwice_safe) as [ns Hns].
  destruct (cws_ack_releases 3 exampleAck1 exampleAckedTwice (windowOf7 exampleAckedTwice)
              2%nat crn examplePayload1 ns)
    as (k & st' & n & ps & Hrun & _ & Hs & _).
  - exact exampleAckedTwice_safe.
  - exact Hw.
  - exact Hnext.
  - rewrite Hhi. simpl. lia.
  - exact Hm.
  - exact Hp.
  - exact Hdata.
  - exact Hq.
  - exact Hns.
  - exists k, st'. split; assumption.
Defined.

(** ** The windows after the collection of all clients *)

Lemma gcWindow_slides seqNo st cid cw :
  windows st !! cid = Some cw →
  windowInv cw (crns st) →
  highWatermark cw + Z.of_nat (collectable seqNo (crns st) (reqNoList cw)) <= MaxUint64 →
  ∃ cw' ext,
    gcWindow seqNo st cid
    = Ok (set_windows (set_crns st (crns st ++ ext)) (<[cid := cw']> (windows st)))
    ∧ lowWatermark cw'
      = lowWatermark cw + Z.of_nat (collectable seqNo (crns st) (reqNoList cw))
    ∧ highWatermark cw'
      = highWatermark cw + Z.of_nat (collectable seqNo (crns st) (reqNoList cw))
    ∧ windowInv cw' (crns st ++ ext).
Proof.
  intros Hw Hinv Hno.
  destruct (cw_garbageCollect_spec seqNo cw (crns st) Hinv Hno)
    as (cw' & h' & Hgc & Hlo & Hhi & _ & _ & _ & _ & _ & (ext & ->) & Hinv').
  exists cw', ext. unfold gcWindow, window_deref. rewrite Hw. simpl. rewrite Hgc.
  split_and!; try assumption. reflexivity.
Qed.

Lemma collectWindows_slides seqNo l :
  ∀ st, NoDup l → (∀ cid, cid ∈ l → collectsSafely seqNo st cid) →
  ∃ w ext,
    foldM (gcWindow seqNo) st l = Ok (set_windows (set_crns st (crns st ++ ext)) w)
    ∧ (∀ cid, cid ∉ l → w !! cid = windows st !! cid)
    ∧ (∀ cid cw, cid ∈ l → windows st !! cid = Some cw →
         ∃ cw', w !! cid = Some cw'
                ∧ lowWatermark cw'
                  = lowWatermark cw + Z.of_nat (collectable seqNo (crns st) (reqNoList cw))
                ∧ highWatermark cw'
                  = highWatermark cw + Z.of_nat (collectable seqNo (crns st) (reqNoList cw))
                ∧ windowInv cw' (crns st ++ ext)).
Proof.
  induction l as [| cid l IH]; intros st Hnd Hsafe.
  - exists (windows st), []. simpl. rewrite app_nil_r. split; [destruct st; reflexivity |].
    split; [reflexivity |]. intros cid cw Hcid. apply elem_of_nil in Hcid. contradiction.
  - apply NoDup_cons in Hnd as [Hnotin Hnd].
    destruct (Hsafe cid ltac:(left)) as (cw0 & Hw0 & Hinv0 & Hno0).
    destruct (gcWindow_slides seqNo st cid cw0 Hw0 Hinv0 Hno0)
      as (cw' & ext & Hgc & Hlo & Hhi & Hinv').
    cbn [foldM]. rewrite Hgc. cbn [mbind result_bind].
    set (st1 := set_windows (set_crns st (crns st ++ ext)) (<[cid := cw']> (windows st))).
    destruct (IH st1 Hnd) as (w & ext' & Hrun & Hout & Hin).
    { intros c Hc. eapply (collectsSafely_app seqNo st st1 c ext).
      - apply Hsafe. right. exact Hc.
      - simpl. apply lookup_insert_ne. intros ->. contradiction.
      - reflexivity. }
    exists w, (ext ++ ext'). split.
    { rewrite Hrun. simpl. rewrite <- app_assoc. reflexivity. }
    split.
    { intros c Hc. apply not_elem_of_cons in Hc as [Hne Hc].
      rewrite (Hout c Hc). simpl. apply lookup_insert_ne. congruence. }
    intros c cw Hc Hw.
    destruct (decide (c = cid)) as [-> | Hne].
    + rewrite Hw0 in Hw. injection Hw as <-.
      exists cw'. rewrite (Hout cid Hnotin). simpl. rewrite lookup_insert_eq.
      split_and!; try assumption; [reflexivity |].
      rewrite app_assoc. eapply windowInv_mono; [exact Hinv' | apply sameReqNos_app].
    + apply elem_of_cons in Hc as [-> | Hc]; [contradiction |].
      destruct (Hin c cw Hc) as (cw1 & Hw1 & Hlo1 & Hhi1 & Hinv1).
      { simpl. rewrite lookup_insert_ne by congruence. exact Hw. }
      change (crns st1) with (crns st ++ ext) in Hlo1, Hhi1, Hinv1.
      destruct (Hsafe c ltac:(right; exact Hc)) as (cw2 & Hw2 & Hinv2 & _).
      rewrite Hw in Hw2. injection Hw2 as <-.
      rewrite collectable_app in Hlo1, Hhi1
        by (intros p Hp; eapply windowInv_live; eassumption).
      exists cw1. rewrite <- app_assoc in Hinv1. split_and!; assumption.
Qed.

(** X16: [clientWindows.garbageCollect] slides the window of every client of
    [cws.clients] past the request numbers at its front that have
    committed at or before [seqNo], keeping its width and the window
    invariant; it touches no other window, keeps the list of clients and
    leaves every existing [clientReqNo] as it is.  (As for the ready list,
    this is the collection itself, when no buffered message becomes
    current by it.) *)
Theorem cws_garbageCollect_windows seqNo st ns :
  NoDup (clients st) →
  (∀ cid, cid ∈ clients st → collectsSafely seqNo st cid) →
  chain (readyEntries st) (readyHead st) (readyHead st :: ns) →
  (∀ n e, n ∈ ns → readyEntries st !! n = Some e →
     is_Some (crns st !! re_clientReqNo e)) →
  (∀ st1, collectWindows seqNo st = Ok st1 → nothingToReapply st st1) →
  ∃ st',
    cws_garbageCollect seqNo st = Ok st'
    ∧ clients st' = clients st
    ∧ (∀ cid, cid ∉ clients st → windows st' !! cid = windows st !! cid)
    ∧ (∀ cid cw, cid ∈ clients st → windows st !! cid = Some cw →
         ∃ cw', windows st' !! cid = Some cw'
                ∧ lowWatermark cw'
                  = lowWatermark cw + Z.of_nat (collectable seqNo (crns st) (reqNoList cw))
                ∧ highWatermark cw'
                  = highWatermark cw + Z.of_nat (collectable seqNo (crns st) (reqNoList cw))
                ∧ windowInv cw' (crns st'))
    ∧ (∀ p crn, crns st !! p = Some crn → crns st' !! p = Some crn).
Proof.
  intros Hnd Hsafe Hc Hvalid Hbuf.
  destruct (collectWindows_slides seqNo (clients st) st Hnd Hsafe)
    as (w & ext & Hcw & Hout & Hin).
  set (st1 := set_windows (set_crns st (crns st ++ ext)) w) in *.
  destruct (Hbuf st1 Hcw) as (cfg & Hcfg & Hnodes).
  assert (Hlen : (length ns < S (length (readyEntries st1)))%nat).
  { pose proof (chain_NoDup _ _ _ Hc) as Hnd'. apply NoDup_cons in Hnd' as [_ Hnd'].
    pose proof (NoDup_bounded_length ns (length (readyEntries st)) Hnd') as Hle.
    simpl. apply Nat.lt_succ_r, Hle.
    intros n Hn. eapply chain_bound; [exact Hc | right; exact Hn]. }
  destruct (gcReady_loop_spec seqNo (S (length (readyEntries st1))) (readyHead st1) st1 ns)
    as (es' & ns' & Hrun & _).
  { exact Hc. }
  { exact Hlen. }
  { intros n e Hn He. destruct (Hvalid n e Hn He) as [crn Hcrn].
    exists crn. simpl. apply lookup_app_l_Some. exact Hcrn. }
  set (st2 := set_ready st1 (readyTail st1) es') in *.
  destruct (drainMsgBuffers_none (Nodes cfg) st2) as (b & Hdrain).
  { intros n Hn. destruct (Hnodes n Hn) as (buf & Hb & Hno). exists buf.
    split; [exact Hb |]. intros m Hm.
    rewrite (cws_filter_windows st2 st1 m eq_refl). apply Hno, Hm. }
  exists (set_msgBuffers st2 b).
  split.
  { unfold cws_garbageCollect, gcReadyList.
    rewrite Hcw. cbn [mbind result_bind].
    rewrite Hrun. cbn [mbind result_bind].
    change (networkConfig st2) with (networkConfig st).
    rewrite Hcfg. exact Hdrain. }
  change (windows (set_msgBuffers st2 b)) with w.
  change (crns (set_msgBuffers st2 b)) with (crns st ++ ext).
  split_and!.
  - reflexivity.
  - exact Hout.
  - exact Hin.
  - intros p crn Hp. apply lookup_app_l_Some, Hp.
Qed.

(** The collection up to sequence number 5 after the replay of the example
    log, when request number 0 of client 7 has committed at 3. *)
Lemma cws_garbageCollect_windows_witness :
  ∃ st' cw',
    cws_garbageCollect 5 exampleCommitted = Ok st'
    ∧ windows st' !! 7 = Some cw'
    ∧ highWatermark cw' - lowWatermark cw'
      = highWatermark (windowOf7 exampleCommitted) - lowWatermark (windowOf7 exampleCommitted).
Proof.
  pose proof exampleCommitted_inv as [Hwin Hsp (ns0 & [Hc Hl] & Hvalid) Hcl].
  destruct (chain_head _ _ _ Hc) as (ns & ->).
  destruct (cws_garbageCollect_windows 5 exampleCommitted ns)
    as (st' & Hrun & _ & _ & Hin & _).
  - rewrite exampleCommitted_clients. apply NoDup_singleton.
  - intros cid Hcid. rewrite exampleCommitted_clients in Hcid.
    apply list_elem_of_singleton in Hcid as ->.
    destruct (Hwin 7 _ exampleCommitted_window) as (Hinv & _ & Hhigh & _).
    exists (windowOf7 exampleCommitted).
    split_and!; [exact exampleCommitted_window | exact Hinv |].
    pose proof (collectable_le 5 (crns exampleCommitted)
                  (reqNoList (windowOf7 exampleCommitted))) as Hle.
    rewrite exampleCommitted_length in Hle. rewrite exampleCommitted_high.
    unfold MaxUint64. lia.
  - exact Hc.
  - intros n e Hn He. apply Hvalid. eapply entryReqNos_elem; [right; exact Hn | exact He].
  - intros st1 _. exists exampleConfig. split; [exact exampleCommitted_config |].
    intros n Hn. exists []. split; [apply exampleCommitted_buffers, Hn |].
    intros m Hm. apply elem_of_nil in Hm. contradiction.
  - destruct (Hin 7 (windowOf7 exampleCommitted)) as (cw' & Hw' & Hlo & Hhi & _).
    + rewrite exampleCommitted_clients. left.
    + exact exampleCommitted_window.
    + exists st', cw'. split_and!; [exact Hrun | exact Hw' | lia].
Defined.

(** ** The clients and the configuration after the replay *)

Lemma foldM_app {A B} (f : A → B → result A) (l1 l2 : list B) :
  ∀ a, foldM f a (l1 ++ l2) = (foldM f a l1 ≫= λ a', foldM f a' l2).
Proof.
  induction l1 as [| x l1 IH]; intros a; [reflexivity |].
  simpl. destruct (f a x) as [a1 | |]; [apply IH | reflexivity | reflexivity].
Qed.

Lemma replayClient_clients cfg st client st' :
  replayClient cfg st client = Ok st' →
  clients st' = sortClients (clients st ++ [client_Id client])
  ∧ networkConfig st' = networkConfig st
  ∧ (clientsHaveWindows st → clientsHaveWindows st').
Proof.
  unfold replayClient.
  destruct (minBucketLowWatermark _) as [low | |]; try discriminate.
  cbn [mbind result_bind].
  destruct (newClientWindow _ _ _ _ _) as [[cw h] | |]; try discriminate.
  cbn [mbind result_bind]. intros [= <-].
  split; [reflexivity |]. split; [reflexivity |].
  intros HP cid. simpl. rewrite sortClients_perm, elem_of_app, list_elem_of_singleton.
  rewrite lookup_insert_is_Some', (HP cid).
  split; intros [H | H]; auto.
Qed.

Lemma foldM_replayClient_clients cfg cls :
  ∀ st st', foldM (replayClient cfg) st cls = Ok st' →
  clients st' ≡ₚ clients st ++ (client_Id <$> cls)
  ∧ networkConfig st' = networkConfig st
  ∧ (Sorted Z.le (clients st) → Sorted Z.le (clients st'))
  ∧ (clientsHaveWindows st → clientsHaveWindows st').
Proof.
  induction cls as [| c cls IH]; intros st st'.
  - intros [= <-]. simpl. rewrite app_nil_r. split_and!; auto.
  - cbn [foldM]. destruct (replayClient cfg st c) as [st1 | |] eqn:H1; try discriminate.
    cbn [mbind result_bind]. intros Hrun.
    destruct (replayClient_clients _ _ _ _ H1) as (Hcl1 & Hcfg1 & HP1).
    destruct (IH _ _ Hrun) as (Hcl & Hcfg & Hs & HP).
    split_and!.
    + rewrite Hcl, Hcl1, sortClients_perm. simpl. rewrite <- app_assoc. reflexivity.
    + congruence.
    + intros _. apply Hs. rewrite Hcl1. apply sortClients_sorted.
    + intros H0. apply HP, HP1, H0.
Qed.

Lemma replayRequest_frame st request st' :
  replayRequest st request = Ok st' →
  clients st' = clients st ∧ networkConfig st' = networkConfig st
  ∧ windows st' = windows st.
Proof.
  intros Hrun. destruct (replayRequest_run _ _ _ Hrun)
    as (cw & p & crn & crn' & _ & _ & _ & _ & -> & _).
  split_and!; reflexivity.
Qed.

Lemma foldM_replayRequest_frame batch :
  ∀ st st', foldM replayRequest st batch = Ok st' →
  clients st' = clients st ∧ networkConfig st' = networkConfig st
  ∧ windows st' = windows st.
Proof.
  induction batch as [| r batch IH]; intros st st'.
  - intros [= <-]. split_and!; reflexivity.
  - cbn [foldM]. destruct (replayRequest st r) as [st1 | |] eqn:H1; try discriminate.
    cbn [mbind result_bind]. intros Hrun.
    destruct (replayRequest_frame _ _ _ H1) as (E1 & E2 & E3).
    destruct (IH _ _ Hrun) as (E1' & E2' & E3').
    split_and!; congruence.
Qed.

(** Once the configuration is set, the replay changes neither it nor the
    clients: further checkpoint entries are skipped. *)
Lemma replay_configured log :
  ∀ st b st' b' nc,
  networkConfig st = Some nc →
  foldM replayEntry (st, b) log = Ok (st', b') →
  networkConfig st' = Some nc ∧ clients st' = clients st ∧ windows st' = windows st.
Proof.
  induction log as [| e log IH]; intros st b st' b' nc Hnc.
  - intros [= <- <-]. split_and!; [exact Hnc | reflexivity ..].
  - cbn [foldM]. destruct e as [c | q | p |]; cbn [replayEntry].
    + rewrite Hnc. cbn [mbind result_bind]. apply IH, Hnc.
    + cbn [mbind result_bind]. apply IH, Hnc.
    + destruct (b !! pe_Digest p) as [batch |]; [| discriminate].
      destruct (foldM replayRequest st batch) as [st1 | |] eqn:H1; try discriminate.
      cbn [mbind result_bind]. intros Hrun.
      destruct (foldM_replayRequest_frame _ _ _ H1) as (E1 & E2 & E3).
      destruct (IH st1 b st' b' nc) as (F1 & F2 & F3); [congruence | exact Hrun |].
      split_and!; congruence.
    + cbn [mbind result_bind]. apply IH, Hnc.
Qed.

Lemma first_checkpoint log :
  (∀ c, Persistent_CEntry c ∉ log)
  ∨ ∃ pre c rest, log = pre ++ Persistent_CEntry c :: rest
                  ∧ ∀ c', Persistent_CEntry c' ∉ pre.
Proof.
  induction log as [| e log IH].
  - left. intros c Hc. apply elem_of_nil in Hc. exact Hc.
  - destruct e as [c | q | p |].
    + right. exists [], c, log. split; [reflexivity |].
      intros c' Hc'. apply elem_of_nil in Hc'. exact Hc'.
    + destruct IH as [Hno | (pre & c & rest & -> & Hno)].
      * left. intros c Hc. apply elem_of_cons in Hc as [Hc | Hc]; [discriminate |].
        apply (Hno c Hc).
      * right. exists (Persistent_QEntry q :: pre), c, rest. split; [reflexivity |].
        intros c' Hc'. apply elem_of_cons in Hc' as [Hc' | Hc']; [discriminate |].
        apply (Hno c' Hc').
    + destruct IH as [Hno | (pre & c & rest & -> & Hno)].
      * left. intros c Hc. apply elem_of_cons in Hc as [Hc | Hc]; [discriminate |].
        apply (Hno c Hc).
      * right. exists (Persistent_PEntry p :: pre), c, rest. split; [reflexivity |].
        intros c' Hc'. apply elem_of_cons in Hc' as [Hc' | Hc']; [discriminate |].
        apply (Hno c' Hc').
    + destruct IH as [Hno | (pre & c & rest & -> & Hno)].
      * left. intros c Hc. apply elem_of_cons in Hc as [Hc | Hc]; [discriminate |].
        apply (Hno c Hc).
      * right. exists (Persistent_Other :: pre), c, rest. split; [reflexivity |].
        intros c' Hc'. apply elem_of_cons in Hc' as [Hc' | Hc']; [discriminate |].
        apply (Hno c' Hc').
Qed.

Lemma advanceAll_frame l :
  ∀ st st', foldM (λ st cid, cws_advanceReady cid st) st l = Ok st' →
  clients st' = clients st ∧ networkConfig st' = networkConfig st
  ∧ ∀ cid, is_Some (windows st' !! cid) ↔ is_Some (windows st !! cid).
Proof.
  induction l as [| c l IH]; intros st st'.
  - intros [= <-]. split_and!; reflexivity.
  - cbn [foldM]. destruct (cws_advanceReady c st) as [st1 | |] eqn:H1; try discriminate.
    cbn [mbind result_bind]. intros Hrun.
    destruct (cws_advanceReady_frame _ _ _ H1) as (cw & n & tl & es & Hw & ->).
    destruct (IH _ _ Hrun) as (E1 & E2 & E3).
    split_and!; [exact E1 | exact E2 |].
    intros cid. rewrite E3. simpl. rewrite lookup_insert_is_Some.
    split; [intros [<- | [_ H]]; [eexists; exact Hw | exact H] |].
    intros H. destruct (decide (c = cid)); [left; assumption | right; split; assumption].
Qed.

(** X20: When [newClientWindows] returns, the log has a checkpoint entry, and
    the first one alone decides the configuration and the clients: the
    network configuration is that of the first [CEntry], [cws.clients]
    holds the ids of its clients, in ascending order, and these are the
    clients that have a window.  The checkpoint entries after the first
    change nothing. *)
Theorem newClientWindows_clients log cfg st :
  newClientWindows log cfg = Ok st →
  ∃ pre c rest,
    log = pre ++ Persistent_CEntry c :: rest
    ∧ (∀ c', Persistent_CEntry c' ∉ pre)
    ∧ networkConfig st = Some (ns_Config (ce_NetworkState c))
    ∧ clients st ≡ₚ client_Id <$> ns_Clients (ce_NetworkState c)
    ∧ Sorted Z.le (clients st)
    ∧ clientsHaveWindows st.
Proof.
  unfold newClientWindows, replayLog. intros Hrun.
  destruct (first_checkpoint log) as [Hno | (pre & c & rest & -> & Hno)].
  { exfalso.
    destruct (replay_without_checkpoint log (initialClientWindows cfg) ∅ eq_refl eq_refl Hno)
      as [[msg Hp] | [b' Hok]].
    - rewrite Hp in Hrun. discriminate Hrun.
    - rewrite Hok in Hrun. discriminate Hrun. }
  exists pre, c, rest. split; [reflexivity |]. split; [exact Hno |].
  rewrite foldM_app in Hrun.
  destruct (replay_without_checkpoint pre (initialClientWindows cfg) ∅ eq_refl eq_refl Hno)
    as [[msg Hp] | [b1 Hok]].
  { rewrite Hp in Hrun. discriminate Hrun. }
  rewrite Hok in Hrun. cbn [mbind result_bind foldM replayEntry networkConfig
                            initialClientWindows] in Hrun.
  destruct (foldM (replayClient _) _ _) as [stc | |] eqn:Hc; try discriminate.
  cbn [mbind result_bind] in Hrun.
  destruct (foldM_replayClient_clients _ _ _ _ Hc) as (Hcl & Hcfg & Hs & HP).
  destruct (foldM replayEntry (stc, b1) rest) as [[st1 b2] | |] eqn:Hrest; try discriminate.
  cbn [mbind result_bind] in Hrun.
  destruct (replay_configured rest stc b1 st1 b2 (ns_Config (ce_NetworkState c)))
    as (Hcfg1 & Hcl1 & Hw1); [rewrite Hcfg; reflexivity | exact Hrest |].
  unfold advanceAll in Hrun.
  destruct (foldM _ st1 (clients st1)) as [st2 | |] eqn:Hadv; try discriminate.
  cbn [mbind result_bind] in Hrun.
  destruct (advanceAll_frame _ _ _ Hadv) as (Hcl2 & Hcfg2 & Hw2).
  destruct (networkConfig st2) as [nc |] eqn:Hnc; [| discriminate].
  injection Hrun as <-. simpl.
  split; [congruence |].
  split; [rewrite Hcl2, Hcl1, Hcl; reflexivity |].
  split; [rewrite Hcl2, Hcl1; apply Hs; constructor |].
  intros cid. simpl. rewrite Hcl2, Hcl1, Hw2, Hw1. apply HP.
  intros x. simpl. rewrite lookup_empty. split; [intros H; apply elem_of_nil in H |
    intros [y Hy]; discriminate Hy]. contradiction.
Qed.

Lemma newClientWindows_clients_witness :
  ∃ pre c rest, exampleLog = pre ++ Persistent_CEntry c :: rest
                ∧ networkConfig exampleReplayed = Some (ns_Config (ce_NetworkState c)).
Proof.
  destruct (newClientWindows_clients exampleLog exampleParams exampleReplayed)
    as (pre & c & rest & Hlog & _ & Hcfg & _).
  - exact exampleReplayed_eq.
  - exists pre, c, rest. split; assumption.
Defined.

(** ** The payload of a strong request *)

(** X10: The payload that arrives for the strong request of the request number
    the ready mark stands on releases that request: its [clientReqNo] is
    appended to the ready list right after the entries the list had, and
    the ready mark moves beyond it. *)
Theorem cws_allocate_releases rq dg st cw p crn ns :
  cwsSafe st →
  windows st !! req_ClientId rq = Some cw →
  nextReadyMark cw = req_ReqNo rq →
  req_ReqNo rq <= highWatermark cw →
  reqNoMap cw !! req_ReqNo rq = Some p →
  crns st !! p = Some crn →
  strongRequest crn = Some dg →
  readyChain st ns →
  ∃ st' (n : nat) ps,
    cws_allocate rq dg st = Ok st'
    ∧ nextReadyMark <$> windows st' !! req_ClientId rq
      = Some (req_ReqNo rq + 1 + Z.of_nat n)
    ∧ dataOf (crns st') p dg = Some rq
    ∧ readyChain st' (ns ++ seq (length (readyEntries st)) (S n))
    ∧ entryReqNos (readyEntries st') (ns ++ seq (length (readyEntries st)) (S n))
      = entryReqNos (readyEntries st) ns ++ p :: ps.
Proof.
  intros Hsafe Hw Hmark Hhigh Hm Hp Hstrong Hrc.
  destruct (safe_windows st Hsafe _ _ Hw) as (Hinv & Hlow & Hmax).
  assert (Hwm : lowWatermark cw <= req_ReqNo rq <= highWatermark cw) by lia.
  unfold cws_allocate. rewrite Hw.
  destruct (cw_allocate_Ok rq dg cw (crns st) Hinv Hwm) as [[[p0 nc] h'] Hal].
  rewrite Hal. cbn [mbind result_bind].
  destruct (cw_allocate_run _ _ _ _ _ _ _ Hal) as (c0 & c0' & _ & Hm0 & _).
  rewrite Hm in Hm0. injection Hm0 as <-.
  destruct (cw_allocate_strong _ _ _ _ _ _ _ _ Hal Hp) as (crn' & -> & Hd & Hs & Hrn).
  assert (Hs' : strongRequest crn' = Some dg).
  { rewrite Hs. destruct (decide (_ = intersectionQuorum _)); [reflexivity | exact Hstrong]. }
  assert (Hlt : (p < length (crns st))%nat) by (eapply lookup_lt_Some; exact Hp).
  assert (Hreq : reqNo crn = req_ReqNo rq).
  { destruct (windowInv_lookup cw (crns st) _ Hinv Hwm) as (q & c & Hmq & Hq' & E).
    congruence. }
  set (st1 := pushCorrect nc dg (set_crns st (<[p := crn']> (crns st)))).
  assert (Hs1 : cwsSafe st1).
  { apply cwsSafe_pushCorrect. eapply cwsSafe_update; try eassumption.
    intros k Hk. rewrite Hs' in Hk. injection Hk as <-.
    rewrite Hd, lookup_insert_eq. eexists; reflexivity. }
  assert (Hw1 : windows st1 !! req_ClientId rq = Some cw)
    by (unfold st1, pushCorrect; destruct nc; exact Hw).
  assert (Hc1 : crns st1 = <[p := crn']> (crns st))
    by (unfold st1, pushCorrect; destruct nc; reflexivity).
  assert (He1 : readyEntries st1 = readyEntries st ∧ readyHead st1 = readyHead st
                ∧ readyTail st1 = readyTail st)
    by (unfold st1, pushCorrect; destruct nc; split_and!; reflexivity).
  destruct He1 as (He1 & Hh1 & Ht1).
  assert (Hp1 : crns st1 !! p = Some crn').
  { rewrite Hc1. apply list_lookup_insert_eq. exact Hlt. }
  assert (Hrc1 : readyChain st1 ns).
  { unfold readyChain. rewrite He1, Hh1, Ht1. exact Hrc. }
  destruct (safe_windows st1 Hs1 _ _ Hw1) as (Hinv1 & _ & _).
  destruct (cws_advanceReady_run st1 (req_ClientId rq) cw ns Hw1 Hinv1
              (safe_strong st1 Hs1) Hrc1 Hlow Hmax)
    as (k & tl & es' & ps & Hrun & Hc & Hl & He & Hps & Hready & Hnot).
  unfold cws_checkReady, window_deref, deref. rewrite Hw1, Hp1.
  cbn [mbind result_bind].
  rewrite decide_False by (intros Hne; apply Hne; congruence).
  rewrite Hs'. unfold request_deref. rewrite Hd, lookup_insert_eq.
  cbn [mbind result_bind data]. rewrite Hrun.
  assert (Hrdy : readyAt cw (crns st1) (nextReadyMark cw)).
  { exists p, crn'. rewrite Hmark. split_and!; try assumption.
    apply isReady_spec. eexists _, _, rq. split; [exact Hs' |].
    rewrite Hd, lookup_insert_eq. split; reflexivity. }
  destruct k as [| n].
  { exfalso. rewrite Z.add_0_r in Hnot. apply Hnot; [lia | exact Hrdy]. }
  rewrite He1 in Hc, Hl, He.
  assert (Hps' : ∃ ps', ps = p :: ps').
  { rewrite seqZ_cons in Hps by lia. inversion Hps as [| q r0 qs rs Hq0 Hrest]; subst.
    rewrite Hmark, Hm in Hq0. injection Hq0 as <-. eexists. reflexivity. }
  destruct Hps' as [ps' ->].
  eexists _, n, ps'. split; [reflexivity |].
  cbn [windows set_windows]. rewrite lookup_insert_eq. cbn [fmap option_fmap option_map].
  split; [cbn [nextReadyMark set_nextReadyMark]; f_equal; lia |].
  split.
  { change (dataOf (crns st1) p dg = Some rq). unfold dataOf. rewrite Hp1. simpl.
    rewrite Hd, lookup_insert_eq. reflexivity. }
  split; [split; [exact Hc | exact Hl] |].
  change (entryReqNos es' (ns ++ seq (length (readyEntries st)) (S n))
          = entryReqNos (readyEntries st) ns ++ p :: ps').
  rewrite He. reflexivity.
Qed.

Lemma exampleStrong1_run :
  cws_ack 1 exampleAck1 exampleReplayed = Ok ("e1"%string, exampleStrongOnce)
  ∧ cws_ack 2 exampleAck1 exampleStrongOnce = Ok ("e1"%string, exampleStrongTwice)
  ∧ cws_ack 3 exampleAck1 exampleStrongTwice = Ok ("e1"%string, exampleStrong1).
Proof. split_and!; vm_compute; reflexivity. Qed.

Lemma exampleStrong1_facts :
  windows exampleStrong1 !! 7 = Some (windowOf7 exampleStrong1)
  ∧ windows exampleStrongTwice !! 7 = Some (windowOf7 exampleStrongTwice)
  ∧ windows exampleStrongOnce !! 7 = Some (windowOf7 exampleStrongOnce)
  ∧ nextReadyMark (windowOf7 exampleStrong1) = 1
  ∧ highWatermark (windowOf7 exampleStrong1) = 100
  ∧ lowWatermark (windowOf7 exampleStrongTwice) = 0
  ∧ highWatermark (windowOf7 exampleStrongTwice) = 100
  ∧ lowWatermark (windowOf7 exampleStrongOnce) = 0
  ∧ highWatermark (windowOf7 exampleStrongOnce) = 100
  ∧ reqNoMap (windowOf7 exampleStrong1) !! 1 = Some 2%nat
  ∧ strongRequest <$> crns exampleStrong1 !! 2%nat = Some (Some "e1"%string).
Proof. split_and!; vm_compute; reflexivity. Qed.

Lemma exampleStrong1_safe : cwsSafe exampleStrong1.
Proof.
  destruct exampleStrong1_run as (E0 & E1 & E2).
  destruct exampleStrong1_facts
    as (_ & Hw2 & Hw1 & _ & _ & Hlo2 & Hhi2 & Hlo1 & Hhi1 & _).
  destruct exampleReplayed_watermarks as (Hlo & Hhi & _).
  assert (S1 : cwsSafe exampleStrongOnce).
  { destruct (cws_ack_safe 1 exampleAck1 exampleReplayed (windowOf7 exampleReplayed)
                (cwsInv_safe _ exampleReplayed_inv) exampleReplayed_window)
      as (k & st' & Hrun & Hs & _); [rewrite Hlo, Hhi; simpl; lia |].
    rewrite E0 in Hrun. apply Ok_inj_snd in Hrun. rewrite Hrun. exact Hs. }
  assert (S2 : cwsSafe exampleStrongTwice).
  { destruct (cws_ack_safe 2 exampleAck1 exampleStrongOnce (windowOf7 exampleStrongOnce) S1 Hw1)
      as (k & st' & Hrun & Hs & _); [rewrite Hlo1, Hhi1; simpl; lia |].
    rewrite E1 in Hrun. apply Ok_inj_snd in Hrun. rewrite Hrun. exact Hs. }
  destruct (cws_ack_safe 3 exampleAck1 exampleStrongTwice (windowOf7 exampleStrongTwice) S2 Hw2)
    as (k & st' & Hrun & Hs & _); [rewrite Hlo2, Hhi2; simpl; lia |].
  rewrite E2 in Hrun. apply Ok_inj_snd in Hrun. rewrite Hrun. exact Hs.
Qed.

(** The payload of request number 1 arrives when three of the four nodes
    have acknowledged its digest. *)
Lemma cws_allocate_releases_witness :
  ∃ st', cws_allocate examplePayload1 "e1" exampleStrong1 = Ok st'
         ∧ dataOf (crns st') 2 "e1" = Some examplePayload1.
Proof.
  destruct exampleStrong1_facts
    as (Hw & _ & _ & Hnext & Hhi & _ & _ & _ & _ & Hm & Hstrong).
  destruct (safe_ready _ exampleStrong1_safe) as [ns Hns].
  destruct (crns exampleStrong1 !! 2%nat) as [crn |] eqn:Hp; [| discriminate Hstrong].
  destruct (cws_allocate_releases examplePayload1 "e1" exampleStrong1
              (windowOf7 exampleStrong1) 2%nat crn ns)
    as (st' & n & ps & Hrun & _ & Hdata & _).
  - exact exampleStrong1_safe.
  - exact Hw.
  - exact Hnext.
  - rewrite Hhi. simpl. lia.
  - exact Hm.
  - exact Hp.
  - simpl in Hstrong. congruence.
  - exact Hns.
  - exists st'. split; assumption.
Defined.

(** ** Releases after a collection *)

(** C3: a request that [advanceReady] releases after a collection is not put
    on the ready list.  In the state after the replay of the example log,
    request number 0 of client 7 is on the list; request number 1 is
    released behind it, request number 0 commits at sequence number 3 and
    [garbageCollect(5)] removes its entry.  The collection writes a copy
    of the entry of request number 1 behind the anchor and leaves
    [readyTail] on the original, which the list from [readyHead] no
    longer reaches.  When request number 2 then becomes ready at the ready
    mark, [advanceReady] moves the mark from 2 to 3 and links the new
    entry behind [readyTail]: the entries reached from [readyHead] are
    the anchor and request number 1, as before, and the [clientReqNo] of
    request number 2 is not among them. *)
Theorem cws_advanceReady_detached_tail :
  (* two releases, a commit and the collection *)
  cws_ack 3 exampleAck1 exampleAckedTwice = Ok ("e1"%string, exampleReleased1)
  ∧ chainFrom 5 (readyEntries exampleReleased1) (readyHead exampleReleased1)
    = Some [0; 1; 2]%nat
  ∧ cws_garbageCollect 5 exampleReleasedCommitted = Ok exampleCollected
  ∧ chain (readyEntries exampleCollected) (readyHead exampleCollected) [0; 3]%nat
  ∧ readyTail exampleCollected = 2%nat
  (* the request number 2 becomes ready *)
  ∧ cws_allocate examplePayload2 "e2" exampleCollected = Ok exampleStored2
  ∧ cws_ack 1 exampleAck2 exampleStored2 = Ok ("e2"%string, exampleAcked2Once)
  ∧ cws_ack 2 exampleAck2 exampleAcked2Once = Ok ("e2"%string, exampleAcked2Twice)
  ∧ cws_ack 3 exampleAck2 exampleAcked2Twice = Ok ("e2"%string, exampleReleased2)
  (* the call of [advanceReady] in the last acknowledgement *)
  ∧ nextReadyMark (windowOf7 exampleStrong2) = 2
  ∧ lowWatermark (windowOf7 exampleStrong2) = 1
  ∧ readyAt (windowOf7 exampleStrong2) (crns exampleStrong2) 2
  ∧ cws_checkReady 7 3 exampleStrong2 = cws_advanceReady 7 exampleStrong2
  ∧ cws_advanceReady 7 exampleStrong2 = Ok exampleReleased2
  ∧ nextReadyMark (windowOf7 exampleReleased2) = 3
  ∧ reqNoMap (windowOf7 exampleReleased2) !! 2 = Some 3%nat
  (* the ready list does not hold the released request *)
  ∧ (∀ ns, chain (readyEntries exampleReleased2) (readyHead exampleReleased2) ns →
       ns = [0; 3]%nat
       ∧ entryReqNos (readyEntries exampleReleased2) ns = [0; 2]%nat
       ∧ 3%nat ∉ entryReqNos (readyEntries exampleReleased2) ns)
  ∧ readyTail exampleReleased2 = 4%nat
  ∧ readyEntries exampleReleased2 !! 4%nat
    = Some {| re_next := None; re_clientReqNo := 3 |}.
Proof.
  assert (Hc : chain (readyEntries exampleReleased2) (readyHead exampleReleased2)
                 [0; 3]%nat).
  { apply (chain_cons _ 0%nat {| re_next := Some 3%nat; re_clientReqNo := 0 |}
             3%nat [3%nat]); [vm_compute; reflexivity | reflexivity |].
    apply (chain_last _ 3%nat {| re_next := None; re_clientReqNo := 2 |});
      [vm_compute; reflexivity | reflexivity]. }
  split; [vm_compute; reflexivity |].
  split; [vm_compute; reflexivity |].
  split; [vm_compute; reflexivity |].
  split.
  { apply (chain_cons _ 0%nat {| re_next := Some 3%nat; re_clientReqNo := 0 |}
             3%nat [3%nat]); [vm_compute; reflexivity | reflexivity |].
    apply (chain_last _ 3%nat {| re_next := None; re_clientReqNo := 2 |});
      [vm_compute; reflexivity | reflexivity]. }
  split; [vm_compute; reflexivity |].
  split; [vm_compute; reflexivity |].
  split; [vm_compute; reflexivity |].
  split; [vm_compute; reflexivity |].
  split; [vm_compute; reflexivity |].
  split; [vm_compute; reflexivity |].
  split; [vm_compute; reflexivity |].
  split.
  { eexists 3%nat, _. split; [vm_compute; reflexivity |].
    split; vm_compute; reflexivity. }
  split; [vm_compute; reflexivity |].
  split; [vm_compute; reflexivity |].
  split; [vm_compute; reflexivity |].
  split; [vm_compute; reflexivity |].
  split.
  { intros ns Hns. rewrite (chain_functional _ _ _ Hns _ Hc).
    split; [reflexivity |].
    assert (E : entryReqNos (readyEntries exampleReleased2) [0; 3]%nat = [0; 2]%nat)
      by (vm_compute; reflexivity).
    rewrite E. split; [reflexivity |].
    intros Hin. apply elem_of_cons in Hin as [Hin | Hin]; [discriminate Hin |].
    apply elem_of_cons in Hin as [Hin | Hin]; [discriminate Hin |].
    apply elem_of_nil in Hin. exact Hin. }
  split; vm_compute; reflexivity.
Qed.
